(** * ask-nextjs: the documentation indexing pipeline and its query endpoint

    A shallow embedding of [src/lib/index-files.ts], of the walker and the
    embedding helper found next to [src/lib/seed.ts], and of the query route,
    followed by the properties of the specification that were checked
    against them.

    Conventions.
    - JavaScript strings are [string]s; the paths and texts of interest are
      ASCII, so a character is one [ascii].
    - [undefined] and [null] are [None].
    - A function that may throw returns an [option] or runs in the monad
      [Effects.M], in which a thrown exception keeps every write made
      before it (the store has no transaction around a document), and in
      which any call to the file system, the store or the provider may
      fail.
    - Libraries whose source is not part of the repository (the markdown
      parser and serializer, the hash, the slugger, the embedding provider,
      [join] of the module [path], the collation of [localeCompare], the
      vector operator of the store) are variables of the sections that use
      them. *)

From Stdlib Require Import Ascii QArith.
From stdpp Require Import base option strings list gmap sorting pretty.

#[local] Set Warnings "-register-all".

Local Open Scope string_scope.
Local Open Scope list_scope.

(** ** Strings and the three regular expressions of [formatPath] *)

Module Path.

Definition backslash : ascii := Ascii.ascii_of_nat 92.

Definition is_backslash (c : ascii) : bool := Ascii.eqb c backslash.

(** [\d] of a JavaScript regular expression without the unicode flag. *)
Definition is_digit (c : ascii) : bool :=
  (48 <=? Ascii.nat_of_ascii c)%nat && (Ascii.nat_of_ascii c <=? 57)%nat.

Definition is_dash (c : ascii) : bool := Ascii.eqb c "-"%char.

(** [s.replace(/\\\\/g, '/')]: the pattern is two backslash characters. *)
Fixpoint replace_double_backslash (s : string) : string :=
  match s with
  | EmptyString => EmptyString
  | String a t =>
      match t with
      | String b rest =>
          if is_backslash a && is_backslash b
          then String "/"%char (replace_double_backslash rest)
          else String a (replace_double_backslash t)
      | EmptyString => String a EmptyString
      end
  end.

(** [s.replace(/\d{2}-/g, '')]. *)
Fixpoint remove_two_digits_dash (s : string) : string :=
  match s with
  | EmptyString => EmptyString
  | String a t =>
      match t with
      | String b (String c rest) =>
          if is_digit a && is_digit b && is_dash c
          then remove_two_digits_dash rest
          else String a (remove_two_digits_dash t)
      | _ => String a (remove_two_digits_dash t)
      end
  end.

(** [s.replace(/<suffix>$/, '')] for a literal suffix: the only position at
    which the pattern can match is the one where the rest of the string is
    the suffix itself. *)
Fixpoint remove_at_end (suffix s : string) : string :=
  if String.eqb s suffix then EmptyString
  else match s with
       | EmptyString => EmptyString
       | String a t => String a (remove_at_end suffix t)
       end.

Definition backslash_index : string := String backslash "index".

(** [formatPath], lines 189-195. *)
Definition formatPath (path : string) : string :=
  remove_at_end backslash_index
    (remove_at_end ".mdx"
       (remove_two_digits_dash
          (replace_double_backslash path))).

(** [/\.mdx?$/.test(path)], the filter of [indexFiles]. *)
Fixpoint ends_with (suffix s : string) : bool :=
  String.eqb s suffix ||
  match s with
  | EmptyString => false
  | String _ t => ends_with suffix t
  end.

Definition is_markdown_path (path : string) : bool :=
  ends_with ".md" path || ends_with ".mdx" path.

End Path.

(** ** Sorting

    A stable sort: [Array.prototype.sort] is one, and it serves for
    [ORDER BY] too, where the order among equal keys is not fixed. An
    element is put in front of the first one it is not greater than. *)

Section SortBy.
Context {A : Type} (le : A -> A -> bool).

Fixpoint insert_by (e : A) (l : list A) : list A :=
  match l with
  | [] => [e]
  | x :: l' => if le e x then e :: l else x :: insert_by e l'
  end.

Definition sort_by (l : list A) : list A := foldr insert_by [] l.
End SortBy.

(** ** The document walker *)

Module Walker.

(** What [readdir] and [stat] see. [Broken] is an entry whose [stat]
    rejects (a dangling link); [Special] is neither a file nor a
    directory. *)
Inductive fsnode : Type :=
  | File
  | Special
  | Broken
  | Dir (entries : list (string * fsnode)).

Record WalkEntry : Type := mkEntry {
  path : string;
  parentPath : option string
}.

Section Walk.

(** [join] of the module [path], which normalises the path it builds,
    and the collation used by [localeCompare]. *)
Variable join : string -> string -> string.
Variable localeCompare : string -> string -> Z.

(** [flattenedFiles.sort((a, b) => a.path.localeCompare(b.path))]. *)
Definition sort_by_path (l : list WalkEntry) : list WalkEntry :=
  sort_by (fun a b => (localeCompare (path a) (path b) <=? 0)%Z) l.

Definition includes (x : string) (l : list string) : bool :=
  existsb (String.eqb x) l.

(** [Promise.all]: rejected as soon as one of the promises is. *)
Fixpoint promise_all {A} (l : list (option A)) : option (list A) :=
  match l with
  | [] => Some []
  | Some x :: l' =>
      match promise_all l' with
      | Some xs => Some (x :: xs)
      | None => None
      end
  | None :: _ => None
  end.

(** [walk(dir, parentPath)], where [n] is what the file system holds at
    [dir]. [None] is a rejected promise. *)
Fixpoint walk (n : fsnode) (dir : string) (parentPath : option string)
  : option (list WalkEntry) :=
  match n with
  | Dir immediateFiles =>
      let parentPath :=
        if includes "index.mdx" (map fst immediateFiles)
        then Some (join dir "index.mdx")
        else parentPath in
      match
        promise_all
          (map (fun '(file, child) =>
                  let path := join dir file in
                  match child with
                  | Dir _ => walk child path parentPath
                  | File => Some [mkEntry path parentPath]
                  | Special => Some []
                  | Broken => None
                  end)
               immediateFiles)
      with
      | Some recursiveFiles => Some (sort_by_path (concat recursiveFiles))
      | None => None
      end
  | _ => None
  end.

End Walk.

End Walker.

(** ** The syntax trees handed over by the parser *)

Module Estree.

(** [Literal.value]: string | boolean | null | number | RegExp | bigint.
    A number literal is a finite decimal, kept as a rational. *)
Inductive LiteralValue : Type :=
  | VString (s : string)
  | VBoolean (b : bool)
  | VNull
  | VNumber (q : Q)
  | VBigInt (z : Z)
  | VRegExp (pattern flags : string).

(** The part of [Expression] the extraction looks at; every other kind of
    expression is [OtherExpression] with its [type]. *)
Inductive Expression : Type :=
  | Identifier (name : string)
  | Literal (value : LiteralValue)
  | ObjectExpression (properties : list ObjectMember)
  | OtherExpression (type : string)
with ObjectMember : Type :=
  | Property (key : Expression) (value : Expression)
  | SpreadElement (argument : Expression).

Inductive Pattern : Type :=
  | IdentifierPattern (name : string)
  | OtherPattern (type : string).

Record VariableDeclarator : Type := {
  id : Pattern;
  init : option Expression
}.

Inductive Declaration : Type :=
  | VariableDeclaration (declarations : list VariableDeclarator)
  | OtherDeclaration (type : string).

Inductive Statement : Type :=
  | ExportNamedDeclaration (declaration : option Declaration)
  | OtherStatement (type : string).

Record Program : Type := { body : list Statement }.

(** JavaScript truthiness of a literal's value. *)
Definition truthy (v : LiteralValue) : bool :=
  match v with
  | VString s => negb (String.eqb s "")
  | VBoolean b => b
  | VNull => false
  | VNumber q => negb (Qeq_bool q 0)
  | VBigInt z => negb (z =? 0)%Z
  | VRegExp _ _ => true
  end.

End Estree.

Module Mdast.

(** A node of the [mdast] tree: its [type], [data.estree] (set by the MDX
    extension on [mdxjsEsm] nodes), its [value] when it is a literal and
    its [children] when it is a parent. *)
Inductive Content : Type := mkNode {
  type : string;
  estree : option Estree.Program;
  value : option string;
  children : option (list Content)
}.

(** A tree whose [type] is ['root']. *)
Record Root : Type := u_root { root_children : list Content }.

(** A model of [filter] of [unist-util-filter] with its default
    [cascade]: a node failing the test goes with its subtree, and so does
    a parent that had children and lost them all. It instantiates the
    variable [filter] of the segmenter in examples. *)
Fixpoint filter_node (test : Content -> bool) (n : Content) : option Content :=
  if test n then
    match children n with
    | None => Some n
    | Some cs =>
        let kept := omap (filter_node test) cs in
        if (0 <? length cs)%nat && (length kept =? 0)%nat then None
        else Some (mkNode (type n) (estree n) (value n) (Some kept))
    end
  else None.

Definition unist_util_filter (tree : Root) (test : Content -> bool) : option Root :=
  let cs := root_children tree in
  let kept := omap (filter_node test) cs in
  if (0 <? length cs)%nat && (length kept =? 0)%nat then None
  else Some (u_root kept).

End Mdast.

(** ** The markdown segmenter *)

Module Segmenter.
Import Estree Mdast.

(** The value of [meta]: a plain object from keys to literal values, in
    which a key may be present with the value [undefined] ([None]). *)
Abbreviation Meta := (gmap string (option LiteralValue)).

(** [(property.key.type === 'Identifier' && property.key.name) || undefined],
    line 40; a spread element has no key to look at. *)
Definition property_key (property : ObjectMember) : option string :=
  match property with
  | Property (Identifier name) _ => if String.eqb name "" then None else Some name
  | _ => None
  end.

(** [(property.value.type === 'Literal' && property.value.value) || undefined],
    line 41: a literal whose value is falsy gives [undefined] as well. *)
Definition property_value (value : Expression) : option LiteralValue :=
  match value with
  | Literal v => if truthy v then Some v else None
  | _ => None
  end.

(** The reducer of [getObjectFromExpression], lines 35-51. *)
Definition add_property (object : Meta) (property : ObjectMember) : Meta :=
  match property with
  | SpreadElement _ => object
  | Property _ pvalue =>
      let key := property_key property in
      let value := property_value pvalue in
      match key with
      | None => object
      | Some k => <[k := value]> object
      end
  end.

(** [getObjectFromExpression], lines 32-52, on the [properties] of the
    object expression. *)
Definition getObjectFromExpression (properties : list ObjectMember) : Meta :=
  foldl add_property ∅ properties.

(** The predicate given to [find] in [extractMetaExport], lines 60-68. *)
Definition is_meta_export (node : Content) : bool :=
  String.eqb (type node) "mdxjsEsm" &&
  match estree node with
  | Some program =>
      match body program with
      | ExportNamedDeclaration (Some (VariableDeclaration (d :: _))) :: _ =>
          match id d with
          | IdentifierPattern name => String.eqb name "meta"
          | OtherPattern _ => false
          end
      | _ => false
      end
  | None => false
  end.

(** The [objectExpression] of lines 74-82: the same tests again, and
    that [init] is an object expression. *)
Definition meta_object_expression (node : Content) : option (list ObjectMember) :=
  match estree node with
  | Some program =>
      match body program with
      | ExportNamedDeclaration (Some (VariableDeclaration (d :: _))) :: _ =>
          match id d with
          | IdentifierPattern name =>
              if String.eqb name "meta" then
                match init d with
                | Some (ObjectExpression properties) => Some properties
                | _ => None
                end
              else None
          | OtherPattern _ => None
          end
      | _ => None
      end
  | None => None
  end.

(** [extractMetaExport], lines 59-89. *)
Definition extractMetaExport (mdxTree : Root) : option Meta :=
  match List.find is_meta_export (root_children mdxTree) with
  | None => None
  | Some metaExportNode =>
      match meta_object_expression metaExportNode with
      | None => None
      | Some objectExpression => Some (getObjectFromExpression objectExpression)
      end
  end.

(** The reducer of [splitTreeBy], lines 99-109.
    [lastTree.children.push(node)] changes the last tree of [trees] in
    place. *)
Definition split_step (predicate : Content -> bool) (trees : list Root)
    (node : Content) : list Root :=
  match last trees with
  | Some lastTree =>
      if predicate node then trees ++ [u_root [node]]
      else alter (fun t => u_root (root_children t ++ [node]))
                 (length trees - 1)%nat trees
  | None => trees ++ [u_root [node]]
  end.

(** [splitTreeBy], lines 98-110. *)
Definition splitTreeBy (tree : Root) (predicate : Content -> bool) : list Root :=
  foldl (split_step predicate) [] (root_children tree).

(** What holds of the trees after any number of steps of [splitTreeBy]:
    put end to end they are the nodes seen so far, none is empty, a
    splitting node is nowhere but at the head of a tree, and every tree
    after the first has one at its head. *)
Definition well_split (predicate : Content -> bool) (trees : list Root)
    (seen : list Content) : Prop :=
  concat (map root_children trees) = seen /\
  Forall (fun t => exists n rest, root_children t = n :: rest /\
                                  Forall (fun m => predicate m = false) rest) trees /\
  Forall (fun t => exists h rest, root_children t = h :: rest /\ predicate h = true)
         (tail trees).

Record DocSection : Type := mkSection {
  content : string;
  heading : option string;
  slug : option string
}.

Record ProcessedMdx : Type := mkProcessed {
  checksum : string;
  meta : option Meta;
  sections : list DocSection
}.

Definition is_heading (node : Content) : bool := String.eqb (type node) "heading".

(** The node types removed before segmentation, lines 145-151. *)
Definition mdx_types : list string :=
  ["mdxjsEsm"; "mdxJsxFlowElement"; "mdxJsxTextElement";
   "mdxFlowExpression"; "mdxTextExpression"].

Definition not_mdx (node : Content) : bool :=
  negb (existsb (String.eqb (type node)) mdx_types).

Section Process.

(** The libraries: the hash, the parser (which throws on malformed
    MDX), the tree filter, the serializer, the plain-text rendering and
    the slugger with its memory of the slugs given so far. *)
Variable sha256_base64 : string -> string.
Variable fromMarkdown : string -> option Root.
Variable filter : Root -> (Content -> bool) -> option Root.
Variable toMarkdown : Root -> string.
Variable toString : Content -> string.
Variable Slugger : Type.
Variable new_slugger : Slugger.
Variable slugger_slug : Slugger -> string -> string * Slugger.

(** The [heading] of line 169: the text of the first node of a tree
    when that node is a heading. *)
Definition heading_of (tree : Root) : option string :=
  match root_children tree with
  | firstNode :: _ => if is_heading firstNode then Some (toString firstNode) else None
  | [] => None
  end.

(** [sectionTrees.map(...)], lines 166-177, with the slugger threaded
    through. Reading [type] of the first node of a tree without children
    throws. *)
Fixpoint map_sections (slugger : Slugger) (sectionTrees : list Root)
  : option (list DocSection) :=
  match sectionTrees with
  | [] => Some []
  | tree :: rest =>
      match root_children tree with
      | [] => None
      | _ :: _ =>
          let heading := heading_of tree in
          let '(slug, slugger') :=
            match heading with
            | Some h =>
                if String.eqb h "" then (None, slugger)
                else let '(s, sl) := slugger_slug slugger h in (Some s, sl)
            | None => (None, slugger)
            end in
          match map_sections slugger' rest with
          | Some sections => Some (mkSection (toMarkdown tree) heading slug :: sections)
          | None => None
          end
      end
  end.

(** [processMdxForSearch], lines 131-184. [None] is a thrown exception. *)
Definition processMdxForSearch (content : string) : option ProcessedMdx :=
  let checksum := sha256_base64 content in
  match fromMarkdown content with
  | None => None
  | Some mdxTree =>
      let meta := extractMetaExport mdxTree in
      match filter mdxTree not_mdx with
      | None => Some (mkProcessed checksum meta [])
      | Some mdTree =>
          let sectionTrees := splitTreeBy mdTree is_heading in
          match map_sections new_slugger sectionTrees with
          | Some sections => Some (mkProcessed checksum meta sections)
          | None => None
          end
      end
  end.

End Process.

End Segmenter.

(** ** The page and section store *)

Module Store.
Import Segmenter.

(** An embedding: 1536 floating-point numbers, kept as rationals. *)
Definition vector : Type := list Q.

(** Table [page] of the seed script. *)
Module Page.
Record t : Type := mk {
  id : Z;
  parentPageId : option Z;
  path : string;
  checksum : option string;
  meta : option Meta;
  type : option string;
  source : option string
}.
End Page.

(** Table [page_section]. *)
Module PageSection.
Record t : Type := mk {
  id : Z;
  pageId : Z;
  content : option string;
  tokenCount : option Z;
  embedding : option vector;
  slug : option string;
  heading : option string
}.
End PageSection.

(** The two tables and their [BIGSERIAL] sequences. *)
Record Db : Type := mkDb {
  pages : list Page.t;
  page_sections : list PageSection.t;
  page_id_seq : Z;
  page_section_id_seq : Z
}.

Definition page_has_path (path : string) (p : Page.t) : bool :=
  String.eqb (Page.path p) path.

Definition page_has_id (id : Z) (p : Page.t) : bool := (Page.id p =? id)%Z.

Definition find_page_by_path (path : string) (d : Db) : option Page.t :=
  List.find (page_has_path path) (pages d).

Definition find_page_by_id (id : Z) (d : Db) : option Page.t :=
  List.find (page_has_id id) (pages d).

(** The relation [parentPage] of a row. *)
Definition parent_of (p : Page.t) (d : Db) : option Page.t :=
  match Page.parentPageId p with
  | Some pid => find_page_by_id pid d
  | None => None
  end.

(** A field given as [undefined] in [data] is left as it is. *)
Definition or_keep {A} (new old : option A) : option A :=
  match new with
  | Some v => Some v
  | None => old
  end.

Definition set_parent (id : Z) (parentPageId : option Z) (p : Page.t) : Page.t :=
  if page_has_id id p
  then Page.mk (Page.id p) (or_keep parentPageId (Page.parentPageId p)) (Page.path p)
         (Page.checksum p) (Page.meta p) (Page.type p) (Page.source p)
  else p.

Definition set_checksum (id : Z) (checksum : string) (p : Page.t) : Page.t :=
  if page_has_id id p
  then Page.mk (Page.id p) (Page.parentPageId p) (Page.path p)
         (Some checksum) (Page.meta p) (Page.type p) (Page.source p)
  else p.

(** The [update] branch of the upsert: [checksum: null] and the other
    fields of [data]. *)
Definition reset_page (path type source : string) (meta : option Meta)
    (parentPageId : option Z) (p : Page.t) : Page.t :=
  if page_has_path path p
  then Page.mk (Page.id p) (or_keep parentPageId (Page.parentPageId p)) path
         None (or_keep meta (Page.meta p)) (Some type) (Some source)
  else p.

Definition with_pages (ps : list Page.t) (d : Db) : Db :=
  mkDb ps (page_sections d) (page_id_seq d) (page_section_id_seq d).

Definition with_sections (ss : list PageSection.t) (d : Db) : Db :=
  mkDb (pages d) ss (page_id_seq d) (page_section_id_seq d).

(** [prisma.page.upsert({ where: { path }, update, create })]. *)
Definition upsert_page (path type source : string) (meta : option Meta)
    (parentPageId : option Z) (d : Db) : Page.t * Db :=
  match find_page_by_path path d with
  | Some p =>
      (reset_page path type source meta parentPageId p,
       with_pages (map (reset_page path type source meta parentPageId) (pages d)) d)
  | None =>
      let p := Page.mk (page_id_seq d) parentPageId path None meta
                 (Some type) (Some source) in
      (p, mkDb (pages d ++ [p]) (page_sections d)
               (page_id_seq d + 1) (page_section_id_seq d))
  end.

(** [prisma.pageSection.deleteMany({ where: { pageId } })]. *)
Definition delete_sections (pageId : Z) (d : Db) : Db :=
  with_sections
    (List.filter (fun s => negb (PageSection.pageId s =? pageId)%Z) (page_sections d)) d.

(** [prisma.pageSection.create]: the row has no embedding yet. *)
Definition create_section (pageId : Z) (slug heading : option string)
    (content : string) (tokenCount : Z) (d : Db) : PageSection.t * Db :=
  let s := PageSection.mk (page_section_id_seq d) pageId (Some content)
             (Some tokenCount) None slug heading in
  (s, mkDb (pages d) (page_sections d ++ [s])
           (page_id_seq d) (page_section_id_seq d + 1)).

Definition set_embedding (id : Z) (v : vector) (s : PageSection.t) : PageSection.t :=
  if (PageSection.id s =? id)%Z
  then PageSection.mk (PageSection.id s) (PageSection.pageId s) (PageSection.content s)
         (PageSection.tokenCount s) (Some v) (PageSection.slug s) (PageSection.heading s)
  else s.

(** The constraints of the schema: [id] is the primary key of [page], the
    sequence is ahead of the ids given out, and [page_id] references a
    page. *)
Definition consistent (d : Db) : Prop :=
  NoDup (map Page.id (pages d)) /\
  Forall (fun p => (Page.id p < page_id_seq d)%Z) (pages d) /\
  Forall (fun s => exists p, In p (pages d) /\ Page.id p = PageSection.pageId s)
         (page_sections d).

(** A page with a checksum has an embedding on every one of its
    sections. *)
Definition complete (d : Db) : Prop :=
  Forall (fun p =>
            Page.checksum p <> None ->
            Forall (fun s => PageSection.pageId s = Page.id p ->
                             PageSection.embedding s <> None)
                   (page_sections d))
         (pages d).

Definition valid (d : Db) : Prop := consistent d /\ complete d.

(** What the loop over the sections keeps for the page [pid] it writes
    to: the page is there and no row with its id has a checksum
    ([pending]); between two turns, the sections written for it so far
    have their embeddings ([indexing]). *)
Definition pending (pid : Z) (d : Db) : Prop :=
  consistent d /\ complete d /\
  (exists p, In p (pages d) /\ Page.id p = pid) /\
  Forall (fun p => Page.id p = pid -> Page.checksum p = None) (pages d).

Definition indexing (pid : Z) (d : Db) : Prop :=
  pending pid d /\
  Forall (fun s => PageSection.pageId s = pid -> PageSection.embedding s <> None)
         (page_sections d).

End Store.

(** ** Effects: exceptions over a world that keeps its writes *)

Module Effects.
Import Store.

(** The calls that leave the process: the file system, the store client
    and the embedding provider. Each is recorded when it is attempted. *)
Inductive Call : Type :=
  | ReadFile (filePath : string)
  | PageFindUnique (path : option string)
  | PageUpdateParent (id : Z) (parentPageId : option Z)
  | PageSectionDeleteMany (pageId : Z)
  | PageUpsert (path : string) (checksum : option string)
  | EmbeddingsCreate (input : string)
  | PageSectionCreate (pageId : Z) (content : string)
  | SetEmbedding (id : Z)
  | PageUpdateChecksum (id : Z) (checksum : string)
  | Disconnect
  | QueryRaw.

Inductive Error : Type :=
  | CallFailed (c : Call)
  | NoSuchFile (filePath : string)
  | ParseFailed (filePath : string)
  | RecordNotFound (id : Z)
  | EmptyResponse
  | MissingApiKey
  | WalkFailed
  | ValidationError.

Inductive Outcome (A : Type) : Type :=
  | Return (a : A)
  | Throw (e : Error).
Arguments Return {A} a.
Arguments Throw {A} e.

Record World : Type := mkWorld {
  db : Db;
  clock : nat;
  trace : list Call;
  console : list string
}.

Definition M (A : Type) : Type := World -> Outcome A * World.

Definition ret {A} (a : A) : M A := fun w => (Return a, w).

Definition throw {A} (e : Error) : M A := fun w => (Throw e, w).

Definition bind {A B} (m : M A) (k : A -> M B) : M B :=
  fun w =>
    match m w with
    | (Return a, w') => k a w'
    | (Throw e, w') => (Throw e, w')
    end.

Declare Scope js_scope.
Delimit Scope js_scope with js.
Notation "'let!' x ':=' m 'in' k" := (bind m (fun x => k))
  (at level 10, x pattern, m at level 100, k at level 200) : js_scope.
Notation "'run!' m 'in' k" := (bind m (fun _ => k))
  (at level 10, m at level 100, k at level 200) : js_scope.

(** [try { body } catch (e) { handler(e) }]. *)
Definition try_catch {A} (body : M A) (handler : Error -> M A) : M A :=
  fun w =>
    match body w with
    | (Return a, w') => (Return a, w')
    | (Throw e, w') => handler e w'
    end.

(** [try { ... } finally { fin }]: [fin] runs on both exits, and an
    exception of its own replaces the outcome. *)
Definition finally {A} (body : M A) (fin : M unit) : M A :=
  fun w =>
    let '(r, w1) := body w in
    match fin w1 with
    | (Return _, w2) => (r, w2)
    | (Throw e, w2) => (Throw e, w2)
    end.

(** [for (const x of l) { f(x) }]. *)
Fixpoint for_of {A} (l : list A) (f : A -> M unit) : M unit :=
  match l with
  | [] => ret tt
  | x :: l' => bind (f x) (fun _ => for_of l' f)
  end.

(** [wp m Q w]: running [m] from [w] ends in an outcome and a world that
    satisfy [Q]. *)
Definition wp {A} (m : M A) (Q : Outcome A -> World -> Prop) (w : World) : Prop :=
  Q (fst (m w)) (snd (m w)).

(** The world after a call has been attempted. *)
Definition ticked (w : World) (c : Call) (d : Db) : World :=
  mkWorld d (S (clock w)) (trace w ++ [c]) (console w).

Definition console_log (msg : string) : M unit :=
  fun w => (Return tt, mkWorld (db w) (clock w) (trace w) (console w ++ [msg])).

Definition show_error (e : Error) : string :=
  match e with
  | CallFailed _ => "Error: call failed"
  | NoSuchFile f => "Error: ENOENT: no such file or directory, open '" +:+ f +:+ "'"
  | ParseFailed f => "Error: could not parse " +:+ f
  | RecordNotFound _ => "Error: record to update not found"
  | EmptyResponse => "TypeError: undefined is not an object"
  | MissingApiKey => "Error: process.env.OPENAI_API_KEY is not defined."
  | WalkFailed => "Error: walk failed"
  | ValidationError => "PrismaClientValidationError: Argument `where` needs at least one argument"
  end.

Definition console_error := console_log.

Section Calls.

(** Which attempts fail: the call made at a given tick of the clock
    rejects when [fails] says so, whatever the store holds. *)
Variable fails : nat -> Call -> bool.

Definition call {A} (c : Call) (run : Db -> Outcome A * Db) : M A :=
  fun w =>
    if fails (clock w) c
    then (Throw (CallFailed c), ticked w c (db w))
    else let '(r, d) := run (db w) in (r, ticked w c d).

End Calls.

End Effects.

(** ** The embedding provider *)

Module Provider.
Import Store Effects.
Local Open Scope js_scope.

(** What [openai.embeddings.create] answers: [data] and
    [usage.total_tokens]. *)
Record EmbeddingResponse : Type := mkResponse {
  data : list vector;
  total_tokens : Z
}.

Record Embedding : Type := mkEmbedding {
  vectors : vector;
  tokens : Z
}.

Definition newline : ascii := Ascii.ascii_of_nat 10.

(** [_input.replace(/\n/g, ' ')]. *)
Fixpoint replace_newlines (s : string) : string :=
  match s with
  | EmptyString => EmptyString
  | String a t =>
      String (if Ascii.eqb a newline then " "%char else a) (replace_newlines t)
  end.

Section Generate.
Variable fails : nat -> Call -> bool.
Variable embeddings_create : string -> EmbeddingResponse.

(** [generateEmbedding]. The pattern [[{ embedding }]] throws on an
    empty [data]. *)
Definition generateEmbedding (_input : string) : M Embedding :=
  let input := replace_newlines _input in
  let! embeddingResponse :=
    call fails (EmbeddingsCreate input)
      (fun d => (Return (embeddings_create input), d)) in
  match data embeddingResponse with
  | embedding :: _ => ret (mkEmbedding embedding (total_tokens embeddingResponse))
  | [] => throw EmptyResponse
  end.
End Generate.

End Provider.

(** ** The sync engine *)

Module Indexer.
Import Path Walker Segmenter Store Effects Provider.
Local Open Scope js_scope.

Definition ignoredFiles : list string := [].

(** [BaseEmbeddingSource] with the fields of its one subclass. The
    fields [checksum], [meta] and [sections] that [load] assigns are never
    read again and are left out. *)
Record EmbeddingSource : Type := mkSource {
  type : string;
  source : string;
  path : string;
  parentPath : option string;
  filePath : string;
  parentFilePath : option string
}.

(** The constructor of [MarkdownEmbeddingSource], lines 214-218; an
    empty [parentFilePath] counts as none. *)
Definition MarkdownEmbeddingSource (source filePath : string)
    (parentFilePath : option string) : EmbeddingSource :=
  let path := formatPath filePath in
  let parentPath :=
    match parentFilePath with
    | Some p => if String.eqb p "" then None else Some (formatPath p)
    | None => None
    end in
  mkSource "markdown" source path parentPath filePath parentFilePath.

(** The sources built from the walker's entries, lines 251-256. *)
Definition embeddingSources (entries : list WalkEntry) : list EmbeddingSource :=
  map (fun entry =>
         MarkdownEmbeddingSource "guide" (Walker.path entry) (Walker.parentPath entry))
      (List.filter (fun entry => negb (includes (Walker.path entry) ignoredFiles))
         (List.filter (fun entry => is_markdown_path (Walker.path entry)) entries)).

(** [!shouldRefresh] for the optional flag. *)
Definition not_refresh (shouldRefresh : option bool) : bool :=
  match shouldRefresh with
  | Some true => false
  | _ => true
  end.

Definition show_option (o : option string) : string :=
  match o with
  | Some s => s
  | None => "undefined"
  end.

(** [heading ? `${heading} ${content}` : content], line 331. *)
Definition concattedContent (s : DocSection) : string :=
  match heading s with
  | Some h => if String.eqb h "" then content s else h +:+ " " +:+ content s
  | None => content s
  end.

(** The calls made for the sections of a page when none fails, the first
    new row taking the id [next_id]. *)
Fixpoint section_calls (pageId next_id : Z) (sections : list DocSection) : list Call :=
  match sections with
  | [] => []
  | s :: rest =>
      EmbeddingsCreate (replace_newlines (concattedContent s))
      :: PageSectionCreate pageId (content s)
      :: SetEmbedding next_id
      :: section_calls pageId (next_id + 1) rest
  end.

(** The calls that write the [checksum] column. *)
Definition writes_checksum (c : Call) : bool :=
  match c with
  | PageUpsert _ _ | PageUpdateChecksum _ _ => true
  | _ => false
  end.

(** The calls that write to the sections or ask the provider. *)
Definition section_work (c : Call) : bool :=
  match c with
  | PageSectionDeleteMany _ | PageSectionCreate _ _ | SetEmbedding _
  | EmbeddingsCreate _ => true
  | _ => false
  end.

(** What the calls [t] of one document look like as far as the checksum
    goes: an upsert writes none, and an update of the checksum comes last,
    after the calls of all the sections, which come after the upsert. *)
Definition checksum_last (path : string) (processed : ProcessedMdx)
    (next_id : Z) (t : list Call) : Prop :=
  (forall p c, In (PageUpsert p c) t -> c = None) /\
  (forall i c, In (PageUpdateChecksum i c) t ->
     exists pre,
       t = pre ++ PageUpsert path None
               :: section_calls i next_id (sections processed)
               ++ [PageUpdateChecksum i c] /\
       c = checksum processed /\
       Forall (fun c => writes_checksum c = false) pre).

Section Engine.

Variable fails : nat -> Call -> bool.
Variable readFile : string -> option string.
Variable processMdxForSearch : string -> option ProcessedMdx.
Variable embeddings_create : string -> EmbeddingResponse.

(** [MarkdownEmbeddingSource.load], lines 220-234. *)
Definition load (es : EmbeddingSource) : M ProcessedMdx :=
  let! contents :=
    call fails (ReadFile (filePath es))
      (fun d => (match readFile (filePath es) with
                 | Some c => Return c
                 | None => Throw (NoSuchFile (filePath es))
                 end, d)) in
  match processMdxForSearch contents with
  | Some processed => ret processed
  | None => throw (ParseFailed (filePath es))
  end.

(** [prisma.page.findUnique({ where: { path } })]. With an undefined
    path the [where] has no argument, and the client throws. *)
Definition page_findUnique (path : option string) : M (option Page.t) :=
  call fails (PageFindUnique path)
    (fun d => (match path with
               | Some p => Return (find_page_by_path p d)
               | None => Throw ValidationError
               end, d)).

(** The same with [select: { ..., parentPage: true }]: the row and the
    row its parent link points to. *)
Definition page_findUnique_with_parent (path : string)
  : M (option (Page.t * option Page.t)) :=
  call fails (PageFindUnique (Some path))
    (fun d => (Return (match find_page_by_path path d with
                       | Some p => Some (p, parent_of p d)
                       | None => None
                       end), d)).

(** [prisma.page.update({ where: { id }, data: { parentPageId } })];
    it rejects when no row has the id. *)
Definition page_update_parent (id : Z) (parentPageId : option Z) : M unit :=
  call fails (PageUpdateParent id parentPageId)
    (fun d => match find_page_by_id id d with
              | Some _ => (Return tt, with_pages (map (set_parent id parentPageId) (pages d)) d)
              | None => (Throw (RecordNotFound id), d)
              end).

Definition pageSection_deleteMany (pageId : Z) : M unit :=
  call fails (PageSectionDeleteMany pageId)
    (fun d => (Return tt, delete_sections pageId d)).

Definition page_upsert (path type source : string) (meta : option Meta)
    (parentPageId : option Z) : M Page.t :=
  call fails (PageUpsert path None)
    (fun d => let '(p, d') := upsert_page path type source meta parentPageId d in
              (Return p, d')).

Definition pageSection_create (pageId : Z) (slug heading : option string)
    (content : string) (tokenCount : Z) : M PageSection.t :=
  call fails (PageSectionCreate pageId content)
    (fun d => let '(s, d') := create_section pageId slug heading content tokenCount d in
              (Return s, d')).

(** [UPDATE page_section SET embedding = ... WHERE id = ...]. *)
Definition executeRaw_set_embedding (id : Z) (v : vector) : M unit :=
  call fails (SetEmbedding id)
    (fun d => (Return tt, with_sections (map (set_embedding id v) (page_sections d)) d)).

Definition page_update_checksum (id : Z) (checksum : string) : M unit :=
  call fails (PageUpdateChecksum id checksum)
    (fun d => match find_page_by_id id d with
              | Some _ => (Return tt, with_pages (map (set_checksum id checksum) (pages d)) d)
              | None => (Throw (RecordNotFound id), d)
              end).

Definition disconnect : M unit :=
  call fails Disconnect (fun d => (Return tt, d)).

(** The body of the loop over the sections, lines 329-358. *)
Definition store_section (path : string) (page : Page.t) (s : DocSection) : M unit :=
  try_catch
    (let! embedding := generateEmbedding fails embeddings_create (concattedContent s) in
     let! pageSection :=
       pageSection_create (Page.id page) (slug s) (heading s) (content s)
         (tokens embedding) in
     executeRaw_set_embedding (PageSection.id pageSection) (vectors embedding))
    (fun err =>
       run! console_error
         ("Failed to generate embeddings for '" +:+ path +:+
          "' page section starting with '" +:+
          String.substring 0 40 (content s) +:+ "...'") in
       throw err).

(** The part of the [try] block after the skip test, lines 296-365. *)
Definition reindex (es : EmbeddingSource) (processed : ProcessedMdx)
    (existingPage : option (Page.t * option Page.t)) : M unit :=
  run! match existingPage with
       | Some (existing, _) =>
           run! console_log
             ("[" +:+ path es +:+
              "] Refresh flag set, removing old page sections and their embeddings") in
           pageSection_deleteMany (Page.id existing)
       | None => ret tt
       end in
  let! parentPage := page_findUnique (parentPath es) in
  let! page :=
    page_upsert (path es) (type es) (source es) (meta processed)
      (option_map Page.id parentPage) in
  run! console_log
    ("[" +:+ path es +:+ "] Adding " +:+ pretty (length (sections processed)) +:+
     " page sections (with embeddings)") in
  run! for_of (sections processed) (store_section (path es) page) in
  page_update_checksum (Page.id page) (checksum processed).

(** The [try] block, lines 270-365. [continue] ends it. *)
Definition try_block (shouldRefresh : option bool) (es : EmbeddingSource) : M unit :=
  let! processed := load es in
  let! existingPage := page_findUnique_with_parent (path es) in
  match existingPage with
  | Some (existing, existingParent) =>
      if not_refresh shouldRefresh &&
         bool_decide (Page.checksum existing = Some (checksum processed))
      then
        if bool_decide (option_map Page.path existingParent = parentPath es)
        then ret tt
        else
          run! console_log
            ("[" +:+ path es +:+ "] Parent page has changed. Updating to '" +:+
             show_option (parentPath es) +:+ "'...") in
          let! parentPage := page_findUnique (parentPath es) in
          page_update_parent (Page.id existing) (option_map Page.id parentPage)
      else reindex es processed existingPage
  | None => reindex es processed existingPage
  end.

(** One turn of the loop over the sources, lines 266-374. *)
Definition index_source (shouldRefresh : option bool) (es : EmbeddingSource) : M unit :=
  finally
    (try_catch (try_block shouldRefresh es)
       (fun error =>
          run! console_error
            ("Page '" +:+ path es +:+
             "' or one/multiple of its page sections failed to store properly. Page has been marked with null checksum to indicate that it needs to be re-generated.") in
          console_error (show_error error)))
    disconnect.

Section Discovery.
Variable join : string -> string -> string.
Variable localeCompare : string -> string -> Z.

(** [indexFiles], lines 239-377, given the flag, the API key of the
    environment and what the file system holds at [docs]. *)
Definition indexFiles (argv_refresh : option bool) (OPENAI_API_KEY : option string)
    (docs : fsnode) : M unit :=
  let shouldRefresh := argv_refresh in
  match OPENAI_API_KEY with
  | None | Some "" => throw MissingApiKey
  | Some _ =>
      match walk join localeCompare docs "docs" None with
      | None => throw WalkFailed
      | Some entries =>
          let sources := embeddingSources entries in
          run! console_log ("Discovered " +:+ pretty (length sources) +:+ " pages") in
          run! (if not_refresh shouldRefresh
                then console_log "Checking which pages are new or have changed"
                else console_log "Refresh flag set, re-generating all pages") in
          run! for_of sources (index_source shouldRefresh) in
          console_log "Embedding generation complete"
      end
  end.
End Discovery.

End Engine.

End Indexer.

(** ** The query route *)

Module Query.
Import Store Effects Provider.
Local Open Scope js_scope.

(** A row of the [SELECT]. *)
Record Row : Type := mkRow {
  id : Z;
  page_id : Z;
  heading : option string;
  content : option string;
  similarity : Q;
  path : string
}.

Inductive Body : Type :=
  | ErrorBody (error : string)
  | Rows (context : list Row).

(** [NextResponse.json(body, { status })]; the status is 200 when none is
    given. The object [{ ...context }] has the rows under their indices
    and is kept as the list. *)
Record Response : Type := json {
  body : Body;
  status : Z
}.

Section Route.

Variable fails : nat -> Call -> bool.
Variable embeddings_create : string -> EmbeddingResponse.

(** The operator [<=>] of the store. *)
Variable cosine_distance : vector -> vector -> Q.

(** [page_section AS ps JOIN page AS p ON ps.page_id = p.id]. *)
Definition joined (d : Db) : list (PageSection.t * Page.t) :=
  flat_map
    (fun ps => map (pair ps) (List.filter (page_has_id (PageSection.pageId ps)) (pages d)))
    (page_sections d).

(** The select list and the [WHERE] clause on one joined row. A [NULL]
    embedding or content makes the condition [NULL] and the row is not
    selected. *)
Definition select_row (v : vector) (r : PageSection.t * Page.t) : option Row :=
  let '(ps, p) := r in
  match PageSection.embedding ps, PageSection.content ps with
  | Some e, Some c =>
      let similarity := (1 - cosine_distance e v)%Q in
      if negb (Qle_bool similarity (1 # 2)) && (50 <? String.length c)%nat
      then Some (mkRow (PageSection.id ps) (PageSection.pageId ps)
                   (PageSection.heading ps) (Some c) similarity (Page.path p))
      else None
  | _, _ => None
  end.

(** [ORDER BY similarity DESC]. *)
Definition by_similarity_desc (a b : Row) : bool :=
  Qle_bool (similarity b) (similarity a).

(** The whole query, lines 20-34. *)
Definition similar_sections (v : vector) (d : Db) : list Row :=
  take 15 (sort_by by_similarity_desc (omap (select_row v) (joined d))).

Definition queryRaw (v : vector) : M (list Row) :=
  call fails QueryRaw (fun d => (Return (similar_sections v d), d)).

(** [GET], lines 13-43, on the value of the [query] parameter. *)
Definition GET (query : option string) : M Response :=
  try_catch
    (match query with
     | None | Some "" => ret (json (ErrorBody "No query provided") 400)
     | Some q =>
         let! embedding := generateEmbedding fails embeddings_create q in
         let! context := queryRaw (vectors embedding) in
         ret (json (Rows context) 200)
     end)
    (fun error =>
       run! console_error (show_error error) in
       ret (json (ErrorBody "Something went wrong") 500)).

End Route.

End Query.

(** ** Sample documents and stand-ins for the libraries

    Used where a statement is run on a concrete input. *)

Module Samples.
Import Estree Mdast Segmenter Walker.

Definition text (value : string) : Content :=
  mkNode "text" None (Some value) None.

Definition heading_node (value : string) : Content :=
  mkNode "heading" None None (Some [text value]).

Definition paragraph (value : string) : Content :=
  mkNode "paragraph" None None (Some [text value]).

(** [export const meta = <init>]. *)
Definition export_meta (init : option Expression) : Content :=
  mkNode "mdxjsEsm"
    (Some {| body := [ExportNamedDeclaration
                        (Some (VariableDeclaration
                                 [{| id := IdentifierPattern "meta"; init := init |}]))] |})
    (Some "export const meta = ...") None.

(** [{ title: 'Routing', draft: false, order: 0, tags: [...] }]. *)
Definition sample_meta_properties : list ObjectMember :=
  [Property (Identifier "title") (Literal (VString "Routing"));
   Property (Identifier "draft") (Literal (VBoolean false));
   Property (Identifier "order") (Literal (VNumber 0));
   Property (Identifier "tags") (OtherExpression "ArrayExpression")].

(** A document with a metadata export, a preamble and two headings. *)
Definition sample_mdx_tree : Root :=
  u_root [export_meta (Some (ObjectExpression sample_meta_properties));
          paragraph "Welcome.";
          heading_node "Install";
          paragraph "Run the installer.";
          heading_node "Use";
          paragraph "Ask a question."].

(** A document made of a metadata export alone. *)
Definition sample_mdx_only_tree : Root :=
  u_root [export_meta (Some (ObjectExpression sample_meta_properties))].

(** Two exports of [meta]; only the second is an object. *)
Definition sample_two_exports : Root :=
  u_root [export_meta (Some (OtherExpression "CallExpression"));
          export_meta (Some (ObjectExpression sample_meta_properties))].

Definition sample_fromMarkdown (content : string) : option Root :=
  if String.eqb content "guide" then Some sample_mdx_tree
  else if String.eqb content "only mdx" then Some sample_mdx_only_tree
  else None.

(** Plain text of a node: its value, or that of its children. *)
Fixpoint sample_toString (n : Content) : string :=
  match value n with
  | Some v => v
  | None =>
      match children n with
      | Some cs => foldr (fun c acc => sample_toString c +:+ acc) "" cs
      | None => ""
      end
  end.

Definition sample_toMarkdown (tree : Root) : string :=
  foldr (fun n acc =>
           (if is_heading n then "# " else "") +:+ sample_toString n +:+
           String (Ascii.ascii_of_nat 10) acc)
        "" (root_children tree).

(** A slugger that remembers the headings it has seen. *)
Definition sample_slug (seen : list string) (h : string) : string * list string :=
  let n := length (List.filter (String.eqb h) seen) in
  (if (n =? 0)%nat then h else h +:+ "-" +:+ pretty n, h :: seen).

Definition sample_sha256 (content : string) : string := "sha256:" +:+ content.

Definition sample_processMdxForSearch : string -> option ProcessedMdx :=
  processMdxForSearch sample_sha256 sample_fromMarkdown unist_util_filter
    sample_toMarkdown sample_toString (list string) [] sample_slug.

(** A [docs] directory with an index and an ordinary page. *)
Definition sample_docs : fsnode :=
  Dir [("index.mdx", File); ("intro.mdx", File)].

Definition sample_localeCompare (a b : string) : Z :=
  match String.compare a b with
  | Lt => (-1)%Z
  | Eq => 0%Z
  | Gt => 1%Z
  end.

End Samples.

Module EngineSamples.
Import Segmenter Store Effects Provider Indexer Samples.

(** An empty store whose sequences start at 1. *)
Definition sample_world : World := mkWorld (mkDb [] [] 1 1) 0 [] [].

(** Three files: a page, an index made of MDX only, and a file the
    parser rejects. *)
Definition sample_readFile (filePath : string) : option string :=
  if String.eqb filePath "docs/intro.mdx" then Some "guide"
  else if String.eqb filePath "docs/index.mdx" then Some "only mdx"
  else if String.eqb filePath "docs/broken.mdx" then Some "<Tabs"
  else None.

Definition sample_embeddings_create (input : string) : EmbeddingResponse :=
  mkResponse [[1; 0]%Q] (Z.of_nat (String.length input)).

Definition no_failures (n : nat) (c : Call) : bool := false.

(** The eighth call of a run fails: on an empty store and for the
    sample page it is the request for the second embedding. *)
Definition eighth_call_fails (n : nat) (c : Call) : bool := (n =? 7)%nat.

Definition sample_intro : EmbeddingSource :=
  MarkdownEmbeddingSource "guide" "docs/intro.mdx" (Some "docs/index.mdx").

Definition sample_index : EmbeddingSource :=
  MarkdownEmbeddingSource "guide" "docs/index.mdx" (Some "docs/index.mdx").

Definition sample_broken : EmbeddingSource :=
  MarkdownEmbeddingSource "guide" "docs/broken.mdx" None.

(** A store in which the page of [docs/broken.mdx] was indexed by an
    earlier run. *)
Definition indexed_world : World :=
  mkWorld
    (mkDb [Page.mk 1 None "docs/broken" (Some "sha256:old") None
             (Some "markdown") (Some "guide")]
          [PageSection.mk 1 1 (Some "# Old") (Some 2%Z) (Some [1; 0]%Q) None (Some "Old")]
          2 2)
    0 [] [].

Definition sample_index_source :=
  index_source no_failures sample_readFile sample_processMdxForSearch
    sample_embeddings_create.

(** The store after a first run over the index and the page. *)
Definition indexed_once : World :=
  snd (for_of [sample_index; sample_intro] (sample_index_source None) sample_world).

End EngineSamples.

Module QuerySamples.
Import Store Effects Provider Query.

(** One minus the scalar product: the cosine distance on vectors of
    norm 1. *)
Fixpoint scalar_product (a b : vector) : Q :=
  match a, b with
  | x :: a', y :: b' => (x * y + scalar_product a' b')%Q
  | _, _ => 0%Q
  end.

Definition sample_cosine_distance (a b : vector) : Q := (1 - scalar_product a b)%Q.

Definition long_text : string :=
  "Parallel routes render several pages in the same layout at once.".

(** A page with four sections: close to the query, closer still, close
    but short, and far. *)
Definition sample_db : Db :=
  mkDb [Page.mk 1 None "docs/routing" (Some "sha256:routing") None
          (Some "markdown") (Some "guide")]
       [PageSection.mk 1 1 (Some long_text) (Some 12%Z) (Some [3 # 5; 4 # 5]%Q)
          None None;
        PageSection.mk 2 1 (Some long_text) (Some 12%Z) (Some [4 # 5; 3 # 5]%Q)
          None None;
        PageSection.mk 3 1 (Some "Too short.") (Some 2%Z) (Some [1; 0]%Q) None None;
        PageSection.mk 4 1 (Some long_text) (Some 12%Z) (Some [5 # 13; 12 # 13]%Q)
          None None]
       2 5.

Definition sample_query_vector : vector := [1; 0]%Q.

End QuerySamples.

(** ** Notions used by the further properties *)

Module Chars.

(** Every character of a string passes a test. *)
Fixpoint all_chars (f : ascii -> bool) (s : string) : bool :=
  match s with
  | EmptyString => true
  | String a t => f a && all_chars f t
  end.

(** Neither a backslash nor a dash: what none of the patterns of
    [formatPath] but the extension can match. *)
Definition plain_char (c : ascii) : bool :=
  negb (Path.is_backslash c) && negb (Path.is_dash c).

End Chars.

Module Numbered.

(** A path written as pieces, each followed by an ordering prefix
    [NN-], and a last piece: [docs/] [01-] [intro/] [02-] [setup]. *)
Fixpoint numbered (pieces : list (string * (ascii * ascii))) (rest : string) : string :=
  match pieces with
  | [] => rest
  | (piece, (d1, d2)) :: more =>
      piece +:+ String d1 (String d2 (String "-"%char (numbered more rest)))
  end.

(** The pieces without the prefixes. *)
Fixpoint unnumbered (pieces : list (string * (ascii * ascii))) (rest : string) : string :=
  match pieces with
  | [] => rest
  | (piece, _) :: more => piece +:+ unnumbered more rest
  end.

(** A piece without backslashes and dashes, followed by two digits. *)
Definition plain_piece (p : string * (ascii * ascii)) : bool :=
  Chars.all_chars Chars.plain_char (fst p) &&
  Path.is_digit (fst (snd p)) && Path.is_digit (snd (snd p)).

End Numbered.

Module WalkerSpec.
Import Walker.

(** No entry below [n] has a [stat] that rejects. *)
Fixpoint no_broken (n : fsnode) : bool :=
  match n with
  | Dir entries => forallb (fun '(_, child) => no_broken child) entries
  | Broken => false
  | _ => true
  end.

(** The number of regular files below [n]. *)
Fixpoint count_files (n : fsnode) : nat :=
  match n with
  | Dir entries => list_sum (map (fun '(_, child) => count_files child) entries)
  | File => 1
  | _ => 0
  end.

Section Visit.
Variable join : string -> string -> string.
Variable localeCompare : string -> string -> Z.

(** The parent [walk] hands down from a directory, lines 89-92: its own
    [index.mdx] when it has one. *)
Definition index_or (dir : string) (parent : option string)
    (entries : list (string * fsnode)) : option string :=
  if includes "index.mdx" (map fst entries)
  then Some (join dir "index.mdx")
  else parent.

(** What [walk] does with one entry of a directory, lines 96-109. *)
Definition visit (dir : string) (parent : option string) (entry : string * fsnode)
  : option (list WalkEntry) :=
  let '(file, child) := entry in
  match child with
  | Dir _ => walk join localeCompare child (join dir file) parent
  | File => Some [mkEntry (join dir file) parent]
  | Special => Some []
  | Broken => None
  end.
End Visit.

(** A directory holds an entry named [index.mdx], line 90. *)
Definition has_index (entries : list (string * fsnode)) : bool :=
  includes "index.mdx" (map fst entries).

(** [way n ds chs name]: the directories named [ds], the first in the
    directory [n] and each of the others in the one before, lead to a
    regular file named [name]; [chs] is what the directories on the way
    hold, that of [n] first. *)
Inductive way : fsnode -> list string -> list (list (string * fsnode)) -> string -> Prop :=
  | way_file (es : list (string * fsnode)) (name : string) :
      In (name, File) es -> way (Dir es) [] [es] name
  | way_dir (es : list (string * fsnode)) (d : string) (child : fsnode)
      (ds : list string) (chs : list (list (string * fsnode))) (name : string) :
      In (d, child) es -> way child ds chs name ->
      way (Dir es) (d :: ds) (es :: chs) name.

(** A name as [readdir] gives it: not empty, not [.] or [..], and
    without a slash. *)
Definition proper_name (f : string) : bool :=
  negb (String.eqb f "") && negb (String.eqb f ".") && negb (String.eqb f "..") &&
  Chars.all_chars (fun c => negb (Ascii.eqb c "/")) f.

(** In every directory below [n] the names are proper. *)
Fixpoint proper_tree (n : fsnode) : bool :=
  match n with
  | Dir entries =>
      forallb proper_name (map fst entries) &&
      forallb (fun '(_, child) => proper_tree child) entries
  | _ => true
  end.

(** No ordering prefix [NN-] anywhere in a string, and no backslash:
    nothing for the first three patterns of [formatPath] to match. *)
Fixpoint no_ordering_prefix (s : string) : bool :=
  match s with
  | EmptyString => true
  | String a t =>
      match t with
      | String b (String c _) =>
          negb (Path.is_digit a && Path.is_digit b && Path.is_dash c)
      | _ => true
      end && no_ordering_prefix t
  end.

Definition unmarked (s : string) : bool :=
  Chars.all_chars (fun c => negb (Path.is_backslash c)) s && no_ordering_prefix s.

Section Along.
Variable join : string -> string -> string.

(** The path [join] builds from [dir] through the names [names]. *)
Definition along (dir : string) (names : list string) : string :=
  foldl join dir names.

(** [p] is the parent of a file reached from [dir] on the way [ds],
    [chs]: the [index.mdx] of the last directory on the way that holds
    an entry of that name, or [parent] when none does. *)
Definition nearest_index (dir : string) (parent : option string) (ds : list string)
    (chs : list (list (string * fsnode))) (p : option string) : Prop :=
  (Forall (fun es => has_index es = false) chs /\ p = parent) \/
  (exists k es,
     chs !! k = Some es /\ has_index es = true /\
     (forall k' es', (k < k')%nat -> chs !! k' = Some es' -> has_index es' = false) /\
     p = Some (join (along dir (take k ds)) "index.mdx")).

End Along.

(** [path.join] where it has nothing to normalise, on POSIX: a relative
    path made of names, and a name. *)
Definition posix_join (dir file : string) : string := dir +:+ "/" +:+ file.

(** A comparator that orders strings by their length. *)
Definition compare_lengths (a b : string) : Z :=
  (Z.of_nat (String.length a) - Z.of_nat (String.length b))%Z.

(** A tree with a nested directory that has an index of its own. *)
Definition nested_docs : fsnode :=
  Dir [("index.mdx", File);
       ("intro.mdx", File);
       ("guide", Dir [("index.mdx", File); ("routing.mdx", File); ("notes.txt", File)]);
       ("assets", Dir [("logo.png", File); ("socket", Special)])].

End WalkerSpec.

Module SluggerSpec.

(** A string of [n] dashes. *)
Fixpoint dashes (n : nat) : string :=
  match n with
  | O => EmptyString
  | S n' => String "-"%char (dashes n')
  end.

(** A slugger that never gives the same slug twice: it remembers the
    slugs it gave and makes the next one longer than all of them. *)
Definition padded_slug (given : list string) (h : string) : string * list string :=
  let s := h +:+ dashes (S (list_max (map String.length given))) in
  (s, s :: given).

End SluggerSpec.

Module IndexerSpec.
Import Segmenter Store Effects Provider Indexer.

(** The ids of the section rows are behind their sequence. *)
Definition keyed (d : Db) : Prop :=
  Forall (fun s => (PageSection.id s < page_section_id_seq d)%Z) (page_sections d).

(** The section rows of a page. *)
Definition of_page (pageId : Z) (s : PageSection.t) : bool :=
  (PageSection.pageId s =? pageId)%Z.

Section Rows.
Variable embeddings_create : string -> EmbeddingResponse.

(** The rows of [page_section] written for the sections of a page when
    no call fails, the first taking the id [next_id]. *)
Fixpoint section_rows (pageId next_id : Z) (sections : list DocSection)
  : list PageSection.t :=
  match sections with
  | [] => []
  | s :: rest =>
      let response := embeddings_create (replace_newlines (concattedContent s)) in
      PageSection.mk next_id pageId (Some (content s)) (Some (total_tokens response))
        (head (data response)) (slug s) (heading s)
      :: section_rows pageId (next_id + 1) rest
  end.

End Rows.

Section Stored.
Variable embeddings_create : string -> EmbeddingResponse.

(** What the store [d'] holds of the document [es] once it was indexed
    from the store [d] without a failure: its page [p], with the fresh
    checksum, linked to the page of [parent] when [d] has one, and one
    row for each section; the rows of the other pages are those of [d]. *)
Definition stored (es : EmbeddingSource) (processed : ProcessedMdx) (parent : string)
    (d d' : Db) (p : Page.t) : Prop :=
  find_page_by_path (path es) d' = Some p /\
  Page.checksum p = Some (checksum processed) /\
  Page.type p = Some (type es) /\
  Page.source p = Some (source es) /\
  Page.id p = match find_page_by_path (path es) d with
              | Some existing => Page.id existing
              | None => page_id_seq d
              end /\
  Page.parentPageId p
  = match find_page_by_path parent d, find_page_by_path (path es) d with
    | Some q, _ => Some (Page.id q)
    | None, Some existing => Page.parentPageId existing
    | None, None => None
    end /\
  List.filter (of_page (Page.id p)) (page_sections d')
  = section_rows embeddings_create (Page.id p) (page_section_id_seq d)
      (sections processed) /\
  Forall (fun r => PageSection.embedding r <> None)
         (List.filter (of_page (Page.id p)) (page_sections d')) /\
  List.filter (fun s => negb (of_page (Page.id p) s)) (page_sections d')
  = List.filter (fun s => negb (of_page (Page.id p) s)) (page_sections d).

End Stored.

(** The calls of the [try] block for a document that is indexed from the
    store [d] without a failure, [pid] being the id of its page. *)
Definition indexing_calls (es : EmbeddingSource) (processed : ProcessedMdx)
    (parent : string) (d : Db) (pid : Z) : list Call :=
  [ReadFile (filePath es); PageFindUnique (Some (path es))]
  ++ match find_page_by_path (path es) d with
     | Some existing => [PageSectionDeleteMany (Page.id existing)]
     | None => []
     end
  ++ [PageFindUnique (Some parent); PageUpsert (path es) None]
  ++ section_calls pid (page_section_id_seq d) (sections processed)
  ++ [PageUpdateChecksum pid (checksum processed)].

(** The pages of [d] with another path than [pth] are in [d'] as they
    are in [d], each with the same section rows. *)
Definition same_elsewhere (pth : string) (d d' : Db) : Prop :=
  forall q, In q (pages d) -> Page.path q <> pth ->
    In q (pages d') /\
    List.filter (of_page (Page.id q)) (page_sections d')
    = List.filter (of_page (Page.id q)) (page_sections d).

(** The id [pid] belongs to the page of the path [pth], if to any. *)
Definition owns (pth : string) (pid : Z) (d : Db) : Prop :=
  forall q, In q (pages d) -> Page.id q = pid -> Page.path q = pth.

(** What holds of the store while the page [pid] of the path [pth] is
    written to, [d0] being the store when the turn began. *)
Definition writing (pth : string) (pid : Z) (d0 d : Db) : Prop :=
  keyed d /\ owns pth pid d /\ same_elsewhere pth d0 d.

Definition is_delete (c : Call) : bool :=
  match c with
  | PageSectionDeleteMany _ => true
  | _ => false
  end.

(** The calls [t] of a turn in which the old sections of the page were
    deleted and which stopped at the lookup of the parent or at the
    upsert that follows it, lines 298 to 305. *)
Definition stopped_after_delete (t : list Call) : bool :=
  existsb is_delete t &&
  match last t with
  | Some (PageFindUnique _) | Some (PageUpsert _ _) => true
  | _ => false
  end.

(** What a failure leaves: the store as it was, or the page of the
    document with a null checksum; a failure between the deletion of the
    old sections and the upsert is not spoken of. *)
Definition left_by_failure (es : EmbeddingSource) (w0 : World)
    (o : Outcome unit) (w' : World) : Prop :=
  forall e, o = Throw e ->
    exists t,
      trace w' = trace w0 ++ t /\
      (stopped_after_delete t = false ->
       db w' = db w0 \/
       exists p, find_page_by_path (path es) (db w') = Some p /\ Page.checksum p = None).

(** The calls of the loop itself; the others are made to the store and
    to the provider inside the [try] block. *)
Definition outer_call (c : Call) : bool :=
  match c with
  | ReadFile _ | Disconnect => true
  | _ => false
  end.

(** [w] comes from [w0] by calls to the store and to the provider and by
    lines on the console. *)
Definition extends (w0 w : World) : Prop :=
  (exists t, trace w = trace w0 ++ t /\ Forall (fun c => outer_call c = false) t) /\
  (exists l, console w = console w0 ++ l).

(** A directory with two pages and a file that is not one. *)
Definition two_pages : Walker.fsnode :=
  Walker.Dir [("index.mdx", Walker.File); ("intro.mdx", Walker.File);
              ("logo.png", Walker.File)].

End IndexerSpec.

(** ** The seed script *)

Module Seed.

(** What the statements of the script read and write in the database:
    the extensions that can be installed, those that are, and the tables. *)
Record Catalog : Type := mkCatalog {
  available : list string;
  extensions : list string;
  tables : list string
}.

(** The three statements of the script. *)
Inductive Statement : Type :=
  | CreateExtension (name : string)
  | CreateTableIfNotExists (name : string) (needs_tables needs_extensions : list string).

(** Lines 12-14, 17-27 and 30-40. The table [page] references itself
    only; [page_section] references [page] and has a column of the type
    [VECTOR] of the extension. *)
Definition create_extension_vector : Statement := CreateExtension "vector".

Definition create_table_page : Statement := CreateTableIfNotExists "page" [] [].

Definition create_table_page_section : Statement :=
  CreateTableIfNotExists "page_section" ["page"] ["vector"].

Inductive SqlError : Type :=
  | Refused
  | AlreadyExists (name : string)
  | NotAvailable (name : string)
  | Undefined (name : string).

Definition has (name : string) (names : list string) : bool :=
  existsb (String.eqb name) names.

Section Script.

(** The statements the server or the connection refuses whatever the
    catalog holds, and whether closing the pool is. *)
Variable refused : Statement -> bool.
Variable end_refused : bool.

(** [sql.query]. [CREATE EXTENSION] without [IF NOT EXISTS] is an error
    when the extension is installed; [CREATE TABLE IF NOT EXISTS] leaves
    a table that exists as it is. *)
Definition sql_query (s : Statement) (c : Catalog) : SqlError + Catalog :=
  if refused s then inl Refused
  else match s with
       | CreateExtension name =>
           if has name (extensions c) then inl (AlreadyExists name)
           else if has name (available c)
                then inr (mkCatalog (available c) (extensions c ++ [name]) (tables c))
                else inl (NotAvailable name)
       | CreateTableIfNotExists name needs_tables needs_extensions =>
           if has name (tables c) then inr c
           else match List.find (fun t => negb (has t (tables c))) needs_tables,
                      List.find (fun e => negb (has e (extensions c))) needs_extensions with
                | Some t, _ => inl (Undefined t)
                | None, Some e => inl (Undefined e)
                | None, None =>
                    inr (mkCatalog (available c) (extensions c) (tables c ++ [name]))
                end
       end.

(** How the process ends: the script runs to its end, [process.exit]
    is called, or a promise is rejected and nothing handles it. *)
Inductive Exit : Type :=
  | Completed
  | Exited (code : Z)
  | Unhandled.

Record Run : Type := mkRun {
  console : list string;
  catalog : Catalog;
  exit : Exit;
  pool_ended : bool
}.

Definition show_error (e : SqlError) : string :=
  match e with
  | Refused => "error: the statement was refused"
  | AlreadyExists name => "error: extension " +:+ name +:+ " already exists"
  | NotAvailable name => "error: extension " +:+ name +:+ " is not available"
  | Undefined name => "error: " +:+ name +:+ " does not exist"
  end.

(** The [catch] block, lines 44-46: [process.exit] ends the process
    there, and the [finally] block does not run. *)
Definition caught (console : list string) (c : Catalog) (error : SqlError) : Run :=
  mkRun (console ++ [show_error error]) c (Exited 1) false.

(** The [finally] block, lines 47-49. *)
Definition sql_end (console : list string) (c : Catalog) : Run :=
  if end_refused then mkRun console c Unhandled false
  else mkRun console c Completed true.

(** [seed], lines 8-50. *)
Definition seed (c : Catalog) : Run :=
  let console := ["------------- Seeding -------------"] in
  match sql_query create_extension_vector c with
  | inl error => caught console c error
  | inr c1 =>
      let console := console ++ ["Created extension 'vector'"] in
      match sql_query create_table_page c1 with
      | inl error => caught console c1 error
      | inr c2 =>
          let console := console ++ ["Created table 'page'"] in
          match sql_query create_table_page_section c2 with
          | inl error => caught console c2 error
          | inr c3 =>
              let console := console ++ ["Created table 'page_section'"] in
              let console := console ++ ["------------- Seeding Complete -------------"] in
              sql_end console c3
          end
      end
  end.

End Script.

(** A server that has the extension and nothing installed yet. *)
Definition fresh_catalog : Catalog := mkCatalog ["vector"] [] [].

Definition nothing_refused (s : Statement) : bool := false.

End Seed.

(** ** Facts about sorting *)

Section SortByFacts.
Context {A : Type} (le : A -> A -> bool).

Lemma insert_by_Permutation (e : A) (l : list A) : insert_by le e l ≡ₚ e :: l.
Proof.
  induction l as [|x l IH]; simpl; [done|].
  destruct (le e x); [done|].
  rewrite IH. apply Permutation_swap.
Qed.

Lemma sort_by_Permutation (l : list A) : sort_by le l ≡ₚ l.
Proof.
  induction l as [|x l IH]; simpl; [done|].
  unfold sort_by in *. simpl. rewrite insert_by_Permutation. by rewrite IH.
Qed.

Lemma elem_of_sort_by (x : A) (l : list A) : x ∈ sort_by le l ↔ x ∈ l.
Proof. by rewrite sort_by_Permutation. Qed.
End SortByFacts.

(** ** Facts about paths *)

Module PathFacts.
Import Path.

Lemma ends_with_unfold (suffix s : string) :
  ends_with suffix s =
  String.eqb s suffix || match s with
                         | EmptyString => false
                         | String _ t => ends_with suffix t
                         end.
Proof. by destruct s. Qed.

Lemma ends_with_refl (s : string) : ends_with s s = true.
Proof. rewrite ends_with_unfold. by rewrite String.eqb_refl. Qed.

Lemma ends_with_app (a suffix : string) : ends_with suffix (a +:+ suffix) = true.
Proof.
  induction a as [|c a IH].
  - apply ends_with_refl.
  - change (String c a +:+ suffix) with (String c (a +:+ suffix)).
    rewrite ends_with_unfold, IH. apply orb_true_r.
Qed.

(** The example of the comment above [formatPath], whose separators are
    two backslashes each. *)
Example formatPath_comment_example :
  formatPath
    ("docs" +:+ String backslash (String backslash "02-app") +:+
     String backslash (String backslash "01-building-your-application") +:+
     String backslash (String backslash "01-routing") +:+
     String backslash (String backslash "08-parallel-routes.mdx"))
  = "docs/app/building-your-application/routing/parallel-routes".
Proof. reflexivity. Qed.

(** A path as [join] builds it on Windows, with single backslashes,
    keeps them. *)
Example formatPath_single_backslashes :
  formatPath
    ("docs" +:+ String backslash "02-app" +:+
     String backslash "01-building-your-application" +:+
     String backslash "01-routing" +:+
     String backslash "08-parallel-routes.mdx")
  = "docs" +:+ String backslash "app" +:+
    String backslash "building-your-application" +:+
    String backslash "routing" +:+
    String backslash "parallel-routes".
Proof. reflexivity. Qed.

(** Only a backslash in front of [index] makes the last pattern match. *)
Example formatPath_backslash_index :
  formatPath ("docs" +:+ String backslash "guide" +:+ String backslash "index.mdx")
  = "docs" +:+ String backslash "guide".
Proof. reflexivity. Qed.

(** C4. [formatPath] is meant to remove a trailing [/index] segment (so
    the comment on its last line), but the pattern of that line asks for a
    backslash: on a path with forward slashes the segment stays, and
    [formatPath("docs/guide/index.mdx")] is ["docs/guide/index"], not
    ["docs/guide"]. *)
Theorem formatPath_keeps_index_segment :
  formatPath "docs/guide/index.mdx" = "docs/guide/index" /\
  formatPath "docs/guide/index.mdx" <> "docs/guide".
Proof. split; [reflexivity | discriminate]. Qed.

End PathFacts.

(** ** Facts about the walker *)

Module WalkerFacts.
Import Path Walker PathFacts.

Lemma fsnode_nested_ind (P : fsnode -> Prop) :
  P File -> P Special -> P Broken ->
  (forall entries, Forall (fun fe => P (snd fe)) entries -> P (Dir entries)) ->
  forall n, P n.
Proof.
  intros HF HS HB HD. fix IH 1. intros [ | | | entries]; [done..|].
  apply HD. induction entries as [|[f c] es IHes]; constructor; [apply IH | done].
Qed.

Lemma promise_all_In {A} (l : list (option A)) (xs : list A) (x : A) :
  promise_all l = Some xs -> In x xs -> In (Some x) l.
Proof.
  revert xs. induction l as [|[y|] l IH]; intros xs; simpl; [|..|done].
  - by intros [= <-] Hx.
  - destruct (promise_all l) as [ys|]; [|done].
    intros [= <-] [->|Hx]; [by left|right; by eapply IH].
Qed.

End WalkerFacts.

(** ** Facts about the segmenter *)

Module SegmenterFacts.
Import Estree Mdast Segmenter Samples.

(** *** Metadata *)

Lemma add_property_other (k : string) (object : Meta) (property : ObjectMember) :
  property_key property <> Some k ->
  add_property object property !! k = object !! k.
Proof.
  intros Hk. destruct property as [pkey pvalue|arg]; [|done].
  unfold add_property.
  destruct (property_key (Property pkey pvalue)) as [k'|]; [|done].
  rewrite lookup_insert_ne; [done|congruence].
Qed.

Lemma foldl_add_property_other (k : string) (properties : list ObjectMember) :
  Forall (fun property => property_key property <> Some k) properties ->
  forall object, foldl add_property object properties !! k = object !! k.
Proof.
  induction 1 as [|property properties Hp _ IH]; intros object; simpl; [done|].
  rewrite IH. by apply add_property_other.
Qed.

(** The last property written under a key decides its value. *)
Lemma getObjectFromExpression_last (k : string) (before after : list ObjectMember)
    (value : Expression) :
  k <> "" ->
  Forall (fun property => property_key property <> Some k) after ->
  getObjectFromExpression (before ++ Property (Identifier k) value :: after) !! k
  = Some (property_value value).
Proof.
  intros Hk Hafter. unfold getObjectFromExpression.
  rewrite foldl_app. simpl. rewrite foldl_add_property_other by done.
  apply String.eqb_neq in Hk. rewrite Hk. apply lookup_insert_eq.
Qed.

Lemma getObjectFromExpression_absent (k : string) (properties : list ObjectMember) :
  Forall (fun property => property_key property <> Some k) properties ->
  getObjectFromExpression properties !! k = None.
Proof.
  intros H. unfold getObjectFromExpression.
  by rewrite foldl_add_property_other.
Qed.

Lemma find_first {A} (f : A -> bool) (before after : list A) (x : A) :
  Forall (fun y => f y = false) before -> f x = true ->
  List.find f (before ++ x :: after) = Some x.
Proof.
  induction 1 as [|y before Hy _ IH]; intros Hx; simpl.
  - by rewrite Hx.
  - rewrite Hy. by apply IH.
Qed.

Lemma find_none {A} (f : A -> bool) (l : list A) :
  Forall (fun y => f y = false) l -> List.find f l = None.
Proof. induction 1 as [|y l Hy _ IH]; simpl; [done|]. by rewrite Hy. Qed.

(** A literal [false] is not captured: the key is there, its value is
    [undefined]. *)
Lemma false_literal_not_captured :
  ~ (forall (k : string) (b : bool),
       getObjectFromExpression [Property (Identifier k) (Literal (VBoolean b))] !! k
       = Some (Some (VBoolean b))).
Proof. intros H. specialize (H "draft" false). vm_compute in H. discriminate. Qed.

(** The first export of [meta] is the one looked at, object or not. *)
Example second_export_ignored :
  extractMetaExport sample_two_exports = None.
Proof. reflexivity. Qed.

(** C6, as amended. The extraction looks at the first top-level ESM node
    whose first statement exports a variable declaration whose first
    declarator is the identifier [meta]. Without such a node the result is
    absent, and so it is when the initializer of that node is not an object
    expression. Otherwise the result has, for every key, what the last
    property with that identifier as key gives: the value of a truthy
    literal, and [undefined] for a falsy literal or any other expression. *)
Theorem extractMetaExport_spec (mdxTree : Root) :
  (Forall (fun n => is_meta_export n = false) (root_children mdxTree) ->
   extractMetaExport mdxTree = None) /\
  (forall before node after,
     root_children mdxTree = before ++ node :: after ->
     Forall (fun n => is_meta_export n = false) before ->
     is_meta_export node = true ->
     match meta_object_expression node with
     | None => extractMetaExport mdxTree = None
     | Some properties =>
         exists meta : Meta,
           extractMetaExport mdxTree = Some meta /\
           forall k, k <> "" ->
             (Forall (fun property => property_key property <> Some k) properties ->
              meta !! k = None) /\
             (forall earlier value later,
                properties = earlier ++ Property (Identifier k) value :: later ->
                Forall (fun property => property_key property <> Some k) later ->
                match value with
                | Literal v => meta !! k = Some (if truthy v then Some v else None)
                | _ => meta !! k = Some None
                end)
     end).
Proof.
  split.
  - intros Hnone. unfold extractMetaExport. by rewrite find_none.
  - intros before node after Hchildren Hbefore Hnode.
    unfold extractMetaExport. rewrite Hchildren, find_first by done.
    destruct (meta_object_expression node) as [properties|]; [|done].
    eexists; split; [done|]. intros k Hk. split.
    + apply getObjectFromExpression_absent.
    + intros earlier value later -> Hlater.
      rewrite getObjectFromExpression_last by done.
      by destruct value.
Qed.

(** The statement on the sample document: [title] is captured, [draft:
    false] and the array of [tags] are [undefined]. *)
Lemma extractMetaExport_spec_sample :
  exists meta : Meta,
    extractMetaExport sample_mdx_tree = Some meta /\
    meta !! "title" = Some (Some (VString "Routing")) /\
    meta !! "draft" = Some None /\
    meta !! "tags" = Some None /\
    meta !! "author" = None.
Proof.
  destruct (extractMetaExport_spec sample_mdx_tree) as [_ H].
  specialize (H [] (export_meta (Some (ObjectExpression sample_meta_properties)))
                (tail (root_children sample_mdx_tree)) eq_refl (Forall_nil_2 _) eq_refl).
  simpl in H. destruct H as (meta & Hmeta & H).
  exists meta. split; [done|].
  repeat split.
  - destruct (H "title" ltac:(done)) as [_ Ht].
    apply (Ht [] (Literal (VString "Routing")) (tail sample_meta_properties) eq_refl).
    repeat constructor; discriminate.
  - destruct (H "draft" ltac:(done)) as [_ Ht].
    apply (Ht (take 1 sample_meta_properties) (Literal (VBoolean false))
              (drop 2 sample_meta_properties) eq_refl).
    repeat constructor; discriminate.
  - destruct (H "tags" ltac:(done)) as [_ Ht].
    apply (Ht (take 3 sample_meta_properties) (OtherExpression "ArrayExpression")
              [] eq_refl).
    constructor.
  - destruct (H "author" ltac:(done)) as [Ht _].
    apply Ht. repeat constructor; discriminate.
Defined.

End SegmenterFacts.

Module SplitFacts.
Import Estree Mdast Segmenter Samples.

(** *** Splitting *)

Section Split.
Variable predicate : Content -> bool.

Lemma split_step_first (node : Content) :
  split_step predicate [] node = [u_root [node]].
Proof. done. Qed.

Lemma split_step_start (trees : list Root) (node : Content) :
  predicate node = true ->
  split_step predicate trees node = trees ++ [u_root [node]].
Proof. intros H. unfold split_step. rewrite H. by destruct (last trees). Qed.

Lemma split_step_push (trees : list Root) (t : Root) (node : Content) :
  predicate node = false ->
  split_step predicate (trees ++ [t]) node
  = trees ++ [u_root (root_children t ++ [node])].
Proof.
  intros H. unfold split_step. rewrite last_snoc, H.
  rewrite length_app. simpl.
  replace (length trees + 1 - 1)%nat with (length trees + 0)%nat by lia.
  by rewrite alter_app_r.
Qed.

(** Nodes that do not start a section go to the end of the last tree. *)
Lemma foldl_split_step_push (body : list Content) :
  Forall (fun n => predicate n = false) body ->
  forall trees t,
    foldl (split_step predicate) (trees ++ [t]) body
    = trees ++ [u_root (root_children t ++ body)].
Proof.
  induction 1 as [|n body Hn _ IH]; intros trees t; simpl.
  - rewrite app_nil_r. by destruct t.
  - rewrite split_step_push, IH by done. simpl. by rewrite <- app_assoc.
Qed.

(** A node that starts a section, with the nodes up to the next one. *)
Lemma foldl_split_step_section (trees : list Root) (h : Content) (body after : list Content) :
  predicate h = true ->
  Forall (fun n => predicate n = false) body ->
  foldl (split_step predicate) trees (h :: body ++ after)
  = foldl (split_step predicate) (trees ++ [u_root (h :: body)]) after.
Proof.
  intros Hh Hbody. simpl. rewrite split_step_start by done.
  rewrite foldl_app. by rewrite foldl_split_step_push.
Qed.

Lemma well_split_step (trees : list Root) (seen : list Content) (node : Content) :
  well_split predicate trees seen ->
  well_split predicate (split_step predicate trees node) (seen ++ [node]).
Proof.
  intros (Hcat & Hne & Htl).
  destruct trees as [|t0 trees0] using rev_ind.
  - simpl in Hcat. subst seen. rewrite split_step_first.
    repeat split; simpl; eauto using Forall_nil_2.
  - clear IHtrees0. destruct (predicate node) eqn:Hn.
    + rewrite split_step_start by done. repeat split.
      * rewrite map_app, concat_app, Hcat. simpl. done.
      * apply Forall_app. split; [done|]. repeat constructor. eauto.
      * destruct trees0; simpl in *; repeat constructor; eauto.
        apply Forall_app. split; [done|]. repeat constructor; eauto.
    + rewrite split_step_push by done.
      rewrite map_app, concat_app in Hcat. simpl in Hcat. rewrite app_nil_r in Hcat.
      apply Forall_app in Hne as [Hne0 Hne1].
      apply Forall_singleton in Hne1 as (n & rest & Ht0 & Hrest).
      repeat split.
      * rewrite map_app, concat_app. simpl. rewrite app_nil_r, <- Hcat.
        by rewrite app_assoc.
      * apply Forall_app. split; [done|]. apply Forall_singleton.
        exists n, (rest ++ [node]). simpl. rewrite Ht0. split; [done|].
        apply Forall_app. split; [done|]. by apply Forall_singleton.
      * destruct trees0 as [|t1 trees1]; simpl in *; [constructor|].
        apply Forall_app in Htl as [Htl0 Htl1].
        apply Forall_app. split; [done|].
        apply Forall_singleton in Htl1 as (h & rest' & Ht0' & Hh).
        apply Forall_singleton. exists h, (rest' ++ [node]). simpl.
        by rewrite Ht0'.
Qed.

Lemma splitTreeBy_well_split (tree : Root) :
  well_split predicate (splitTreeBy tree predicate) (root_children tree).
Proof.
  unfold splitTreeBy.
  induction (root_children tree) as [|node seen IH] using rev_ind.
  - repeat split; constructor.
  - rewrite foldl_app. simpl. by apply well_split_step.
Qed.

(** A preamble and two sections. *)
Lemma splitTreeBy_three (p h1 h2 : Content) (pre mid rest : list Content) :
  Forall (fun n => predicate n = false) pre ->
  predicate h1 = true -> Forall (fun n => predicate n = false) mid ->
  predicate h2 = true -> Forall (fun n => predicate n = false) rest ->
  splitTreeBy (u_root ((p :: pre) ++ h1 :: mid ++ h2 :: rest)) predicate
  = [u_root (p :: pre); u_root (h1 :: mid); u_root (h2 :: rest)].
Proof.
  intros Hpre Hh1 Hmid Hh2 Hrest. unfold splitTreeBy.
  change (root_children (u_root ((p :: pre) ++ h1 :: mid ++ h2 :: rest)))
    with (p :: (pre ++ h1 :: mid ++ h2 :: rest)).
  simpl. rewrite split_step_first, foldl_app.
  pose proof (foldl_split_step_push pre Hpre [] (u_root [p])) as H1.
  simpl in H1. rewrite H1.
  rewrite foldl_split_step_section by done.
  simpl. rewrite split_step_start by done.
  pose proof (foldl_split_step_push rest Hrest
                [u_root (p :: pre); u_root (h1 :: mid)] (u_root [h2])) as H2.
  simpl in H2. simpl. by rewrite H2.
Qed.

End Split.
End SplitFacts.

Module ProcessFacts.
Import Estree Mdast Segmenter Samples SplitFacts.

Section Process.
Variable sha256_base64 : string -> string.
Variable fromMarkdown : string -> option Root.
Variable filter : Root -> (Content -> bool) -> option Root.
Variable toMarkdown : Root -> string.
Variable toString : Content -> string.
Variable Slugger : Type.
Variable new_slugger : Slugger.
Variable slugger_slug : Slugger -> string -> string * Slugger.

Local Abbreviation map_sections := (map_sections toMarkdown toString Slugger slugger_slug).
Local Abbreviation processMdxForSearch :=
  (processMdxForSearch sha256_base64 fromMarkdown filter toMarkdown toString
     Slugger new_slugger slugger_slug).

Local Abbreviation heading_of := (heading_of toString).

(** On trees that are not empty the mapping does not throw, and gives
    one section per tree, in order. *)
Lemma map_sections_total (trees : list Root) :
  Forall (fun t => root_children t <> []) trees ->
  forall slugger,
  exists sections,
    map_sections slugger trees = Some sections /\
    Forall2 (fun t s => content s = toMarkdown t /\ heading s = heading_of t)
            trees sections.
Proof.
  induction 1 as [|t trees Ht _ IH]; intros slugger; simpl.
  - eexists; split; [done|constructor].
  - unfold heading_of. destruct (root_children t) as [|n ns] eqn:Hn; [done|].
    set (hd := if is_heading n then Some (toString n) else None).
    destruct (match hd with
              | Some h => if String.eqb h "" then (None, slugger)
                          else let '(s, sl) := slugger_slug slugger h in (Some s, sl)
              | None => (None, slugger)
              end) as [slug slugger'] eqn:Hslug.
    destruct (IH slugger') as (sections & -> & Hall).
    eexists; split; [done|]. constructor; [|done]. simpl. by rewrite Hn.
Qed.

(** C7. Segmentation walks the top-level children of the cleaned tree
    in document order and starts a section at every heading, the heading
    being the first node of its section: the trees put end to end are the
    children, no tree is empty, a heading is nowhere but at the head of a
    tree, and every tree after the first has a heading at its head. Each
    tree gives one section, in order, whose content is the serialization
    of the tree and whose heading is the text of that first heading. A
    document with a preamble that is not empty and two headings gives
    exactly three sections. *)
Theorem segmentation_spec (text : string) (mdxTree mdTree : Root) :
  fromMarkdown text = Some mdxTree ->
  filter mdxTree not_mdx = Some mdTree ->
  let trees := splitTreeBy mdTree is_heading in
  exists sections,
    processMdxForSearch text
    = Some (mkProcessed (sha256_base64 text) (extractMetaExport mdxTree) sections) /\
    concat (map root_children trees) = root_children mdTree /\
    Forall (fun t => exists n rest, root_children t = n :: rest /\
                                    Forall (fun m => is_heading m = false) rest) trees /\
    Forall (fun t => exists h rest, root_children t = h :: rest /\ is_heading h = true)
           (tail trees) /\
    Forall2 (fun t s => content s = toMarkdown t /\ heading s = heading_of t)
            trees sections /\
    (forall p h1 h2 pre mid rest,
       root_children mdTree = (p :: pre) ++ h1 :: mid ++ h2 :: rest ->
       Forall (fun n => is_heading n = false) (p :: pre) ->
       is_heading h1 = true -> Forall (fun n => is_heading n = false) mid ->
       is_heading h2 = true -> Forall (fun n => is_heading n = false) rest ->
       exists s0 s1 s2,
         sections = [s0; s1; s2] /\
         content s0 = toMarkdown (u_root (p :: pre)) /\ heading s0 = None /\
         content s1 = toMarkdown (u_root (h1 :: mid)) /\
         heading s1 = Some (toString h1) /\
         content s2 = toMarkdown (u_root (h2 :: rest)) /\
         heading s2 = Some (toString h2)).
Proof.
  intros Hparse Hfilter trees.
  destruct (splitTreeBy_well_split is_heading mdTree) as (Hcat & Hne & Htl).
  fold trees in Hcat, Hne, Htl.
  destruct (map_sections_total trees) with (slugger := new_slugger)
    as (sections & Hmap & Hall).
  { eapply Forall_impl; [exact Hne|]. intros t (n & rest & -> & _). done. }
  exists sections. unfold Segmenter.processMdxForSearch.
  rewrite Hparse, Hfilter. fold trees. rewrite Hmap.
  do 5 (split; [done|]).
  intros p h1 h2 pre mid rest Hchildren Hpre Hh1 Hmid Hh2 Hrest.
  apply Forall_cons in Hpre as [Hp Hpre].
  assert (trees = [u_root (p :: pre); u_root (h1 :: mid); u_root (h2 :: rest)]) as Htrees.
  { subst trees. destruct mdTree as [cs]. simpl in Hchildren. rewrite Hchildren.
    by apply splitTreeBy_three. }
  rewrite Htrees in Hall.
  apply Forall2_cons_inv_l in Hall as (s0 & l0 & [Hc0 Hh0] & Hall & ->).
  apply Forall2_cons_inv_l in Hall as (s1 & l1 & [Hc1 Hd1] & Hall & ->).
  apply Forall2_cons_inv_l in Hall as (s2 & l2 & [Hc2 Hd2] & Hall & ->).
  apply Forall2_nil_inv_l in Hall as ->.
  exists s0, s1, s2. unfold heading_of in *. simpl in *.
  rewrite Hp in Hh0. rewrite Hh1 in Hd1. rewrite Hh2 in Hd2. done.
Qed.

End Process.

(** The statement on the sample document. *)
Lemma segmentation_spec_sample :
  exists s0 s1 s2,
    option_map sections (sample_processMdxForSearch "guide") = Some [s0; s1; s2] /\
    heading s0 = None /\ heading s1 = Some "Install" /\ heading s2 = Some "Use".
Proof.
  destruct (segmentation_spec sample_sha256 sample_fromMarkdown unist_util_filter
              sample_toMarkdown sample_toString (list string) [] sample_slug
              "guide" sample_mdx_tree (u_root (tail (root_children sample_mdx_tree)))
              eq_refl eq_refl)
    as (sections & Hrun & _ & _ & _ & _ & Hthree).
  destruct (Hthree (paragraph "Welcome.") (heading_node "Install") (heading_node "Use")
              [] [paragraph "Run the installer."] [paragraph "Ask a question."]
              eq_refl)
    as (s0 & s1 & s2 & -> & _ & H0 & _ & H1 & _ & H2);
    [repeat constructor..|].
  exists s0, s1, s2. unfold sample_processMdxForSearch. rewrite Hrun.
  by repeat split.
Defined.

End ProcessFacts.

(** ** Reasoning about effects *)

Module EffectsFacts.
Import Store Effects.

Lemma wp_ret {A} (a : A) (Q : Outcome A -> World -> Prop) (w : World) :
  Q (Return a) w -> wp (ret a) Q w.
Proof. done. Qed.

Lemma wp_throw {A} (e : Error) (Q : Outcome A -> World -> Prop) (w : World) :
  Q (Throw e) w -> wp (throw e) Q w.
Proof. done. Qed.

Lemma wp_bind {A B} (m : M A) (k : A -> M B) (Q : Outcome B -> World -> Prop) (w : World) :
  wp m (fun r w' => match r with
                    | Return a => wp (k a) Q w'
                    | Throw e => Q (Throw e) w'
                    end) w ->
  wp (bind m k) Q w.
Proof. unfold wp, bind. by destruct (m w) as [[a|e] w']. Qed.

Lemma wp_try_catch {A} (body : M A) (handler : Error -> M A)
    (Q : Outcome A -> World -> Prop) (w : World) :
  wp body (fun r w' => match r with
                       | Return a => Q (Return a) w'
                       | Throw e => wp (handler e) Q w'
                       end) w ->
  wp (try_catch body handler) Q w.
Proof. unfold wp, try_catch. by destruct (body w) as [[a|e] w']. Qed.

Lemma wp_finally {A} (body : M A) (fin : M unit) (Q : Outcome A -> World -> Prop) (w : World) :
  wp body (fun r w' => wp fin (fun r' w'' => match r' with
                                             | Return _ => Q r w''
                                             | Throw e => Q (Throw e) w''
                                             end) w') w ->
  wp (finally body fin) Q w.
Proof.
  unfold wp, finally. destruct (body w) as [r w']. simpl.
  by destruct (fin w') as [[[]|e] w''].
Qed.

Lemma wp_console_log (msg : string) (Q : Outcome unit -> World -> Prop) (w : World) :
  Q (Return tt) (mkWorld (db w) (clock w) (trace w) (console w ++ [msg])) ->
  wp (console_log msg) Q w.
Proof. done. Qed.

Lemma wp_call {A} (fails : nat -> Call -> bool) (c : Call) (run : Db -> Outcome A * Db)
    (Q : Outcome A -> World -> Prop) (w : World) :
  (fails (clock w) c = true -> Q (Throw (CallFailed c)) (ticked w c (db w))) ->
  (fails (clock w) c = false -> Q (fst (run (db w))) (ticked w c (snd (run (db w))))) ->
  wp (call fails c run) Q w.
Proof.
  unfold wp, call. intros Ht Hf. destruct (fails (clock w) c); [by apply Ht|].
  specialize (Hf eq_refl). by destruct (run (db w)).
Qed.

Lemma wp_mono {A} (m : M A) (Q Q' : Outcome A -> World -> Prop) (w : World) :
  wp m Q w -> (forall r w', Q r w' -> Q' r w') -> wp m Q' w.
Proof. unfold wp. auto. Qed.

(** A loop keeps what each of its turns keeps. *)
Lemma wp_for_of {A} (f : A -> M unit) (Inv : World -> Prop)
    (Q : Outcome unit -> World -> Prop) (l : list A) :
  (forall x w, In x l -> Inv w ->
     wp (f x) (fun r w' => match r with
                           | Return _ => Inv w'
                           | Throw e => Q (Throw e) w'
                           end) w) ->
  (forall w, Inv w -> Q (Return tt) w) ->
  forall w, Inv w -> wp (for_of l f) Q w.
Proof.
  intros Hturn Hend. induction l as [|x l IH]; intros w Hw; simpl.
  - apply wp_ret. by apply Hend.
  - apply wp_bind. eapply wp_mono; [apply Hturn; [by left|done]|].
    intros [[]|e] w' H; [|done]. apply IH; [|done].
    intros y w0 Hy. apply Hturn. by right.
Qed.

End EffectsFacts.

(** ** Facts about the provider *)

Module ProviderFacts.
Import Store Effects Provider EffectsFacts.

Section GenerateFacts.
Variable fails : nat -> Call -> bool.
Variable embeddings_create : string -> EmbeddingResponse.

Local Abbreviation generateEmbedding := (generateEmbedding fails embeddings_create).

(** The provider does not touch the store. *)
Lemma wp_generateEmbedding (input : string) (Q : Outcome Embedding -> World -> Prop)
    (w : World) :
  (forall e, Q (Throw e) (ticked w (EmbeddingsCreate (replace_newlines input)) (db w))) ->
  (forall embedding,
     fails (clock w) (EmbeddingsCreate (replace_newlines input)) = false ->
     Q (Return embedding) (ticked w (EmbeddingsCreate (replace_newlines input)) (db w))) ->
  wp (generateEmbedding input) Q w.
Proof.
  intros Hthrow Hret. unfold Provider.generateEmbedding.
  apply wp_bind, wp_call; [intros _; apply Hthrow|intros Hf; simpl].
  destruct (data _); [apply wp_throw, Hthrow|apply wp_ret, Hret, Hf].
Qed.

End GenerateFacts.
End ProviderFacts.

(** ** Facts about the store *)

Module StoreFacts.
Import Store.

Lemma find_In {A} (f : A -> bool) (l : list A) (x : A) :
  List.find f l = Some x -> In x l /\ f x = true.
Proof. apply find_some. Qed.

Lemma page_has_id_true (id : Z) (p : Page.t) : page_has_id id p = true <-> Page.id p = id.
Proof. unfold page_has_id. apply Z.eqb_eq. Qed.

Lemma page_has_path_true (path : string) (p : Page.t) :
  page_has_path path p = true <-> Page.path p = path.
Proof. unfold page_has_path. apply String.eqb_eq. Qed.

Lemma set_parent_id (id : Z) (x : option Z) (p : Page.t) :
  Page.id (set_parent id x p) = Page.id p.
Proof. unfold set_parent. by destruct (page_has_id id p). Qed.

Lemma set_parent_checksum (id : Z) (x : option Z) (p : Page.t) :
  Page.checksum (set_parent id x p) = Page.checksum p.
Proof. unfold set_parent. by destruct (page_has_id id p). Qed.

Lemma set_parent_path (id : Z) (x : option Z) (p : Page.t) :
  Page.path (set_parent id x p) = Page.path p.
Proof. unfold set_parent. by destruct (page_has_id id p). Qed.

Lemma set_checksum_id (id : Z) (c : string) (p : Page.t) :
  Page.id (set_checksum id c p) = Page.id p.
Proof. unfold set_checksum. by destruct (page_has_id id p). Qed.

Lemma reset_page_id path type source meta parent (p : Page.t) :
  Page.id (reset_page path type source meta parent p) = Page.id p.
Proof. unfold reset_page. by destruct (page_has_path path p). Qed.

(** *** Rewriting the pages without touching their ids *)

Lemma consistent_map_pages (f : Page.t -> Page.t) (d : Db) :
  (forall p, Page.id (f p) = Page.id p) ->
  consistent d -> consistent (with_pages (map f (pages d)) d).
Proof.
  intros Hid (Hnd & Hseq & Hfk). unfold consistent. simpl.
  rewrite map_map. erewrite map_ext; [|apply Hid].
  split; [done|]. split.
  - apply Forall_forall. intros p' Hp'. apply list_elem_of_In, in_map_iff in Hp' as (p & <- & Hp).
    rewrite Hid. rewrite Forall_forall in Hseq. by apply Hseq, list_elem_of_In.
  - eapply Forall_impl; [exact Hfk|]. intros s (p & Hp & Hps).
    exists (f p). split; [by apply in_map|]. by rewrite Hid.
Qed.

Lemma complete_map_pages (f : Page.t -> Page.t) (d : Db) :
  (forall p, In p (pages d) -> Page.checksum (f p) <> None ->
     Page.id (f p) = Page.id p /\
     (Page.checksum p <> None \/
      Forall (fun s => PageSection.pageId s = Page.id p -> PageSection.embedding s <> None)
             (page_sections d))) ->
  complete d -> complete (with_pages (map f (pages d)) d).
Proof.
  intros Hf Hc. unfold complete in *. simpl.
  apply Forall_forall. intros p' Hp'.
  apply list_elem_of_In, in_map_iff in Hp' as (p & <- & Hp).
  intros Hsum. destruct (Hf p Hp Hsum) as [-> [Hold|Hall]]; [|done].
  rewrite Forall_forall in Hc. by apply Hc; [apply list_elem_of_In|].
Qed.

Lemma consistent_set_parent (id : Z) (x : option Z) (d : Db) :
  consistent d -> consistent (with_pages (map (set_parent id x) (pages d)) d).
Proof. apply consistent_map_pages. intros p. apply set_parent_id. Qed.

Lemma complete_set_parent (id : Z) (x : option Z) (d : Db) :
  complete d -> complete (with_pages (map (set_parent id x) (pages d)) d).
Proof.
  apply complete_map_pages. intros p _ H. rewrite set_parent_id, set_parent_checksum in *.
  auto.
Qed.

(** *** Deleting the sections of a page *)

Lemma consistent_delete_sections (pid : Z) (d : Db) :
  consistent d -> consistent (delete_sections pid d).
Proof.
  intros (Hnd & Hseq & Hfk). repeat split; [done..|]. simpl.
  apply Forall_forall. intros s Hs.
  apply list_elem_of_In, filter_In in Hs as [Hs _].
  rewrite Forall_forall in Hfk. by apply Hfk, list_elem_of_In.
Qed.

Lemma complete_delete_sections (pid : Z) (d : Db) :
  complete d -> complete (delete_sections pid d).
Proof.
  unfold complete. simpl. intros Hc. eapply Forall_impl; [exact Hc|].
  intros p Hp Hsum. specialize (Hp Hsum).
  apply Forall_forall. intros s Hs.
  apply list_elem_of_In, filter_In in Hs as [Hs _].
  rewrite Forall_forall in Hp. by apply Hp, list_elem_of_In.
Qed.

Lemma delete_sections_none (pid : Z) (d : Db) :
  Forall (fun s => PageSection.pageId s <> pid) (page_sections (delete_sections pid d)).
Proof.
  simpl. apply Forall_forall. intros s Hs.
  apply list_elem_of_In, filter_In in Hs as [_ Hs].
  apply negb_true_iff, Z.eqb_neq in Hs. done.
Qed.

(** *** The upsert *)

Lemma find_page_by_path_In (path : string) (d : Db) (p : Page.t) :
  find_page_by_path path d = Some p -> In p (pages d) /\ Page.path p = path.
Proof.
  intros H. apply find_In in H as [Hin Hp]. by apply page_has_path_true in Hp.
Qed.

Lemma NoDup_id_eq (d : Db) (p q : Page.t) :
  NoDup (map Page.id (pages d)) -> In p (pages d) -> In q (pages d) ->
  Page.id p = Page.id q -> p = q.
Proof.
  intros Hnd Hp Hq Hid. induction (pages d) as [|x l IH]; [done|].
  simpl in Hnd. apply NoDup_cons in Hnd as [Hx Hnd].
  destruct Hp as [->|Hp], Hq as [->|Hq]; [done|..|by apply IH].
  - exfalso. apply Hx. rewrite Hid. by apply list_elem_of_In, in_map.
  - exfalso. apply Hx. rewrite <- Hid. by apply list_elem_of_In, in_map.
Qed.

Lemma upsert_page_indexing path type source meta parent (d d' : Db) (p : Page.t) :
  consistent d -> complete d ->
  (forall existing, find_page_by_path path d = Some existing ->
     Forall (fun s => PageSection.pageId s <> Page.id existing) (page_sections d)) ->
  upsert_page path type source meta parent d = (p, d') ->
  indexing (Page.id p) d' /\ Page.checksum p = None /\ Page.path p = path /\
  page_sections d' = page_sections d /\
  page_section_id_seq d' = page_section_id_seq d.
Proof.
  intros Hcons Hcomp Hnone. unfold upsert_page.
  destruct (find_page_by_path path d) as [existing|] eqn:Hfind.
  - intros [= <- <-]. specialize (Hnone existing eq_refl).
    apply find_page_by_path_In in Hfind as [Hin Hpath].
    assert (Hreset : reset_page path type source meta parent existing
                     = Page.mk (Page.id existing) (or_keep parent (Page.parentPageId existing))
                         path None (or_keep meta (Page.meta existing)) (Some type) (Some source)).
    { unfold reset_page. apply page_has_path_true in Hpath. by rewrite Hpath. }
    rewrite Hreset. simpl. unfold indexing, pending. split_and!; try done.
    + apply consistent_map_pages; [|done]. intros q. apply reset_page_id.
    + apply complete_map_pages; [|done]. intros q Hq Hsum.
      rewrite reset_page_id. split; [done|]. left.
      unfold reset_page in Hsum. by destruct (page_has_path path q).
    + exists (reset_page path type source meta parent existing). split.
      * by apply in_map.
      * by rewrite reset_page_id.
    + apply Forall_forall. intros q' Hq' Hid.
      apply list_elem_of_In, in_map_iff in Hq' as (q & <- & Hq).
      rewrite reset_page_id in Hid.
      destruct Hcons as (Hnd & _). 
      assert (q = existing) as -> by by eapply NoDup_id_eq.
      by rewrite Hreset.
    + eapply Forall_impl; [exact Hnone|]. simpl. intros s Hs Hpid. done.
  - intros [= <- <-]. simpl. destruct Hcons as (Hnd & Hseq & Hfk).
    assert (Hfresh : forall q, In q (pages d) -> Page.id q <> page_id_seq d).
    { intros q Hq. rewrite Forall_forall in Hseq.
      apply list_elem_of_In, Hseq in Hq. lia. }
    unfold indexing, pending. split_and!; simpl; try done.
    + unfold consistent. simpl. split_and!.
      * rewrite map_app. simpl. apply NoDup_app. split; [done|]. split.
        -- intros x Hx Hx'. apply list_elem_of_singleton in Hx' as ->.
           apply list_elem_of_In, in_map_iff in Hx as (q & Hq & Hin). by eapply Hfresh.
        -- apply NoDup_singleton.
      * apply Forall_app. split.
        -- eapply Forall_impl; [exact Hseq|]. simpl. intros; lia.
        -- apply Forall_singleton. simpl. lia.
      * eapply Forall_impl; [exact Hfk|]. simpl. intros s (q & Hq & Hqs).
        exists q. split; [|done]. apply in_or_app. by left.
    + unfold complete. simpl. apply Forall_app. split; [done|].
      by apply Forall_singleton.
    + eexists. split; [apply in_or_app; right; by left|done].
    + apply Forall_app. split.
      * apply Forall_forall. intros q Hq Hid. apply list_elem_of_In in Hq.
        by apply Hfresh in Hq.
      * by apply Forall_singleton.
    + apply Forall_forall. intros s Hs Hpid. rewrite Forall_forall in Hfk.
      destruct (Hfk s Hs) as (q & Hq & Hqs). exfalso.
      apply (Hfresh q Hq). congruence.
Qed.

(** *** Writing a section and its embedding *)

Lemma consistent_map_sections (g : PageSection.t -> PageSection.t) (d : Db) :
  (forall s, PageSection.pageId (g s) = PageSection.pageId s) ->
  consistent d -> consistent (with_sections (map g (page_sections d)) d).
Proof.
  intros Hg (Hnd & Hseq & Hfk). unfold consistent. simpl. split_and!; [done..|].
  apply Forall_forall. intros s' Hs'.
  apply list_elem_of_In, in_map_iff in Hs' as (s & <- & Hs).
  rewrite Hg. rewrite Forall_forall in Hfk. by apply Hfk, list_elem_of_In.
Qed.

Lemma complete_map_sections (g : PageSection.t -> PageSection.t) (d : Db) :
  (forall s, PageSection.pageId (g s) = PageSection.pageId s) ->
  (forall s, PageSection.embedding s <> None -> PageSection.embedding (g s) <> None) ->
  complete d -> complete (with_sections (map g (page_sections d)) d).
Proof.
  intros Hg Hemb Hc. unfold complete in *. simpl.
  eapply Forall_impl; [exact Hc|]. intros p Hp Hsum. specialize (Hp Hsum).
  apply Forall_forall. intros s' Hs'.
  apply list_elem_of_In, in_map_iff in Hs' as (s & <- & Hs).
  rewrite Hg. intros Hpid. apply Hemb.
  rewrite Forall_forall in Hp. by apply Hp; [apply list_elem_of_In|].
Qed.

Lemma set_embedding_pageId (id : Z) (v : vector) (s : PageSection.t) :
  PageSection.pageId (set_embedding id v s) = PageSection.pageId s.
Proof. unfold set_embedding. by destruct (PageSection.id s =? id)%Z. Qed.

Lemma set_embedding_keeps (id : Z) (v : vector) (s : PageSection.t) :
  PageSection.embedding s <> None -> PageSection.embedding (set_embedding id v s) <> None.
Proof. unfold set_embedding. by destruct (PageSection.id s =? id)%Z. Qed.

Lemma valid_set_embedding (id : Z) (v : vector) (d : Db) :
  valid d -> valid (with_sections (map (set_embedding id v) (page_sections d)) d).
Proof.
  intros [Hcons Hcomp]. split.
  - apply consistent_map_sections; [|done]. intros s. apply set_embedding_pageId.
  - apply complete_map_sections; [..|done]; intros s.
    + apply set_embedding_pageId.
    + apply set_embedding_keeps.
Qed.

Lemma pending_valid (pid : Z) (d : Db) : pending pid d -> valid d.
Proof. by intros (? & ? & _). Qed.

Lemma indexing_valid (pid : Z) (d : Db) : indexing pid d -> valid d.
Proof. intros [H _]. by eapply pending_valid. Qed.

(** A new row for a page without checksum breaks nothing. *)
Lemma create_section_pending (pid : Z) slug heading content tokenCount (d : Db) :
  pending pid d ->
  pending pid (snd (create_section pid slug heading content tokenCount d)).
Proof.
  intros ((Hnd & Hseq & Hfk) & Hcomp & (p & Hp & Hpid) & Hnone).
  unfold pending, consistent, complete. simpl. split_and!; try done.
  - apply Forall_app. split; [done|]. apply Forall_singleton. simpl. eauto.
  - apply Forall_forall. intros q Hq Hsum.
    apply Forall_app. split.
    + unfold complete in Hcomp. rewrite Forall_forall in Hcomp. by apply Hcomp.
    + apply Forall_singleton. simpl. intros Hid. exfalso. apply Hsum.
      rewrite Forall_forall in Hnone. by apply Hnone.
  - eauto.
Qed.

(** Once the row has its embedding the loop is where it was. *)
Lemma create_section_indexing (pid : Z) slug heading content tokenCount (v : vector) (d : Db) :
  indexing pid d ->
  let '(s, d') := create_section pid slug heading content tokenCount d in
  indexing pid (with_sections (map (set_embedding (PageSection.id s) v) (page_sections d')) d').
Proof.
  intros [Hpend Hall].
  pose proof (create_section_pending pid slug heading content tokenCount d Hpend) as Hpend'.
  set (sd := create_section pid slug heading content tokenCount d) in *.
  rewrite (surjective_pairing sd).
  destruct Hpend' as (Hcons & Hcomp & Hex & Hnone).
  split; [split_and!|].
  - apply consistent_map_sections; [|done]. intros s. apply set_embedding_pageId.
  - apply complete_map_sections; [..|done]; intros s.
    + apply set_embedding_pageId.
    + apply set_embedding_keeps.
  - done.
  - done.
  - subst sd. simpl. rewrite map_app. apply Forall_app. split.
    + apply Forall_forall. intros s' Hs'.
      apply list_elem_of_In, in_map_iff in Hs' as (s & <- & Hs).
      rewrite set_embedding_pageId. intros Hpid. apply set_embedding_keeps.
      rewrite Forall_forall in Hall. by apply Hall; [apply list_elem_of_In|].
    + apply Forall_singleton. unfold set_embedding. simpl.
      by rewrite Z.eqb_refl.
Qed.

(** The checksum may be written when every section has its embedding. *)
Lemma set_checksum_valid (pid : Z) (c : string) (d : Db) :
  indexing pid d -> valid (with_pages (map (set_checksum pid c) (pages d)) d).
Proof.
  intros [(Hcons & Hcomp & _ & _) Hall]. split.
  - apply consistent_map_pages; [|done]. intros p. apply set_checksum_id.
  - apply complete_map_pages; [|done]. intros p Hp Hsum.
    rewrite set_checksum_id. split; [done|].
    unfold set_checksum in Hsum. destruct (page_has_id pid p) eqn:Hid; [|by left].
    right. apply page_has_id_true in Hid. by rewrite Hid.
Qed.

Lemma valid_set_parent (id : Z) (x : option Z) (d : Db) :
  valid d -> valid (with_pages (map (set_parent id x) (pages d)) d).
Proof.
  intros [? ?]. split; [by apply consistent_set_parent|by apply complete_set_parent].
Qed.

Lemma valid_delete_sections (pid : Z) (d : Db) :
  valid d -> valid (delete_sections pid d).
Proof.
  intros [? ?]. split; [by apply consistent_delete_sections|by apply complete_delete_sections].
Qed.

(** *** Looking a page up after a write *)

Lemma find_map {A} (f : A -> bool) (g : A -> A) (l : list A) :
  (forall x, f (g x) = f x) ->
  List.find f (map g l) = option_map g (List.find f l).
Proof.
  intros Hfg. induction l as [|x l IH]; simpl; [done|].
  rewrite Hfg. by destruct (f x).
Qed.

Lemma find_snoc_None {A} (f : A -> bool) (l : list A) (x : A) :
  List.find f l = None -> List.find f (l ++ [x]) = if f x then Some x else None.
Proof.
  induction l as [|y l IH]; simpl; [done|]. by destruct (f y).
Qed.

Lemma reset_page_has_path path type source meta parent (p : Page.t) :
  page_has_path path (reset_page path type source meta parent p) = page_has_path path p.
Proof.
  unfold reset_page. destruct (page_has_path path p) eqn:H; [|done].
  unfold page_has_path. simpl. apply String.eqb_refl.
Qed.

Lemma upsert_page_find path type source meta parent (d d' : Db) (p : Page.t) :
  upsert_page path type source meta parent d = (p, d') ->
  find_page_by_path path d' = Some p /\ Page.checksum p = None /\
  page_sections d' = page_sections d /\
  (forall q, find_page_by_path path d = Some q -> Page.id p = Page.id q).
Proof.
  unfold upsert_page, find_page_by_path.
  destruct (List.find (page_has_path path) (pages d)) as [existing|] eqn:Hfind.
  - intros [= <- <-]. simpl. rewrite find_map by apply reset_page_has_path.
    rewrite Hfind. simpl. split_and!; [done| |done|].
    + apply find_In in Hfind as [_ Hpath]. unfold reset_page. by rewrite Hpath.
    + intros q [= <-]. apply reset_page_id.
  - intros [= <- <-]. simpl. rewrite find_snoc_None by done.
    unfold page_has_path. simpl. rewrite String.eqb_refl. by split_and!.
Qed.

Lemma find_page_by_id_In (d : Db) (p : Page.t) :
  In p (pages d) -> exists q, find_page_by_id (Page.id p) d = Some q.
Proof.
  intros Hin. unfold find_page_by_id.
  destruct (List.find _ _) as [q|] eqn:Hfind; [by eexists|].
  eapply find_none in Hfind; [|exact Hin].
  unfold page_has_id in Hfind. by rewrite Z.eqb_refl in Hfind.
Qed.

Lemma set_checksum_has_path (id : Z) (c path : string) (p : Page.t) :
  page_has_path path (set_checksum id c p) = page_has_path path p.
Proof. unfold set_checksum. by destruct (page_has_id id p). Qed.

(** After the update the row found under the path has the checksum. *)
Lemma set_checksum_find (path c : string) (d : Db) (p : Page.t) :
  find_page_by_path path d = Some p ->
  exists p', find_page_by_path path (with_pages (map (set_checksum (Page.id p) c) (pages d)) d)
             = Some p' /\
             Page.checksum p' = Some c /\ Page.id p' = Page.id p.
Proof.
  unfold find_page_by_path. simpl. intros Hfind.
  rewrite find_map by (intros; apply set_checksum_has_path). rewrite Hfind. simpl.
  eexists. split; [done|]. unfold set_checksum, page_has_id. by rewrite Z.eqb_refl.
Qed.

Lemma upsert_page_no_sections path type source meta parent (d d' : Db) (p : Page.t) :
  consistent d ->
  (forall existing, find_page_by_path path d = Some existing ->
     Forall (fun s => PageSection.pageId s <> Page.id existing) (page_sections d)) ->
  upsert_page path type source meta parent d = (p, d') ->
  Forall (fun s => PageSection.pageId s <> Page.id p) (page_sections d') /\
  In p (pages d').
Proof.
  intros (Hnd & Hseq & Hfk) Hnone. unfold upsert_page.
  destruct (find_page_by_path path d) as [existing|] eqn:Hfind.
  - intros [= <- <-]. simpl. rewrite reset_page_id. split; [by apply Hnone|].
    apply in_map. by apply find_page_by_path_In in Hfind as [? _].
  - intros [= <- <-]. simpl. split; [|apply in_or_app; right; by left].
    apply Forall_forall. intros s Hs Hpid.
    rewrite Forall_forall in Hfk. rewrite Forall_forall in Hseq.
    destruct (Hfk s Hs) as (q & Hq & Hqs).
    apply list_elem_of_In, Hseq in Hq. lia.
Qed.

End StoreFacts.

(** ** Facts about the sync engine *)

Module IndexerFacts.
Import Path Walker Segmenter Store Effects Provider Indexer.
Import EffectsFacts ProviderFacts StoreFacts.

Ltac wp_pure :=
  first [apply wp_bind | apply wp_ret | apply wp_throw | apply wp_console_log
        | apply wp_try_catch | apply wp_finally].

Ltac trace_norm := simpl; repeat (rewrite <- app_assoc; simpl).

Section EngineFacts.
Variable fails : nat -> Call -> bool.
Variable readFile : string -> option string.
Variable processMdxForSearch : string -> option ProcessedMdx.
Variable embeddings_create : string -> EmbeddingResponse.

Local Abbreviation generateEmbedding := (generateEmbedding fails embeddings_create).
Local Abbreviation wp_generateEmbedding := (wp_generateEmbedding fails embeddings_create).
Local Abbreviation store_section := (store_section fails embeddings_create).
Local Abbreviation reindex := (reindex fails embeddings_create).
Local Abbreviation try_block := (try_block fails readFile processMdxForSearch embeddings_create).
Local Abbreviation index_source :=
  (index_source fails readFile processMdxForSearch embeddings_create).

(** *** The store stays valid *)

(** The lookup of a page by its path throws or answers with the row
    there is for a path that is defined. *)
Lemma wp_page_findUnique (path : option string)
    (Q : Outcome (option Page.t) -> World -> Prop) (w : World) :
  (forall e, Q (Throw e) (ticked w (PageFindUnique path) (db w))) ->
  (forall p, path = Some p ->
     Q (Return (find_page_by_path p (db w))) (ticked w (PageFindUnique path) (db w))) ->
  wp (page_findUnique fails path) Q w.
Proof.
  intros Hthrow Hret. unfold page_findUnique.
  apply wp_call; intros _; simpl; [apply Hthrow|].
  destruct path as [p|]; [by apply Hret|apply Hthrow].
Qed.

Lemma store_section_indexing (path : string) (page : Page.t) (s : DocSection) (w : World) :
  indexing (Page.id page) (db w) ->
  wp (store_section path page s)
     (fun r w' => match r with
                  | Return _ => indexing (Page.id page) (db w')
                  | Throw _ => valid (db w')
                  end) w.
Proof.
  intros Hidx. pose proof (indexing_valid _ _ Hidx) as Hvalid.
  unfold Indexer.store_section. apply wp_try_catch, wp_bind.
  apply wp_generateEmbedding.
  { intros e. simpl. by apply wp_bind, wp_console_log, wp_throw. }
  intros embedding _. simpl.
  apply wp_bind. unfold pageSection_create. apply wp_call; intros _; simpl.
  { by apply wp_bind, wp_console_log, wp_throw. }
  pose proof (create_section_pending (Page.id page) (slug s) (heading s) (content s)
                (tokens embedding) (db w) (proj1 Hidx)) as Hpend.
  pose proof (create_section_indexing (Page.id page) (slug s) (heading s) (content s)
                (tokens embedding) (vectors embedding) (db w) Hidx) as Hidx'.
  unfold executeRaw_set_embedding. apply wp_call; intros _; simpl.
  - apply wp_bind, wp_console_log, wp_throw. by eapply pending_valid.
  - exact Hidx'.
Qed.

Lemma reindex_valid (es : EmbeddingSource) (processed : ProcessedMdx)
    (existingPage : option (Page.t * option Page.t)) (w : World) :
  valid (db w) ->
  option_map fst existingPage = find_page_by_path (path es) (db w) ->
  wp (reindex es processed existingPage) (fun _ w' => valid (db w')) w.
Proof.
  intros Hvalid Hexisting. unfold Indexer.reindex.
  apply wp_bind.
  (* the sections of the page that is there are deleted *)
  assert (Hdel : forall Q : Outcome unit -> World -> Prop,
            (forall e w', valid (db w') -> Q (Throw e) w') ->
            (forall w', valid (db w') -> pages (db w') = pages (db w) ->
               (forall existing, find_page_by_path (path es) (db w) = Some existing ->
                  Forall (fun s => PageSection.pageId s <> Page.id existing)
                         (page_sections (db w'))) ->
               Q (Return tt) w') ->
            wp match existingPage with
               | Some (existing, _) =>
                   (run! console_log
                           ("[" +:+ path es +:+
                            "] Refresh flag set, removing old page sections and their embeddings")
                    in pageSection_deleteMany fails (Page.id existing))%js
               | None => ret tt
               end Q w).
  { intros Q Hthrow Hret. destruct existingPage as [[existing parent]|]; simpl in Hexisting.
    - apply wp_bind, wp_console_log. unfold pageSection_deleteMany.
      apply wp_call; intros _; simpl.
      + by apply Hthrow.
      + apply Hret; simpl; [by apply valid_delete_sections|done|].
        intros existing' Hfind. rewrite <- Hexisting in Hfind. injection Hfind as <-.
        apply delete_sections_none.
    - apply wp_ret, Hret; [done..|]. intros existing Hfind. by rewrite <- Hexisting in Hfind. }
  apply Hdel; clear Hdel; [done|]. intros w1 Hvalid1 Hpages1 Hnone.
  apply wp_bind. apply wp_page_findUnique; [intros ?; simpl; done|intros parentPath0 HparentPath0; simpl].
  set (parentPage := find_page_by_path parentPath0 _). clearbody parentPage.
  apply wp_bind. unfold page_upsert. apply wp_call; intros _; simpl; [done|].
  destruct (upsert_page _ _ _ _ _ (db w1)) as [page d2] eqn:Hupsert. simpl.
  destruct Hvalid1 as [Hcons1 Hcomp1].
  apply upsert_page_indexing in Hupsert as (Hidx & Hsum & Hpath & _); [|done..|].
  2: { intros existing Hfind. apply Hnone. unfold find_page_by_path in *.
       by rewrite <- Hpages1. }
  apply wp_bind, wp_console_log, wp_bind.
  apply (wp_for_of _ (fun w' => indexing (Page.id page) (db w'))); simpl; [| |done].
  - intros s w' _ Hw'. by apply store_section_indexing.
  - intros w3 Hidx3. unfold page_update_checksum. apply wp_call; intros _; simpl.
    + by eapply indexing_valid.
    + destruct (find_page_by_id _ _); simpl.
      * by apply set_checksum_valid.
      * by eapply indexing_valid.
Qed.

Lemma try_block_valid (shouldRefresh : option bool) (es : EmbeddingSource) (w : World) :
  valid (db w) ->
  wp (try_block shouldRefresh es) (fun _ w' => valid (db w')) w.
Proof.
  intros Hvalid. unfold Indexer.try_block, load.
  apply wp_bind, wp_bind, wp_call; intros _; simpl; [done|].
  destruct (readFile _); simpl; [|done].
  destruct (processMdxForSearch _) as [processed|]; [apply wp_ret|by apply wp_throw].
  simpl. apply wp_bind. unfold page_findUnique_with_parent.
  apply wp_call; intros _; simpl; [done|].
  destruct (find_page_by_path (path es) (db w)) as [existing|] eqn:Hfind; simpl.
  2: { by apply reindex_valid. }
  destruct (_ && _).
  2: { by apply reindex_valid. }
  destruct (bool_decide _); [by apply wp_ret|].
  apply wp_bind, wp_console_log, wp_bind.
  apply wp_page_findUnique; [intros ?; simpl; done|intros parentPath0 HparentPath0; simpl].
  unfold page_update_parent. apply wp_call; intros _; simpl; [done|].
  destruct (find_page_by_id _ _); simpl; [|done].
  by apply valid_set_parent.
Qed.

Lemma index_source_valid (shouldRefresh : option bool) (es : EmbeddingSource) (w : World) :
  valid (db w) ->
  wp (index_source shouldRefresh es) (fun _ w' => valid (db w')) w.
Proof.
  intros Hvalid. unfold Indexer.index_source.
  apply wp_finally, wp_try_catch.
  eapply wp_mono; [by apply try_block_valid|]. simpl.
  intros [[]|e] w' Hw'.
  - unfold disconnect. by apply wp_call; intros _; simpl.
  - apply wp_bind, wp_console_log, wp_console_log.
    unfold disconnect. by apply wp_call; intros _; simpl.
Qed.


(** *** The calls of one document *)

Lemma store_sections_calls (path : string) (page : Page.t) (sections : list DocSection) :
  forall w,
    wp (for_of sections (store_section path page))
       (fun r w' =>
          exists t,
            trace w' = trace w ++ t /\
            Forall (fun c => writes_checksum c = false) t /\
            (r = Return tt ->
             t = section_calls (Page.id page) (page_section_id_seq (db w)) sections)) w.
Proof.
  induction sections as [|s rest IH]; intros w; simpl.
  { apply wp_ret. exists []. by rewrite app_nil_r. }
  apply wp_bind. unfold Indexer.store_section at 1.
  apply wp_try_catch, wp_bind, wp_generateEmbedding.
  { intros e. simpl. apply wp_bind, wp_console_log, wp_throw. simpl.
    eexists. split; [done|]. split; [by repeat constructor|done]. }
  intros embedding _. simpl.
  apply wp_bind. unfold pageSection_create. apply wp_call; intros _; simpl.
  { apply wp_bind, wp_console_log, wp_throw. simpl. rewrite <- app_assoc.
    eexists. split; [done|]. split; [by repeat constructor|done]. }
  unfold executeRaw_set_embedding. apply wp_call; intros _; simpl.
  { apply wp_bind, wp_console_log, wp_throw. simpl. rewrite <- !app_assoc.
    eexists. split; [done|]. split; [by repeat constructor|done]. }
  eapply wp_mono; [apply IH|]. simpl.
  intros r w' (t & Ht & Hall & Hret). rewrite <- !app_assoc in Ht. simpl in Ht.
  eexists. split; [exact Ht|]. split; [by repeat constructor|].
  intros Hr. by rewrite Hret.
Qed.

Lemma checksum_last_reads (es : EmbeddingSource) (processed : ProcessedMdx)
    (next_id : Z) (t : list Call) :
  Forall (fun c => writes_checksum c = false) t ->
  checksum_last (path es) processed next_id t.
Proof.
  intros Hall. rewrite Forall_forall in Hall. split.
  - intros p c Hin. apply list_elem_of_In, Hall in Hin. done.
  - intros i c Hin. apply list_elem_of_In, Hall in Hin. done.
Qed.

Lemma checksum_last_upsert (es : EmbeddingSource) (processed : ProcessedMdx)
    (next_id : Z) (pre t : list Call) :
  Forall (fun c => writes_checksum c = false) pre ->
  Forall (fun c => writes_checksum c = false) t ->
  checksum_last (path es) processed next_id (pre ++ PageUpsert (path es) None :: t).
Proof.
  intros Hpre Ht. rewrite Forall_forall in Hpre, Ht. split.
  - intros p c Hin. apply in_app_or in Hin as [Hin|[Hin|Hin]].
    + apply list_elem_of_In, Hpre in Hin. done.
    + congruence.
    + apply list_elem_of_In, Ht in Hin. done.
  - intros i c Hin. apply in_app_or in Hin as [Hin|[Hin|Hin]].
    + apply list_elem_of_In, Hpre in Hin. done.
    + done.
    + apply list_elem_of_In, Ht in Hin. done.
Qed.

Lemma section_calls_quiet (pageId next_id : Z) (sections : list DocSection) :
  Forall (fun c => writes_checksum c = false) (section_calls pageId next_id sections).
Proof.
  revert next_id. induction sections as [|s rest IH]; intros next_id; simpl;
    repeat constructor. apply IH.
Qed.

Lemma checksum_last_done (es : EmbeddingSource) (processed : ProcessedMdx)
    (next_id i : Z) (pre : list Call) :
  Forall (fun c => writes_checksum c = false) pre ->
  checksum_last (path es) processed next_id
    (pre ++ PageUpsert (path es) None
         :: section_calls i next_id (sections processed)
         ++ [PageUpdateChecksum i (checksum processed)]).
Proof.
  intros Hpre. pose proof (section_calls_quiet i next_id (sections processed)) as Hmid.
  pose proof Hpre as Hpre'. rewrite Forall_forall in Hpre, Hmid. split.
  - intros p c Hin. apply in_app_or in Hin as [Hin|[Hin|Hin]].
    + apply list_elem_of_In, Hpre in Hin. done.
    + congruence.
    + apply in_app_or in Hin as [Hin|[Hin|[]]]; [|done].
      apply list_elem_of_In, Hmid in Hin. done.
  - intros j c Hin. apply in_app_or in Hin as [Hin|[Hin|Hin]].
    + apply list_elem_of_In, Hpre in Hin. done.
    + done.
    + apply in_app_or in Hin as [Hin|[Hin|[]]].
      * apply list_elem_of_In, Hmid in Hin. done.
      * injection Hin as <- <-. by exists pre.
Qed.

Lemma reindex_calls (es : EmbeddingSource) (processed : ProcessedMdx)
    (existingPage : option (Page.t * option Page.t)) (w : World) :
  wp (reindex es processed existingPage)
     (fun _ w' =>
        exists pre t,
          trace w' = trace w ++ pre ++ t /\
          Forall (fun c => writes_checksum c = false) pre /\
          (t = [] \/
           (exists mid, t = PageUpsert (path es) None :: mid /\
                        Forall (fun c => writes_checksum c = false) mid) \/
           (exists i, t = PageUpsert (path es) None
                          :: section_calls i (page_section_id_seq (db w))
                               (sections processed)
                          ++ [PageUpdateChecksum i (checksum processed)]))) w.
Proof.
  unfold Indexer.reindex. apply wp_bind.
  assert (Hdel : forall Q : Outcome unit -> World -> Prop,
            (forall e w' pre, trace w' = trace w ++ pre ->
               Forall (fun c => writes_checksum c = false) pre -> Q (Throw e) w') ->
            (forall w' pre, trace w' = trace w ++ pre ->
               Forall (fun c => writes_checksum c = false) pre ->
               page_section_id_seq (db w') = page_section_id_seq (db w) ->
               Q (Return tt) w') ->
            wp match existingPage with
               | Some (existing, _) =>
                   (run! console_log
                           ("[" +:+ path es +:+
                            "] Refresh flag set, removing old page sections and their embeddings")
                    in pageSection_deleteMany fails (Page.id existing))%js
               | None => ret tt
               end Q w).
  { intros Q Hthrow Hret. destruct existingPage as [[existing parent]|].
    - apply wp_bind, wp_console_log. unfold pageSection_deleteMany.
      apply wp_call; intros _; simpl.
      + eapply Hthrow; simpl; [done|by repeat constructor].
      + eapply Hret; simpl; [done|by repeat constructor|done].
    - apply wp_ret. apply (Hret w []); [by rewrite app_nil_r|constructor|done]. }
  apply Hdel; clear Hdel.
  { intros e w1 pre Ht Hpre. exists pre, []. rewrite app_nil_r. auto. }
  intros w1 pre Ht Hpre Hseq.
  apply wp_bind. apply wp_page_findUnique; [intros e0; simpl|intros parentPath0 HparentPath0; simpl].
  { exists (pre ++ [PageFindUnique (parentPath es)]), []. rewrite app_nil_r, Ht, <- app_assoc.
    split; [done|]. split; [|by left]. apply Forall_app. by repeat constructor. }
  set (parentPage := find_page_by_path parentPath0 _). clearbody parentPage.
  assert (Hpre' : Forall (fun c => writes_checksum c = false)
                    (pre ++ [PageFindUnique (parentPath es)])).
  { apply Forall_app. by repeat constructor. }
  apply wp_bind. unfold page_upsert. apply wp_call; intros _; simpl.
  { exists (pre ++ [PageFindUnique (parentPath es)]), [PageUpsert (path es) None].
    rewrite Ht, <- !app_assoc. split; [done|]. split; [done|].
    right; left. eexists. split; [done|constructor]. }
  destruct (upsert_page _ _ _ _ _ (db w1)) as [page d2] eqn:Hupsert. simpl.
  assert (Hseq2 : page_section_id_seq d2 = page_section_id_seq (db w)).
  { rewrite <- Hseq. unfold upsert_page in Hupsert.
    destruct (find_page_by_path _ _); by injection Hupsert as <- <-. }
  apply wp_bind, wp_console_log, wp_bind.
  eapply wp_mono; [apply store_sections_calls|]. simpl.
  intros r w3 (t & Ht3 & Hquiet & Hret). rewrite Ht, Hseq2 in *. clear Ht.
  destruct r as [[]|e].
  - specialize (Hret eq_refl). subst t.
    unfold page_update_checksum. apply wp_call; intros _; simpl.
    + exists (pre ++ [PageFindUnique (parentPath es)]). eexists.
      split; [|split; [done|]].
      2: { right; right. by exists (Page.id page). }
      rewrite Ht3. repeat (rewrite <- app_assoc; simpl). done.
    + exists (pre ++ [PageFindUnique (parentPath es)]). eexists.
      split; [|split; [done|]].
      2: { right; right. by exists (Page.id page). }
      rewrite Ht3. repeat (rewrite <- app_assoc; simpl). done.
  - exists (pre ++ [PageFindUnique (parentPath es)]), (PageUpsert (path es) None :: t).
    split; [|split; [done|]].
    2: { right; left. by eexists. }
    rewrite Ht3. repeat (rewrite <- app_assoc; simpl). done.
Qed.


(** The calls of the [try] block: the file is read first. *)
Lemma try_block_calls (shouldRefresh : option bool) (es : EmbeddingSource) (w : World) :
  wp (try_block shouldRefresh es)
     (fun _ w' =>
        exists t,
          trace w' = trace w ++ ReadFile (filePath es) :: t /\
          (Forall (fun c => writes_checksum c = false) t \/
           exists contents processed,
             readFile (filePath es) = Some contents /\
             processMdxForSearch contents = Some processed /\
             checksum_last (path es) processed (page_section_id_seq (db w))
               (ReadFile (filePath es) :: t))) w.
Proof.
  unfold Indexer.try_block, load.
  apply wp_bind, wp_bind, wp_call; intros _; simpl.
  { exists []. split; [done|]. left. constructor. }
  destruct (readFile _) as [contents|] eqn:Hread; simpl.
  2: { exists []. split; [done|]. left. constructor. }
  destruct (processMdxForSearch _) as [processed|] eqn:Hprocess;
    [apply wp_ret|apply wp_throw]; simpl.
  2: { exists []. split; [done|]. left. constructor. }
  apply wp_bind. unfold page_findUnique_with_parent.
  apply wp_call; intros _; simpl.
  { trace_norm. eexists. split; [done|]. left. by repeat constructor. }
  match goal with
  | |- wp _ ?Q ?W =>
      assert (Hre : forall existingPage, wp (reindex es processed existingPage) Q W)
  end.
  { intros existingPage. eapply wp_mono; [apply reindex_calls|]. simpl.
    intros _ w' (pre & t & Ht & Hpre & Hcases).
    exists (PageFindUnique (Some (path es)) :: pre ++ t).
    split; [rewrite Ht; by repeat (rewrite <- app_assoc; simpl)|].
    assert (Hpre' : Forall (fun c => writes_checksum c = false)
                      (ReadFile (filePath es) :: PageFindUnique (Some (path es)) :: pre)).
    { by repeat constructor. }
    destruct Hcases as [->|[(mid & -> & Hmid)|(i & ->)]].
    - left. rewrite app_nil_r. by constructor.
    - right. exists contents, processed. split; [done|]. split; [done|].
      by apply (checksum_last_upsert es processed _
                  (ReadFile (filePath es) :: PageFindUnique (Some (path es)) :: pre) mid).
    - right. exists contents, processed. split; [done|]. split; [done|].
      by apply (checksum_last_done es processed _ i
                  (ReadFile (filePath es) :: PageFindUnique (Some (path es)) :: pre)). }
  destruct (find_page_by_path (path es) (db w)) as [existing|]; simpl; [|apply Hre].
  destruct (_ && _); [|apply Hre].
  destruct (bool_decide _).
  { apply wp_ret. trace_norm. eexists. split; [done|]. left. by repeat constructor. }
  apply wp_bind, wp_console_log, wp_bind.
  apply wp_page_findUnique; [intros e0; simpl|intros parentPath0 HparentPath0; simpl].
  { trace_norm. eexists. split; [done|]. left.
    by repeat constructor. }
  unfold page_update_parent. apply wp_call; intros _; simpl.
  { trace_norm. eexists. split; [done|]. left.
    by repeat constructor. }
  trace_norm. eexists. split; [done|]. left. by repeat constructor.
Qed.


(** *** One turn of the loop *)

(** The handler and the [finally] block leave the store as the [try]
    block left it; the turn throws only when [$disconnect] does. *)
Lemma index_source_unfold (shouldRefresh : option bool) (es : EmbeddingSource) (w : World) :
  let w1 := snd (try_block shouldRefresh es w) in
  let w2 := snd (index_source shouldRefresh es w) in
  db w2 = db w1 /\
  trace w2 = trace w1 ++ [Disconnect] /\
  fst (index_source shouldRefresh es w)
  = if fails (clock w1) Disconnect then Throw (CallFailed Disconnect) else Return tt.
Proof.
  unfold Indexer.index_source, finally, try_catch, disconnect, call, bind, console_error,
    console_log.
  destruct (try_block shouldRefresh es w) as [[[]|e] w1]; simpl;
    by destruct (fails (clock w1) Disconnect).
Qed.

Lemma index_sources_valid (shouldRefresh : option bool) (sources : list EmbeddingSource) :
  forall w, valid (db w) ->
    valid (db (snd (for_of sources (index_source shouldRefresh) w))).
Proof.
  intros w Hvalid.
  apply (wp_for_of (index_source shouldRefresh) (fun w' => valid (db w'))
           (fun _ w' => valid (db w')) sources); [|done..].
  intros es w' _ Hw'. eapply wp_mono; [by apply index_source_valid|].
  by intros [[]|e].
Qed.

(** C1, as amended. Whatever calls fail, the engine keeps the
    constraints of the schema together with this: a page whose checksum
    is not null has an embedding on every one of its section rows. (The
    converse is not kept: after a failure the rows written so far may
    all have their embeddings while the checksum is null.) Among the
    calls of a document, an upsert writes a null checksum, and the
    checksum is written with the freshly computed value as the last
    call only, after the upsert and the calls of every section. *)
Theorem checksum_implies_embeddings :
  (forall (shouldRefresh : option bool) (sources : list EmbeddingSource) (w : World),
     valid (db w) ->
     valid (db (snd (for_of sources (index_source shouldRefresh) w)))) /\
  (forall (shouldRefresh : option bool) (es : EmbeddingSource) (w : World),
     exists t,
       trace (snd (try_block shouldRefresh es w)) = trace w ++ t /\
       (forall p c, In (PageUpsert p c) t -> c = None) /\
       (forall i c, In (PageUpdateChecksum i c) t ->
          exists contents processed pre,
            readFile (filePath es) = Some contents /\
            processMdxForSearch contents = Some processed /\
            c = checksum processed /\
            t = pre ++ PageUpsert (path es) None
                    :: section_calls i (page_section_id_seq (db w)) (sections processed)
                    ++ [PageUpdateChecksum i c] /\
            Forall (fun c => writes_checksum c = false) pre)).
Proof.
  split.
  - intros shouldRefresh sources w. apply index_sources_valid.
  - intros shouldRefresh es w.
    destruct (try_block_calls shouldRefresh es w) as (t & Ht & Hcases).
    exists (ReadFile (filePath es) :: t). split; [done|].
    destruct Hcases as [Hquiet|(contents & processed & Hread & Hprocess & Hup & Hlast)].
    + assert (Hall : Forall (fun c => writes_checksum c = false)
                       (ReadFile (filePath es) :: t)) by by constructor.
      rewrite Forall_forall in Hall. split.
      * intros p c Hin. apply list_elem_of_In, Hall in Hin. done.
      * intros i c Hin. apply list_elem_of_In, Hall in Hin. done.
    + split; [done|]. intros i c Hin.
      destruct (Hlast i c Hin) as (pre & Hshape & Hc & Hpre).
      by exists contents, processed, pre.
Qed.


(** *** Failures *)

Lemma store_section_pages (path : string) (page : Page.t) (s : DocSection) (w : World) :
  wp (store_section path page s) (fun _ w' => pages (db w') = pages (db w)) w.
Proof.
  unfold Indexer.store_section. apply wp_try_catch, wp_bind, wp_generateEmbedding.
  { intros e. simpl. by apply wp_bind, wp_console_log, wp_throw. }
  intros embedding _. simpl.
  apply wp_bind. unfold pageSection_create. apply wp_call; intros _; simpl.
  { by apply wp_bind, wp_console_log, wp_throw. }
  unfold executeRaw_set_embedding. apply wp_call; intros _; simpl; [|done].
  by apply wp_bind, wp_console_log, wp_throw.
Qed.

Lemma index_sources_continue (shouldRefresh : option bool) (sources : list EmbeddingSource) :
  (forall n, fails n Disconnect = false) ->
  forall w,
    fst (for_of sources (index_source shouldRefresh) w) = Return tt /\
    exists t,
      trace (snd (for_of sources (index_source shouldRefresh) w)) = trace w ++ t /\
      Forall (fun es => In (ReadFile (filePath es)) t) sources.
Proof.
  intros Hdisconnect. induction sources as [|es rest IH]; intros w; simpl.
  { split; [done|]. exists []. by rewrite app_nil_r. }
  destruct (index_source_unfold shouldRefresh es w) as (_ & Htrace & Hout).
  destruct (try_block_calls shouldRefresh es w) as (t1 & Ht1 & _).
  rewrite Hdisconnect in Hout. unfold bind.
  destruct (index_source shouldRefresh es w) as [o w1]. simpl in *. subst o.
  destruct (IH w1) as (Hrest & t & Ht & Hall). split; [done|].
  exists ((ReadFile (filePath es) :: t1) ++ [Disconnect] ++ t).
  split.
  - rewrite Ht, Htrace, Ht1. by repeat (rewrite <- app_assoc; simpl).
  - constructor; [by left|]. eapply Forall_impl; [exact Hall|]. simpl.
    intros es' Hin. right. apply in_or_app. right. by right.
Qed.

(** C2. When the checksum of a document is the one stored for its page
    and no refresh is asked for, the turn of the loop deletes no section,
    inserts none and does not call the provider, whatever calls fail; the
    checksums of all pages stay as they are. The one write there can be
    is the update of the parent link of that page, made only when the path
    of the stored parent is not the parent path of the document. *)
Theorem unchanged_document_untouched (shouldRefresh : option bool)
    (es : EmbeddingSource) (w : World) (contents : string) (processed : ProcessedMdx)
    (existing : Page.t) :
  readFile (filePath es) = Some contents ->
  processMdxForSearch contents = Some processed ->
  find_page_by_path (path es) (db w) = Some existing ->
  Page.checksum existing = Some (checksum processed) ->
  not_refresh shouldRefresh = true ->
  let w' := snd (index_source shouldRefresh es w) in
  page_sections (db w') = page_sections (db w) /\
  map Page.checksum (pages (db w')) = map Page.checksum (pages (db w)) /\
  (pages (db w') = pages (db w) \/
   exists x, pages (db w') = map (set_parent (Page.id existing) x) (pages (db w))) /\
  (option_map Page.path (parent_of existing (db w)) = parentPath es -> db w' = db w) /\
  exists t,
    trace w' = trace w ++ t /\
    Forall (fun c => section_work c = false /\ writes_checksum c = false) t /\
    (forall i x, In (PageUpdateParent i x) t ->
       i = Page.id existing /\
       option_map Page.path (parent_of existing (db w)) <> parentPath es).
Proof.
  intros Hread Hprocess Hfind Hsum Hrefresh. simpl.
  destruct (index_source_unfold shouldRefresh es w) as (-> & -> & _).
  assert (Hquiet : forall (t : list Call) (P : Prop),
            Forall (fun c => match c with
                             | ReadFile _ | PageFindUnique _ => True
                             | PageUpdateParent i _ => i = Page.id existing /\ P
                             | _ => False
                             end) t ->
            Forall (fun c => section_work c = false /\ writes_checksum c = false)
                   (t ++ [Disconnect]) /\
            (forall i x, In (PageUpdateParent i x) (t ++ [Disconnect]) ->
               i = Page.id existing /\ P)).
  { intros t P Ht. split.
    - apply Forall_app. split; [|by repeat constructor].
      eapply Forall_impl; [exact Ht|]. by intros [].
    - intros i x Hin. apply in_app_or in Hin as [Hin|[Hin|[]]]; [|done].
      rewrite Forall_forall in Ht. apply list_elem_of_In, Ht in Hin. done. }
  cut (wp (try_block shouldRefresh es)
         (fun _ w1 =>
            page_sections (db w1) = page_sections (db w) /\
            (pages (db w1) = pages (db w) \/
             exists x, pages (db w1) = map (set_parent (Page.id existing) x) (pages (db w))) /\
            (option_map Page.path (parent_of existing (db w)) = parentPath es ->
             db w1 = db w) /\
            exists t,
              trace w1 = trace w ++ t /\
              Forall (fun c => match c with
                               | ReadFile _ | PageFindUnique _ => True
                               | PageUpdateParent i _ =>
                                   i = Page.id existing /\
                                   option_map Page.path (parent_of existing (db w))
                                   <> parentPath es
                               | _ => False
                               end) t) w).
  { unfold wp. intros (Hsec & Hpages & Hsame & t & Ht & Hall).
    split; [done|]. split.
    { destruct Hpages as [->|[x ->]]; [done|].
      rewrite map_map. apply map_ext. intros p. apply set_parent_checksum. }
    split; [done|]. split; [done|].
    exists (t ++ [Disconnect]). rewrite Ht, <- app_assoc. split; [done|].
    by apply Hquiet. }
  clear Hquiet. unfold Indexer.try_block, load.
  apply wp_bind, wp_bind, wp_call; intros _; simpl.
  { split_and!; [done|by left|done|]. eexists. split; [done|]. by repeat constructor. }
  rewrite Hread. simpl. rewrite Hprocess. apply wp_ret. simpl.
  apply wp_bind. unfold page_findUnique_with_parent.
  apply wp_call; intros _; trace_norm.
  { split_and!; [done|by left|done|]. eexists. split; [done|]. by repeat constructor. }
  rewrite Hfind. simpl. rewrite Hrefresh, Hsum. simpl.
  rewrite bool_decide_eq_true_2 by done.
  destruct (bool_decide _) eqn:Hparent.
  { apply wp_ret. trace_norm.
    split_and!; [done|by left|done|]. eexists. split; [done|]. by repeat constructor. }
  apply bool_decide_eq_false in Hparent.
  apply wp_bind, wp_console_log, wp_bind.
  apply wp_page_findUnique; [intros e0|intros parentPath0 HparentPath0]; trace_norm.
  { split_and!; [done|by left|done|]. eexists. split; [done|]. by repeat constructor. }
  unfold page_update_parent. apply wp_call; intros _; trace_norm.
  { split_and!; [done|by left|done|]. eexists. split; [done|]. by repeat constructor. }
  destruct (find_page_by_id _ _); trace_norm.
  - split_and!; [done|right; by eexists|done|]. eexists. split; [done|].
    by repeat constructor.
  - split_and!; [done|by left|done|]. eexists. split; [done|]. by repeat constructor.
Qed.


(** *** A document without sections *)

Lemma set_parent_has_path (id : Z) (x : option Z) (path : string) (p : Page.t) :
  page_has_path path (set_parent id x p) = page_has_path path p.
Proof. unfold set_parent. by destruct (page_has_id id p). Qed.

End EngineFacts.
End IndexerFacts.

(** ** Facts about sorting, continued *)

Section SortedFacts.
Context {A : Type} (le : A -> A -> bool).
Hypothesis le_total : forall a b, le a b = true \/ le b a = true.
Hypothesis le_trans : forall a b c, le a b = true -> le b c = true -> le a c = true.

Lemma insert_by_sorted (e : A) (l : list A) :
  StronglySorted (fun a b => le a b = true) l ->
  StronglySorted (fun a b => le a b = true) (insert_by le e l).
Proof.
  induction 1 as [|x l Hsorted IH Hx]; simpl.
  - by repeat constructor.
  - destruct (le e x) eqn:Hex.
    + constructor; [by constructor|]. constructor; [done|].
      eapply Forall_impl; [exact Hx|]. simpl. intros y Hy. by eapply le_trans.
    + constructor; [done|].
      assert (Hxe : le x e = true) by (destruct (le_total e x); congruence).
      apply Forall_forall. intros y Hy.
      rewrite (insert_by_Permutation le e l) in Hy.
      apply elem_of_cons in Hy as [->|Hy]; [done|].
      rewrite Forall_forall in Hx. by apply Hx.
Qed.

Lemma sort_by_sorted (l : list A) :
  StronglySorted (fun a b => le a b = true) (sort_by le l).
Proof.
  induction l as [|x l IH]; [constructor|]. by apply insert_by_sorted.
Qed.
End SortedFacts.

Lemma StronglySorted_weaken {A} (R R' : A -> A -> Prop) (l : list A) :
  (forall a b, R a b -> R' a b) -> StronglySorted R l -> StronglySorted R' l.
Proof.
  intros HR. induction 1 as [|x l _ IH Hx]; constructor; [done|].
  eapply Forall_impl; [exact Hx|]. apply HR.
Qed.

(** ** Facts about the query route *)

Module QueryFacts.
Import Store Effects Provider Query EffectsFacts ProviderFacts.

Section RouteFacts.
Variable fails : nat -> Call -> bool.
Variable embeddings_create : string -> EmbeddingResponse.
Variable cosine_distance : vector -> vector -> Q.

Local Abbreviation select_row := (select_row cosine_distance).
Local Abbreviation similar_sections := (similar_sections cosine_distance).
Local Abbreviation GET := (GET fails embeddings_create cosine_distance).

Lemma joined_In (d : Db) (ps : PageSection.t) (p : Page.t) :
  In (ps, p) (joined d) <->
  In ps (page_sections d) /\ In p (pages d) /\ PageSection.pageId ps = Page.id p.
Proof.
  unfold joined. rewrite in_flat_map. split.
  - intros (ps' & Hps & Hin). apply in_map_iff in Hin as (p' & [= -> ->] & Hp).
    apply filter_In in Hp as [Hp Hid]. apply Z.eqb_eq in Hid. done.
  - intros (Hps & Hp & Hid). exists ps. split; [done|].
    apply in_map, filter_In. split; [done|]. by apply Z.eqb_eq.
Qed.

(** The rows the [WHERE] clause lets through. *)
Lemma select_row_spec (v : vector) (ps : PageSection.t) (p : Page.t) (r : Row) :
  select_row v (ps, p) = Some r <->
  exists e c,
    PageSection.embedding ps = Some e /\ PageSection.content ps = Some c /\
    (1 # 2 < 1 - cosine_distance e v)%Q /\ (50 < String.length c)%nat /\
    r = mkRow (PageSection.id ps) (PageSection.pageId ps) (PageSection.heading ps)
          (Some c) (1 - cosine_distance e v) (Page.path p).
Proof.
  unfold Query.select_row.
  destruct (PageSection.embedding ps) as [e|], (PageSection.content ps) as [c|];
    try (split; [done|by intros (? & ? & ? & ? & _)]).
  destruct (Qle_bool (1 - cosine_distance e v) (1 # 2)) eqn:Hsim; simpl.
  - split; [done|]. intros (e' & c' & [= <-] & [= <-] & Hlt & _).
    apply Qle_bool_iff in Hsim. by apply Qlt_not_le in Hlt.
  - assert (Hlt : (1 # 2 < 1 - cosine_distance e v)%Q).
    { apply Qnot_le_lt. intros Hle. apply Qle_bool_iff in Hle. congruence. }
    destruct (50 <? String.length c)%nat eqn:Hlen.
    + apply Nat.ltb_lt in Hlen. split.
      * intros [= <-]. by exists e, c.
      * by intros (e' & c' & [= <-] & [= <-] & _ & _ & ->).
    + apply Nat.ltb_ge in Hlen. split; [done|].
      intros (e' & c' & _ & [= <-] & _ & Hlen' & _). lia.
Qed.

Lemma by_similarity_desc_total (a b : Row) :
  by_similarity_desc a b = true \/ by_similarity_desc b a = true.
Proof.
  unfold by_similarity_desc. rewrite !Qle_bool_iff.
  destruct (Qlt_le_dec (similarity a) (similarity b)) as [Hlt|Hle]; [|by left].
  right. by apply Qlt_le_weak.
Qed.

Lemma by_similarity_desc_trans (a b c : Row) :
  by_similarity_desc a b = true -> by_similarity_desc b c = true ->
  by_similarity_desc a c = true.
Proof.
  unfold by_similarity_desc. rewrite !Qle_bool_iff. intros Hab Hbc.
  by eapply Qle_trans.
Qed.

(** C8. The rows of the result are rows that qualify: a section with
    an embedding and a content, joined to the page that owns it and
    carrying its path, whose similarity (1 minus the cosine distance to
    the query) is strictly above 0.5 and whose content is strictly longer
    than 50 characters. They come in descending order of similarity, at
    most 15 of them; a qualifying row that is left out has a similarity no
    greater than any row kept, and none is left out when no more than 15
    qualify. *)
Theorem similar_sections_spec (v : vector) (d : Db) :
  let result := similar_sections v d in
  let qualifying := omap (select_row v) (joined d) in
  (forall r,
     In r qualifying <->
     exists ps p e c,
       In ps (page_sections d) /\ In p (pages d) /\
       PageSection.pageId ps = Page.id p /\
       PageSection.embedding ps = Some e /\ PageSection.content ps = Some c /\
       (1 # 2 < 1 - cosine_distance e v)%Q /\ (50 < String.length c)%nat /\
       r = mkRow (PageSection.id ps) (PageSection.pageId ps) (PageSection.heading ps)
             (Some c) (1 - cosine_distance e v) (Page.path p)) /\
  (length result <= 15)%nat /\
  StronglySorted (fun a b => (similarity b <= similarity a)%Q) result /\
  (exists left_out,
     result ++ left_out ≡ₚ qualifying /\
     (left_out <> [] -> length result = 15%nat) /\
     forall r r', In r result -> In r' left_out ->
                  (similarity r' <= similarity r)%Q) /\
  ((length qualifying <= 15)%nat -> result ≡ₚ qualifying).
Proof.
  intros result qualifying.
  set (sorted := sort_by by_similarity_desc qualifying).
  assert (Hsorted : StronglySorted (fun a b => (similarity b <= similarity a)%Q) sorted).
  { pose proof (sort_by_sorted by_similarity_desc by_similarity_desc_total
                  by_similarity_desc_trans qualifying) as H.
    eapply StronglySorted_weaken; [|exact H]. intros a b Hab.
    by apply Qle_bool_iff in Hab. }
  assert (Hsplit : result ++ drop 15 sorted = sorted) by apply take_drop.
  split_and!.
  - intros r. subst qualifying. rewrite <- list_elem_of_In, list_elem_of_omap. split.
    + intros ([ps p] & Hin & Hsel). apply list_elem_of_In, joined_In in Hin as (Hps & Hp & Hid).
      apply select_row_spec in Hsel as (e & c & He & Hc & Hsim & Hlen & ->).
      by exists ps, p, e, c.
    + intros (ps & p & e & c & Hps & Hp & Hid & He & Hc & Hsim & Hlen & ->).
      exists (ps, p). split.
      * by apply list_elem_of_In, joined_In.
      * apply select_row_spec. by exists e, c.
  - subst result. unfold Query.similar_sections. rewrite length_take. lia.
  - rewrite <- Hsplit in Hsorted. by apply StronglySorted_app_1_l in Hsorted.
  - exists (drop 15 sorted). split_and!.
    + rewrite Hsplit. apply sort_by_Permutation.
    + intros Hne. subst result. unfold Query.similar_sections. fold qualifying sorted.
      rewrite length_take. destruct (decide (15 <= length sorted)%nat); [lia|].
      rewrite drop_ge in Hne by lia. done.
    + intros r r' Hr Hr'. rewrite <- Hsplit in Hsorted.
      eapply (StronglySorted_app_1_elem_of _ _ _ r r') in Hsorted;
        [done|by apply list_elem_of_In..].
  - intros Hlen. subst result. unfold Query.similar_sections. fold qualifying sorted.
    rewrite take_ge; [apply sort_by_Permutation|].
    unfold sorted. by rewrite sort_by_Permutation.
Qed.

(** C9. A request whose query is absent or empty is answered with the
    client error 400 and leaves the world as it is: nothing is logged and
    no call is made, to the embedding provider or to the store. *)
Theorem empty_query_rejected (w : World) :
  GET None w = (Return (json (ErrorBody "No query provided") 400), w) /\
  GET (Some "") w = (Return (json (ErrorBody "No query provided") 400), w).
Proof. split; reflexivity. Qed.

(** A query that is not empty is sent to the provider first. *)
Lemma GET_calls_provider (q : string) (w : World) :
  q <> "" ->
  exists t, trace (snd (GET (Some q) w))
            = trace w ++ EmbeddingsCreate (replace_newlines q) :: t.
Proof.
  intros Hq.
  change (wp (GET (Some q))
            (fun _ w' => exists t,
                 trace w' = trace w ++ EmbeddingsCreate (replace_newlines q) :: t) w).
  unfold Query.GET. destruct q as [|a q]; [done|].
  apply wp_try_catch, wp_bind, wp_generateEmbedding.
  { intros e. simpl. apply wp_bind, wp_console_log, wp_ret. simpl. by exists []. }
  intros embedding _. simpl. apply wp_bind. unfold queryRaw.
  apply wp_call; intros _; simpl.
  - apply wp_bind, wp_console_log, wp_ret. simpl. rewrite <- app_assoc. by eexists.
  - apply wp_ret. simpl. rewrite <- app_assoc. by eexists.
Qed.

End RouteFacts.
End QueryFacts.

(** ** The pipeline as a whole *)

Module PipelineFacts.
Import Path Walker Estree Mdast Segmenter Store Effects Provider Indexer.
Import Samples EngineSamples QuerySamples.
Import PathFacts WalkerFacts SegmenterFacts SplitFacts ProcessFacts StoreFacts IndexerFacts
  QueryFacts.

(** *** Parents *)

Lemma embeddingSources_In (entries : list WalkEntry) (es : EmbeddingSource) :
  In es (embeddingSources entries) ->
  exists entry,
    In entry entries /\
    filePath es = Walker.path entry /\ parentFilePath es = Walker.parentPath entry.
Proof.
  unfold embeddingSources. intros Hin.
  apply in_map_iff in Hin as (entry & <- & Hin).
  apply filter_In in Hin as [Hin _]. apply filter_In in Hin as [Hin _].
  by exists entry.
Qed.

(** The index of a directory is given itself as parent, and so is its
    page. *)
Lemma index_document_is_its_own_parent :
  exists entries es,
    walk WalkerSpec.posix_join sample_localeCompare sample_docs "docs" None
    = Some entries /\
    In es (embeddingSources entries) /\
    Indexer.parentPath es = Some (Indexer.path es).
Proof.
  eexists. exists sample_index. split; [reflexivity|]. split; [|reflexivity].
  left. reflexivity.
Qed.

(** A second run stores the link: the page of the index has its own id
    as parent. *)
Example index_page_links_to_itself :
  let w := snd (for_of [sample_index; sample_intro] (sample_index_source None) indexed_once) in
  option_map (fun p => (Page.id p, Page.parentPageId p))
    (find_page_by_path "docs/index" (db w))
  = Some (1%Z, Some 1%Z).
Proof. vm_compute. reflexivity. Qed.

(** *** Documents without sections *)

Section Pipeline.
Variable fails : nat -> Call -> bool.
Variable readFile : string -> option string.
Variable embeddings_create : string -> EmbeddingResponse.
Variable sha256_base64 : string -> string.
Variable fromMarkdown : string -> option Root.
Variable filter : Root -> (Content -> bool) -> option Root.
Variable toMarkdown : Root -> string.
Variable toString : Content -> string.
Variable Slugger : Type.
Variable new_slugger : Slugger.
Variable slugger_slug : Slugger -> string -> string * Slugger.

Local Abbreviation processMdxForSearch :=
  (processMdxForSearch sha256_base64 fromMarkdown filter toMarkdown toString
     Slugger new_slugger slugger_slug).
Local Abbreviation index_source :=
  (index_source fails readFile processMdxForSearch embeddings_create).

Lemma processMdxForSearch_checksum (text : string) (processed : ProcessedMdx) :
  processMdxForSearch text = Some processed ->
  checksum processed = sha256_base64 text.
Proof.
  unfold Segmenter.processMdxForSearch.
  destruct (fromMarkdown text) as [mdxTree|]; [|done].
  destruct (filter mdxTree not_mdx) as [mdTree|]; [|by intros [= <-]].
  destruct (map_sections _ _ _ _ _ _); [|done]. by intros [= <-].
Qed.

(** Nothing is left of a document when the filter returns no tree, or
    a tree without children. *)
Lemma processMdxForSearch_no_sections (text : string) (mdxTree : Root) :
  fromMarkdown text = Some mdxTree ->
  filter mdxTree not_mdx = None \/ filter mdxTree not_mdx = Some (u_root []) ->
  processMdxForSearch text
  = Some (mkProcessed (sha256_base64 text) (extractMetaExport mdxTree) []).
Proof.
  intros Hparse Hfilter. unfold Segmenter.processMdxForSearch. rewrite Hparse.
  by destruct Hfilter as [->| ->].
Qed.

End Pipeline.

(** *** The statements on the samples *)

(** When the request for the second embedding fails, the one section row
    of the page has its embedding and the checksum of the page is null:
    an embedding on every row does not make the checksum non-null. *)
Lemma null_checksum_with_all_embeddings :
  let d := db (snd (index_source eighth_call_fails sample_readFile
                      sample_processMdxForSearch sample_embeddings_create
                      None sample_intro sample_world)) in
  ~ (forall p, In p (pages d) ->
       (Page.checksum p <> None <->
        Forall (fun s => PageSection.pageId s = Page.id p ->
                         PageSection.embedding s <> None) (page_sections d))).
Proof.
  intros d Hiff.
  assert (Hd : exists p s,
             pages d = [p] /\ page_sections d = [s] /\ Page.checksum p = None /\
             PageSection.pageId s = Page.id p /\ PageSection.embedding s <> None).
  { vm_compute. eexists. eexists. by split_and!. }
  destruct Hd as (p & s & Hp & Hs & Hsum & _ & Hemb).
  apply (Hiff p); [rewrite Hp; by left| |done].
  rewrite Hs. by repeat constructor.
Qed.

(** A document that the parser rejects leaves the checksum of its page
    as an earlier run wrote it. *)
Lemma parse_failure_keeps_checksum :
  let run := index_source no_failures sample_readFile sample_processMdxForSearch
               sample_embeddings_create None sample_broken in
  fst (try_block no_failures sample_readFile sample_processMdxForSearch
         sample_embeddings_create None sample_broken indexed_world)
  = Throw (ParseFailed "docs/broken.mdx") /\
  option_map Page.checksum
    (find_page_by_path (Indexer.path sample_broken) (db (snd (run indexed_world))))
  = Some (Some "sha256:old").
Proof. split; vm_compute; reflexivity. Qed.

Lemma valid_sample_world : valid (db sample_world).
Proof. split; [split_and!|]; constructor. Qed.

Lemma checksum_implies_embeddings_sample :
  valid (db sample_world) /\
  valid (db (snd (for_of [sample_index; sample_intro]
                    (index_source eighth_call_fails sample_readFile
                       sample_processMdxForSearch sample_embeddings_create None)
                    sample_world))).
Proof.
  split; [apply valid_sample_world|].
  apply (proj1 (checksum_implies_embeddings eighth_call_fails sample_readFile
                  sample_processMdxForSearch sample_embeddings_create)).
  apply valid_sample_world.
Defined.

Lemma unchanged_document_untouched_sample :
  let w' := snd (sample_index_source None sample_intro indexed_once) in
  not_refresh None = true /\
  page_sections (db w') = page_sections (db indexed_once) /\
  map Page.checksum (pages (db w')) = map Page.checksum (pages (db indexed_once)).
Proof.
  split; [reflexivity|].
  destruct (unchanged_document_untouched no_failures sample_readFile
              sample_processMdxForSearch sample_embeddings_create None sample_intro
              indexed_once "guide"
              (mkProcessed "sha256:guide" (extractMetaExport sample_mdx_tree)
                 (sections (default (mkProcessed "" None [])
                              (sample_processMdxForSearch "guide"))))
              (Page.mk 2 (Some 1%Z) "docs/intro" (Some "sha256:guide")
                 (extractMetaExport sample_mdx_tree) (Some "markdown") (Some "guide")))
    as (Hsections & Hsums & _); [reflexivity..|].
  by split.
Defined.

Lemma similar_sections_spec_sample :
  let result :=
    Query.similar_sections sample_cosine_distance sample_query_vector sample_db in
  map Query.id result = [2%Z; 1%Z] /\
  (length result <= 15)%nat /\
  StronglySorted (fun a b => (Query.similarity b <= Query.similarity a)%Q) result.
Proof.
  split; [reflexivity|].
  destruct (similar_sections_spec sample_cosine_distance sample_query_vector sample_db)
    as (_ & Hlen & Hsorted & _).
  by split.
Defined.

End PipelineFacts.

(** ** Further properties of the paths *)

Module PathMore.
Import Path Chars PathFacts.

Lemma all_chars_app (f : ascii -> bool) (s t : string) :
  all_chars f (s +:+ t) = all_chars f s && all_chars f t.
Proof.
  induction s as [|a s IH]; simpl; [done|]. rewrite IH. by rewrite andb_assoc.
Qed.

Lemma replace_double_backslash_plain (s : string) :
  all_chars (fun c => negb (is_backslash c)) s = true ->
  replace_double_backslash s = s.
Proof.
  induction s as [|a t IH]; [done|]. simpl. intros H.
  apply andb_true_iff in H as [Ha Ht]. apply negb_true_iff in Ha.
  rewrite Ha. simpl. rewrite (IH Ht). by destruct t.
Qed.

Lemma remove_two_digits_dash_plain (s : string) :
  all_chars (fun c => negb (is_dash c)) s = true ->
  remove_two_digits_dash s = s.
Proof.
  induction s as [|a t IH]; [done|]. intros H.
  change (all_chars _ (String a t)) with
    (negb (is_dash a) && all_chars (fun c => negb (is_dash c)) t) in H.
  apply andb_true_iff in H as [_ Ht]. specialize (IH Ht).
  destruct t as [|b [|c rest]]; [done|done|].
  simpl in Ht. apply andb_true_iff in Ht as [_ Ht].
  apply andb_true_iff in Ht as [Hc _]. apply negb_true_iff in Hc.
  change (remove_two_digits_dash (String a (String b (String c rest))))
    with (if is_digit a && is_digit b && is_dash c
          then remove_two_digits_dash rest
          else String a (remove_two_digits_dash (String b (String c rest)))).
  rewrite Hc, andb_false_r. by rewrite IH.
Qed.

Lemma remove_at_end_unfold (suffix s : string) :
  remove_at_end suffix s =
  if String.eqb s suffix then EmptyString
  else match s with
       | EmptyString => EmptyString
       | String a t => String a (remove_at_end suffix t)
       end.
Proof. by destruct s. Qed.

Lemma length_append (s t : string) :
  String.length (s +:+ t) = (String.length s + String.length t)%nat.
Proof. induction s as [|a s IH]; simpl; [done|]. by rewrite IH. Qed.

(** A suffix that is there is removed, and nothing else. *)
Lemma remove_at_end_app (suffix s : string) :
  remove_at_end suffix (s +:+ suffix) = s.
Proof.
  induction s as [|a s IH].
  - rewrite remove_at_end_unfold. simpl. by rewrite String.eqb_refl.
  - rewrite remove_at_end_unfold.
    destruct (String.eqb (String a s +:+ suffix) suffix) eqn:Heq.
    + apply String.eqb_eq in Heq. apply (f_equal String.length) in Heq.
      rewrite length_append in Heq. simpl in Heq. lia.
    + simpl. by rewrite IH.
Qed.

(** A suffix that is not there leaves the string as it is. *)
Lemma remove_at_end_absent (suffix s : string) :
  ends_with suffix s = false -> remove_at_end suffix s = s.
Proof.
  induction s as [|a s IH]; rewrite ends_with_unfold, remove_at_end_unfold;
    intros H; apply orb_false_iff in H as [-> H]; [done|]. by rewrite IH.
Qed.

Lemma ends_with_split (suffix s : string) :
  ends_with suffix s = true -> exists pre, s = pre +:+ suffix.
Proof.
  induction s as [|a s IH]; rewrite ends_with_unfold; intros H;
    apply orb_true_iff in H as [H|H].
  - apply String.eqb_eq in H as <-. by exists "".
  - done.
  - apply String.eqb_eq in H as <-. by exists "".
  - destruct (IH H) as [pre ->]. by exists (String a pre).
Qed.

Lemma plain_no_backslash_index (s : string) :
  all_chars plain_char s = true -> ends_with backslash_index s = false.
Proof.
  intros Hs. destruct (ends_with backslash_index s) eqn:Hend; [|done].
  apply ends_with_split in Hend as [pre ->].
  rewrite all_chars_app in Hs. apply andb_true_iff in Hs as [_ Hs]. done.
Qed.

Lemma all_chars_impl (f g : ascii -> bool) (s : string) :
  (forall c, f c = true -> g c = true) -> all_chars f s = true -> all_chars g s = true.
Proof.
  intros Hfg. induction s as [|a s IH]; simpl; [done|]. intros H.
  apply andb_true_iff in H as [Ha Hs]. by rewrite (Hfg a Ha), IH.
Qed.

Lemma md_is_not_mdx (s pre : string) : s +:+ ".md" <> pre +:+ ".mdx".
Proof.
  revert pre. induction s as [|a s IH]; intros pre H.
  - by destruct pre as [|? [|? [|? [|? ?]]]].
  - destruct pre as [|b pre].
    + simpl in H. injection H as _ H. by destruct s as [|? [|? [|? [|? ?]]]].
    + simpl in H. injection H as _ H. by eapply IH.
Qed.

Lemma plain_passes (s : string) :
  all_chars plain_char s = true ->
  remove_two_digits_dash (replace_double_backslash s) = s.
Proof.
  intros Hs. rewrite replace_double_backslash_plain.
  - apply remove_two_digits_dash_plain. eapply all_chars_impl; [|exact Hs].
    intros c Hc. by apply andb_true_iff in Hc as [_ ?].
  - eapply all_chars_impl; [|exact Hs].
    intros c Hc. by apply andb_true_iff in Hc as [? _].
Qed.

(** X1. On a path without backslashes and dashes (a path with forward
    slashes and no ordering prefixes) [formatPath] does one thing only: it
    removes the extension [.mdx]. The extension [.md], which the discovery
    accepts too, stays, and so does everything else, a trailing [/index]
    included. *)
Theorem formatPath_plain (s : string) :
  all_chars plain_char s = true ->
  formatPath (s +:+ ".mdx") = s /\
  formatPath (s +:+ ".md") = s +:+ ".md" /\
  is_markdown_path (s +:+ ".md") = true /\
  (ends_with ".mdx" s = false -> formatPath s = s).
Proof.
  intros Hs.
  assert (Hext : forall ext, all_chars plain_char ext = true ->
            remove_two_digits_dash (replace_double_backslash (s +:+ ext)) = s +:+ ext).
  { intros ext Hext. apply plain_passes. by rewrite all_chars_app, Hs, Hext. }
  pose proof (plain_no_backslash_index s Hs) as Hindex.
  unfold formatPath. split_and!.
  - rewrite (Hext ".mdx" eq_refl), remove_at_end_app. by apply remove_at_end_absent.
  - rewrite (Hext ".md" eq_refl).
    assert (Hmdx : ends_with ".mdx" (s +:+ ".md") = false).
    { destruct (ends_with ".mdx" (s +:+ ".md")) eqn:Hend; [|done].
      apply ends_with_split in Hend as [pre Hpre]. by apply md_is_not_mdx in Hpre. }
    rewrite (remove_at_end_absent ".mdx") by done.
    apply remove_at_end_absent, plain_no_backslash_index.
    by rewrite all_chars_app, Hs.
  - unfold is_markdown_path. by rewrite ends_with_app.
  - intros Hend. rewrite (plain_passes s Hs).
    rewrite (remove_at_end_absent ".mdx") by done.
    by apply remove_at_end_absent.
Qed.

Lemma formatPath_plain_sample :
  all_chars plain_char "docs/guide/index" = true /\
  formatPath "docs/guide/index.mdx" = "docs/guide/index" /\
  formatPath "docs/guide/index.md" = "docs/guide/index.md".
Proof.
  split; [reflexivity|].
  destruct (formatPath_plain "docs/guide/index" eq_refl) as (Hmdx & Hmd & _).
  by split.
Defined.

(** *** Ordering prefixes *)

Lemma remove_two_digits_dash_cons (a : ascii) (t : string) :
  remove_two_digits_dash (String a t) =
  match t with
  | String b (String c rest) =>
      if is_digit a && is_digit b && is_dash c
      then remove_two_digits_dash rest
      else String a (remove_two_digits_dash t)
  | _ => String a (remove_two_digits_dash t)
  end.
Proof. by destruct t as [|b [|c rest]]. Qed.

Lemma digit_not_dash (d : ascii) : is_digit d = true -> is_dash d = false.
Proof.
  intros Hd. unfold is_dash. destruct (Ascii.eqb_spec d "-"%char) as [->|]; [|done].
  by vm_compute in Hd.
Qed.

(** A prefix is removed where it stands, after a piece without dashes. *)
Lemma remove_two_digits_dash_prefix (piece : string) (d1 d2 : ascii) (rest : string) :
  all_chars (fun c => negb (is_dash c)) piece = true ->
  is_digit d1 = true -> is_digit d2 = true ->
  remove_two_digits_dash (piece +:+ String d1 (String d2 (String "-"%char rest)))
  = piece +:+ remove_two_digits_dash rest.
Proof.
  intros Hpiece H1 H2. induction piece as [|a piece IH].
  - change ("" +:+ ?s) with s. rewrite remove_two_digits_dash_cons. by rewrite H1, H2.
  - change (String a piece +:+ ?s) with (String a (piece +:+ s)).
    change (all_chars _ (String a piece))
      with (negb (is_dash a) && all_chars (fun c => negb (is_dash c)) piece) in Hpiece.
    apply andb_true_iff in Hpiece as [_ Hpiece]. specialize (IH Hpiece).
    rewrite remove_two_digits_dash_cons, IH.
    destruct piece as [|b [|c piece]].
    + change ("" +:+ ?s) with s. cbv iota.
      by rewrite (digit_not_dash d2 H2), andb_false_r.
    + change (String b "" +:+ ?s) with (String b s). cbv iota.
      by rewrite (digit_not_dash d1 H1), andb_false_r.
    + change (String b (String c piece) +:+ ?s) with (String b (String c (piece +:+ s))).
      cbv iota.
      change (all_chars _ (String b (String c piece)))
        with (negb (is_dash b) &&
              (negb (is_dash c) && all_chars (fun c => negb (is_dash c)) piece)) in Hpiece.
      apply andb_true_iff in Hpiece as [_ Hpiece].
      apply andb_true_iff in Hpiece as [Hc _]. apply negb_true_iff in Hc.
      by rewrite Hc, andb_false_r.
Qed.

Lemma plain_no_dash (s : string) :
  all_chars plain_char s = true -> all_chars (fun c => negb (is_dash c)) s = true.
Proof.
  apply all_chars_impl. intros c Hc. by apply andb_true_iff in Hc as [_ ?].
Qed.

Lemma plain_no_backslash (s : string) :
  all_chars plain_char s = true -> all_chars (fun c => negb (is_backslash c)) s = true.
Proof.
  apply all_chars_impl. intros c Hc. by apply andb_true_iff in Hc as [? _].
Qed.

Lemma digit_not_backslash (d : ascii) : is_digit d = true -> is_backslash d = false.
Proof.
  intros Hd. unfold is_backslash.
  destruct (Ascii.eqb_spec d backslash) as [->|]; [|done]. by vm_compute in Hd.
Qed.

Lemma append_assoc' (a b c : string) : (a +:+ b) +:+ c = a +:+ (b +:+ c).
Proof.
  induction a as [|x a IH]; [done|].
  change (String x ((a +:+ b) +:+ c) = String x (a +:+ (b +:+ c))). by rewrite IH.
Qed.

Section NumberedFacts.
Import Numbered.

Lemma plain_piece_spec (piece : string) (d1 d2 : ascii) :
  plain_piece (piece, (d1, d2)) = true ->
  all_chars plain_char piece = true /\ is_digit d1 = true /\ is_digit d2 = true.
Proof.
  unfold plain_piece. simpl. intros H.
  apply andb_true_iff in H as [H H2]. by apply andb_true_iff in H as [H0 H1].
Qed.

Lemma numbered_no_backslash (pieces : list (string * (ascii * ascii))) (rest : string) :
  forallb plain_piece pieces = true ->
  all_chars (fun c => negb (is_backslash c)) rest = true ->
  all_chars (fun c => negb (is_backslash c)) (numbered pieces rest) = true.
Proof.
  intros Hpieces Hrest. induction pieces as [|[piece [d1 d2]] more IH]; [done|].
  cbn [forallb] in Hpieces. apply andb_true_iff in Hpieces as [Hp Hmore].
  apply plain_piece_spec in Hp as (Hpiece & H1 & H2).
  cbn [numbered]. rewrite all_chars_app, (plain_no_backslash piece Hpiece).
  change (all_chars ?f (String d1 (String d2 (String "-"%char ?s))))
    with (f d1 && (f d2 && (f "-"%char && all_chars f s))).
  cbv beta. rewrite (digit_not_backslash d1 H1), (digit_not_backslash d2 H2).
  by rewrite (IH Hmore).
Qed.

Lemma numbered_removed (pieces : list (string * (ascii * ascii))) (rest : string) :
  forallb plain_piece pieces = true ->
  remove_two_digits_dash (numbered pieces rest)
  = unnumbered pieces (remove_two_digits_dash rest).
Proof.
  intros Hpieces. induction pieces as [|[piece [d1 d2]] more IH]; [done|].
  cbn [forallb] in Hpieces. apply andb_true_iff in Hpieces as [Hp Hmore].
  apply plain_piece_spec in Hp as (Hpiece & H1 & H2).
  cbn [numbered unnumbered].
  rewrite remove_two_digits_dash_prefix by auto using plain_no_dash.
  by rewrite (IH Hmore).
Qed.

Lemma unnumbered_app (pieces : list (string * (ascii * ascii))) (rest ext : string) :
  unnumbered pieces (rest +:+ ext) = unnumbered pieces rest +:+ ext.
Proof.
  induction pieces as [|[piece d] more IH]; [done|].
  cbn [unnumbered]. by rewrite IH, append_assoc'.
Qed.

Lemma unnumbered_plain (pieces : list (string * (ascii * ascii))) (rest : string) :
  forallb plain_piece pieces = true ->
  all_chars plain_char rest = true ->
  all_chars plain_char (unnumbered pieces rest) = true.
Proof.
  intros Hpieces Hrest. induction pieces as [|[piece [d1 d2]] more IH]; [done|].
  cbn [forallb] in Hpieces. apply andb_true_iff in Hpieces as [Hp Hmore].
  apply plain_piece_spec in Hp as (Hpiece & _).
  cbn [unnumbered]. by rewrite all_chars_app, Hpiece, (IH Hmore).
Qed.

(** X15. [formatPath] removes the ordering prefixes: on a path made of
    pieces without backslashes and dashes, each followed by two digits and
    a dash, and a last such piece with the extension [.mdx], it returns
    the pieces alone, one after the other. *)
Theorem formatPath_numbered (pieces : list (string * (ascii * ascii))) (rest : string) :
  forallb plain_piece pieces = true ->
  all_chars plain_char rest = true ->
  formatPath (numbered pieces (rest +:+ ".mdx")) = unnumbered pieces rest.
Proof.
  intros Hpieces Hrest. unfold formatPath.
  rewrite replace_double_backslash_plain.
  2: { apply numbered_no_backslash; [done|].
       by rewrite all_chars_app, (plain_no_backslash rest Hrest). }
  rewrite numbered_removed by done.
  rewrite remove_two_digits_dash_plain.
  2: { by rewrite all_chars_app, (plain_no_dash rest Hrest). }
  rewrite unnumbered_app, remove_at_end_app.
  apply remove_at_end_absent, plain_no_backslash_index.
  by apply unnumbered_plain.
Qed.

End NumberedFacts.

Lemma formatPath_numbered_sample :
  formatPath "docs/01-intro/02-setup.mdx" = "docs/intro/setup".
Proof.
  apply (formatPath_numbered
           [("docs/", ("0"%char, "1"%char)); ("intro/", ("0"%char, "2"%char))] "setup");
    reflexivity.
Defined.

End PathMore.

(** ** Further properties of the walker *)

Module WalkerMore.
Import Path Chars Walker WalkerSpec PathFacts WalkerFacts PathMore.

Lemma append_assoc (a b c : string) : (a +:+ b) +:+ c = a +:+ (b +:+ c).
Proof.
  induction a as [|x a IH]; [done|].
  change (String x ((a +:+ b) +:+ c) = String x (a +:+ (b +:+ c))). by rewrite IH.
Qed.

Lemma promise_all_map_Some {A} (l : list (option A)) (xs : list A) :
  promise_all l = Some xs -> l = map Some xs.
Proof.
  revert xs. induction l as [|[y|] l IH]; intros xs; simpl; [by intros [= <-]| |done].
  destruct (promise_all l) as [ys|]; [|done]. intros [= <-]. simpl. by rewrite (IH ys).
Qed.

Lemma includes_In (x : string) (l : list string) : includes x l = true <-> In x l.
Proof.
  unfold includes. rewrite existsb_exists. split.
  - intros (y & Hy & Heq). by apply String.eqb_eq in Heq as <-.
  - intros Hin. exists x. split; [done|]. apply String.eqb_refl.
Qed.

Lemma way_Dir (n : fsnode) ds chs name : way n ds chs name -> exists es, n = Dir es.
Proof. destruct 1; eauto. Qed.

Lemma way_length (n : fsnode) ds chs name :
  way n ds chs name -> length chs = S (length ds).
Proof. induction 1; simpl; [done|]. by f_equal. Qed.

(** The last directory on the way holds the file. *)
Lemma way_last (n : fsnode) ds chs name :
  way n ds chs name -> exists es, chs !! length ds = Some es /\ In (name, File) es.
Proof. induction 1 as [es name Hin|es d child ds chs name Hin Hway IH]; [by exists es|done]. Qed.

Lemma proper_tree_Dir (es : list (string * fsnode)) :
  proper_tree (Dir es) = true ->
  Forall (fun fe => proper_name (fst fe) = true /\ proper_tree (snd fe) = true) es.
Proof.
  simpl. intros H. apply andb_true_iff in H as [Hnames Hchildren].
  rewrite forallb_forall in Hnames, Hchildren. apply List.Forall_forall.
  intros [f c] Hin. split.
  - apply Hnames. by apply (in_map fst) in Hin.
  - by apply Hchildren in Hin.
Qed.

Lemma way_proper (n : fsnode) ds chs name :
  way n ds chs name -> proper_tree n = true ->
  forallb proper_name ds = true /\ proper_name name = true.
Proof.
  induction 1 as [es name Hin|es d child ds chs name Hin Hway IH]; intros Hproper;
    apply proper_tree_Dir in Hproper; rewrite List.Forall_forall in Hproper.
  - by destruct (Hproper _ Hin).
  - destruct (Hproper _ Hin) as [Hd Hchild]. simpl in *.
    destruct (IH Hchild) as [-> ->]. by rewrite Hd.
Qed.

Section WalkMore.
Variable join : string -> string -> string.
Variable localeCompare : string -> string -> Z.

Local Abbreviation walk := (Walker.walk join localeCompare).
Local Abbreviation visit := (WalkerSpec.visit join localeCompare).
Local Abbreviation index_or := (WalkerSpec.index_or join).
Local Abbreviation along := (WalkerSpec.along join).
Local Abbreviation nearest_index := (WalkerSpec.nearest_index join).

Lemma walk_Dir (es : list (string * fsnode)) (dir : string) (parent : option string) :
  walk (Dir es) dir parent =
  match promise_all (map (visit dir (index_or dir parent es)) es) with
  | Some recursiveFiles => Some (sort_by_path localeCompare (concat recursiveFiles))
  | None => None
  end.
Proof. reflexivity. Qed.

Lemma walk_not_Dir (n : fsnode) (dir : string) (parent : option string) :
  (forall es, n <> Dir es) -> walk n dir parent = None.
Proof. destruct n; [done..|]. intros H. by destruct (H entries). Qed.

(** An entry of the result comes from the visit of an entry of the
    directory. *)
Lemma walk_Dir_In (es : list (string * fsnode)) (dir : string) (parent : option string)
    (entries : list WalkEntry) (e : WalkEntry) :
  walk (Dir es) dir parent = Some entries ->
  In e entries <->
  exists entry r, In entry es /\
                  visit dir (index_or dir parent es) entry = Some r /\ In e r.
Proof.
  rewrite walk_Dir. destruct (promise_all _) as [rs|] eqn:Hrs; [|done].
  intros [= <-]. apply promise_all_map_Some in Hrs.
  unfold sort_by_path. rewrite <- list_elem_of_In, elem_of_sort_by, list_elem_of_In, in_concat.
  split.
  - intros (r & Hr & He).
    apply (in_map Some) in Hr. rewrite <- Hrs in Hr.
    apply in_map_iff in Hr as (entry & Hvisit & Hentry). by exists entry, r.
  - intros (entry & r & Hentry & Hvisit & He). exists r. split; [|done].
    apply (in_map (visit dir (index_or dir parent es))) in Hentry.
    rewrite Hvisit, Hrs in Hentry.
    apply in_map_iff in Hentry as (r' & [= ->] & Hr'). done.
Qed.

(** When the walk of a directory succeeds, the visit of each of its
    entries did. *)
Lemma walk_Dir_visit (es : list (string * fsnode)) (dir : string) (parent : option string)
    (entries : list WalkEntry) (entry : string * fsnode) :
  walk (Dir es) dir parent = Some entries -> In entry es ->
  exists r, visit dir (index_or dir parent es) entry = Some r.
Proof.
  rewrite walk_Dir. destruct (promise_all _) as [rs|] eqn:Hrs; [|done].
  intros _ Hentry. apply promise_all_map_Some in Hrs.
  apply (in_map (visit dir (index_or dir parent es))) in Hentry.
  rewrite Hrs in Hentry. apply in_map_iff in Hentry as (r & <- & _). by exists r.
Qed.

Lemma along_snoc (dir : string) (names : list string) (name : string) :
  along dir (names ++ [name]) = join (along dir names) name.
Proof. unfold WalkerSpec.along. by rewrite foldl_app. Qed.

Lemma nearest_index_file (dir : string) (parent : option string)
    (es : list (string * fsnode)) :
  nearest_index dir parent [] [es] (index_or dir parent es).
Proof.
  unfold WalkerSpec.index_or. change (includes _ _) with (has_index es).
  destruct (has_index es) eqn:Hes.
  - right. exists 0%nat, es. split_and!; [done..| |done].
    intros [|k'] es' Hk' Hes'; [lia|done].
  - left. split; [by repeat constructor|done].
Qed.

(** The parent found from a directory inside is the parent found from
    outside. *)
Lemma nearest_index_down (dir : string) (parent : option string)
    (es : list (string * fsnode)) (d : string) (ds : list string)
    (chs : list (list (string * fsnode))) (p : option string) :
  nearest_index (join dir d) (index_or dir parent es) ds chs p ->
  nearest_index dir parent (d :: ds) (es :: chs) p.
Proof.
  unfold WalkerSpec.index_or. change (includes _ _) with (has_index es).
  intros [[Hnone ->]|(k & esk & Hk & Hidx & Hdeeper & ->)].
  - destruct (has_index es) eqn:Hes.
    + right. exists 0%nat, es. split_and!; [done..| |done].
      intros [|k'] es' Hk' Hes'; [lia|]. simpl in Hes'.
      by apply (proj1 (Forall_lookup _ _) Hnone k' es').
    + left. split; [by constructor|done].
  - right. exists (S k), esk. split_and!; [done..| |done].
    intros [|k'] es' Hk' Hes'; [lia|]. apply (Hdeeper k' es'); [lia|done].
Qed.

Lemma nearest_index_fun (dir : string) (parent : option string) (ds : list string)
    (chs : list (list (string * fsnode))) (p q : option string) :
  nearest_index dir parent ds chs p -> nearest_index dir parent ds chs q -> p = q.
Proof.
  intros [[Hn ->]|(k & es & Hk & Hi & Hd & ->)] [[Hn' ->]|(k' & es' & Hk' & Hi' & Hd' & ->)].
  - done.
  - pose proof (proj1 (Forall_lookup _ _) Hn k' es' Hk'). congruence.
  - pose proof (proj1 (Forall_lookup _ _) Hn' k es Hk). congruence.
  - destruct (lt_eq_lt_dec k k') as [[Hlt| ->]|Hlt]; [|done|].
    + pose proof (Hd k' es' Hlt Hk'). congruence.
    + pose proof (Hd' k es Hlt Hk). congruence.
Qed.

(** Every entry is a file at the end of a way, with the parent that
    belongs to the way. *)
Lemma walk_way_1 (n : fsnode) :
  forall dir parent entries e,
    walk n dir parent = Some entries -> In e entries ->
    exists ds chs name,
      way n ds chs name /\ path e = along dir (ds ++ [name]) /\
      nearest_index dir parent ds chs (parentPath e).
Proof.
  induction n as [ | | |es IH] using fsnode_nested_ind; intros dir parent entries e;
    try done.
  intros Hwalk He.
  apply (walk_Dir_In es dir parent entries e Hwalk) in He
    as ([file child] & r & Hentry & Hvisit & He).
  destruct child as [ | | |ces]; simpl in Hvisit.
  - injection Hvisit as <-. destruct He as [<-|[]].
    exists [], [es], file. split; [by constructor|]. split; [done|].
    apply nearest_index_file.
  - injection Hvisit as <-. destruct He.
  - done.
  - rewrite Forall_forall in IH. pose proof Hentry as Hentry'.
    apply list_elem_of_In in Hentry'.
    destruct (IH _ Hentry' _ _ _ _ Hvisit He) as (ds & chs & name & Hway & Hpath & Hnear).
    exists (file :: ds), (es :: chs), name. split; [by econstructor|]. split; [done|].
    by apply nearest_index_down.
Qed.

(** Every file at the end of a way is an entry. *)
Lemma walk_way_2 (n : fsnode) ds chs name :
  way n ds chs name ->
  forall dir parent entries,
    walk n dir parent = Some entries ->
    exists e,
      In e entries /\ path e = along dir (ds ++ [name]) /\
      nearest_index dir parent ds chs (parentPath e).
Proof.
  induction 1 as [es name Hin|es d child ds chs name Hin Hway IH];
    intros dir parent entries Hwalk.
  - exists (mkEntry (join dir name) (index_or dir parent es)).
    split; [|split; [done|apply nearest_index_file]].
    apply (walk_Dir_In es dir parent entries _ Hwalk).
    exists (name, File). eexists. split; [done|]. split; [done|]. by left.
  - destruct (walk_Dir_visit es dir parent entries (d, child) Hwalk Hin) as [r Hvisit].
    destruct (way_Dir _ _ _ _ Hway) as [ces ->]. simpl in Hvisit.
    destruct (IH _ _ _ Hvisit) as (e & He & Hpath & Hnear).
    exists e. split; [|split; [done|by apply nearest_index_down]].
    apply (walk_Dir_In es dir parent entries _ Hwalk).
    by exists (d, Dir ces), r.
Qed.

(** X2. The entries [walk] returns are the regular files below the
    directory, each once its way is given: the path of an entry is what
    [join] builds from the directory [walk] was started at through the
    names of the directories on the way and the name of the file, and its
    parent is the [index.mdx] of the last directory on that way that
    holds an entry of this name, or the parent [walk] was given when none
    does. *)
Theorem walk_way (n : fsnode) (dir : string) (parent : option string)
    (entries : list WalkEntry) :
  walk n dir parent = Some entries ->
  forall e,
    In e entries <->
    exists ds chs name,
      way n ds chs name /\ path e = along dir (ds ++ [name]) /\
      nearest_index dir parent ds chs (parentPath e).
Proof.
  intros Hwalk e. split; [by apply walk_way_1|].
  intros (ds & chs & name & Hway & Hpath & Hnear).
  destruct (walk_way_2 n ds chs name Hway dir parent entries Hwalk)
    as (e' & He' & Hpath' & Hnear').
  assert (e = e') as ->; [|done].
  destruct e as [p q], e' as [p' q']. simpl in *. f_equal; [congruence|].
  by eapply nearest_index_fun.
Qed.

Lemma promise_all_visits (f : string * fsnode -> option (list WalkEntry))
    (es : list (string * fsnode)) :
  Forall (fun entry => match f entry with
                       | Some r => no_broken (snd entry) = true /\
                                   length r = count_files (snd entry)
                       | None => no_broken (snd entry) = false
                       end) es ->
  match promise_all (map f es) with
  | Some rs => forallb (fun '(_, child) => no_broken child) es = true /\
               length (concat rs)
               = list_sum (map (fun '(_, child) => count_files child) es)
  | None => forallb (fun '(_, child) => no_broken child) es = false
  end.
Proof.
  induction 1 as [|[file child] es Hentry _ IH]; simpl; [done|].
  simpl in Hentry. destruct (f (file, child)) as [r|].
  - destruct Hentry as [-> Hr]. destruct (promise_all (map f es)) as [rs|]; simpl.
    + destruct IH as [-> Hrs]. split; [done|]. rewrite length_app. lia.
    + done.
  - by rewrite Hentry.
Qed.

(** X3. [walk] is rejected exactly when it is started at something that
    is not a directory or when the [stat] of some entry below it rejects:
    one unreadable entry costs the whole list. When it succeeds it returns
    one entry for every regular file below the directory, and none for what
    is neither a file nor a directory. *)
Theorem walk_succeeds (n : fsnode) :
  forall dir parent,
    match walk n dir parent with
    | Some entries =>
        (exists es, n = Dir es) /\ no_broken n = true /\
        length entries = count_files n
    | None => (forall es, n <> Dir es) \/ no_broken n = false
    end.
Proof.
  induction n as [ | | |es IH] using fsnode_nested_ind; intros dir parent;
    try (by left).
  rewrite walk_Dir.
  pose proof (promise_all_visits (visit dir (index_or dir parent es)) es) as Hall.
  destruct (promise_all _) as [rs|].
  - destruct Hall as [Hnb Hlen].
    + eapply Forall_impl; [exact IH|]. intros [file child] Hchild. simpl in *.
      destruct child as [ | | |ces]; try done.
      specialize (Hchild (join dir file) (index_or dir parent es)).
      destruct (Walker.walk _ _ _ _ _) as [r|].
      * by destruct Hchild as (_ & ? & ?).
      * by destruct Hchild as [Hchild|?]; [destruct (Hchild ces)|].
    + split; [by eexists|]. split; [done|].
      unfold sort_by_path. rewrite sort_by_Permutation. done.
  - right. apply Hall.
    eapply Forall_impl; [exact IH|]. intros [file child] Hchild. simpl in *.
    destruct child as [ | | |ces]; try done.
    specialize (Hchild (join dir file) (index_or dir parent es)).
    destruct (Walker.walk _ _ _ _ _) as [r|].
    + by destruct Hchild as (_ & ? & ?).
    + by destruct Hchild as [Hchild|?]; [destruct (Hchild ces)|].
Qed.

(** X4. When [localeCompare] is a total preorder, the entries [walk]
    returns are in ascending order of their paths. *)
Theorem walk_sorted (n : fsnode) (dir : string) (parent : option string)
    (entries : list WalkEntry) :
  (forall a b, (localeCompare a b <= 0)%Z \/ (localeCompare b a <= 0)%Z) ->
  (forall a b c, (localeCompare a b <= 0)%Z -> (localeCompare b c <= 0)%Z ->
                 (localeCompare a c <= 0)%Z) ->
  walk n dir parent = Some entries ->
  StronglySorted (fun a b => (localeCompare (path a) (path b) <= 0)%Z) entries.
Proof.
  intros Htotal Htrans. destruct n as [ | | |es]; try done.
  rewrite walk_Dir. destruct (promise_all _) as [rs|]; [|done]. intros [= <-].
  unfold sort_by_path.
  eapply StronglySorted_weaken;
    [|apply (sort_by_sorted (fun a b => (localeCompare (path a) (path b) <=? 0)%Z))].
  - intros a b Hab. by apply Z.leb_le in Hab.
  - intros a b. rewrite !Z.leb_le. apply Htotal.
  - intros a b c. rewrite !Z.leb_le. apply Htrans.
Qed.

End WalkMore.

Lemma nested_docs_walk :
  walk posix_join compare_lengths nested_docs "docs" None
  = Some [mkEntry "docs/index.mdx" (Some "docs/index.mdx");
          mkEntry "docs/intro.mdx" (Some "docs/index.mdx");
          mkEntry "docs/guide/index.mdx" (Some "docs/guide/index.mdx");
          mkEntry "docs/guide/notes.txt" (Some "docs/guide/index.mdx");
          mkEntry "docs/assets/logo.png" (Some "docs/index.mdx");
          mkEntry "docs/guide/routing.mdx" (Some "docs/guide/index.mdx")].
Proof. vm_compute. reflexivity. Qed.

Lemma walk_way_sample :
  exists entries,
    walk posix_join compare_lengths nested_docs "docs" None = Some entries /\
    In (mkEntry "docs/guide/routing.mdx" (Some "docs/guide/index.mdx")) entries /\
    In (mkEntry "docs/assets/logo.png" (Some "docs/index.mdx")) entries.
Proof.
  eexists. split; [apply nested_docs_walk|].
  pose proof (walk_way posix_join compare_lengths nested_docs "docs" None _
                nested_docs_walk) as Hway.
  split; apply Hway.
  - exists ["guide"]. eexists. exists "routing.mdx". split.
    + eapply way_dir; [right; right; by left|]. apply way_file. right. by left.
    + split; [reflexivity|]. right. exists 1%nat. eexists.
      split_and!; [reflexivity..| |reflexivity].
      intros [|[|k']] es' Hk' Hes'; [lia..|done].
  - exists ["assets"]. eexists. exists "logo.png". split.
    + eapply way_dir; [right; right; right; by left|]. apply way_file. by left.
    + split; [reflexivity|]. right. exists 0%nat. eexists.
      split_and!; [reflexivity..| |reflexivity].
      intros [|[|k']] es' Hk' Hes'; [lia| |done].
      by injection Hes' as <-.
Defined.

Lemma walk_succeeds_sample :
  exists entries,
    walk posix_join compare_lengths nested_docs "docs" None = Some entries /\
    length entries = 6%nat.
Proof.
  pose proof (walk_succeeds posix_join compare_lengths nested_docs "docs" None) as H.
  destruct (walk posix_join compare_lengths nested_docs "docs" None) as [entries|].
  - exists entries. split; [done|]. by destruct H as (_ & _ & ->).
  - by destruct H as [H|H]; [destruct (H _ eq_refl)|].
Defined.

Lemma compare_lengths_total (a b : string) :
  (compare_lengths a b <= 0)%Z \/ (compare_lengths b a <= 0)%Z.
Proof. unfold compare_lengths. lia. Qed.

Lemma walk_sorted_sample :
  exists entries,
    walk posix_join compare_lengths nested_docs "docs" None = Some entries /\
    StronglySorted (fun a b => (compare_lengths (path a) (path b) <= 0)%Z) entries.
Proof.
  eexists. split; [reflexivity|].
  apply (walk_sorted posix_join compare_lengths nested_docs "docs" None).
  - apply compare_lengths_total.
  - unfold compare_lengths. lia.
  - reflexivity.
Defined.

End WalkerMore.

(** ** Further properties of the segmenter *)

Module SegmenterMore.
Import Estree Mdast Segmenter Samples SluggerSpec.
Import SegmenterFacts SplitFacts ProcessFacts PathMore.

(** *** Metadata *)

Lemma getObjectFromExpression_snoc (properties : list ObjectMember) (p : ObjectMember) :
  getObjectFromExpression (properties ++ [p])
  = add_property (getObjectFromExpression properties) p.
Proof. unfold getObjectFromExpression. by rewrite foldl_app. Qed.

Lemma add_property_key (object : Meta) (p : ObjectMember) (k : string) :
  property_key p = Some k ->
  exists value, p = Property (Identifier k) value /\
                add_property object p !! k = Some (property_value value).
Proof.
  destruct p as [[name| | |] value|]; try done. simpl.
  destruct (String.eqb name "") eqn:Hname; [done|]. intros [= ->].
  exists value. split; [done|]. apply lookup_insert_eq.
Qed.

(** X5. The record [getObjectFromExpression] builds has a key exactly
    for the properties whose key is an identifier, and every value it
    holds is a truthy literal that some property gives to that key; a
    value that is not one leaves its key with [undefined]. *)
Theorem getObjectFromExpression_values (properties : list ObjectMember) (k : string) :
  (is_Some (getObjectFromExpression properties !! k) <->
   In (Some k) (map property_key properties)) /\
  (forall v, getObjectFromExpression properties !! k = Some (Some v) ->
     truthy v = true /\ In (Property (Identifier k) (Literal v)) properties).
Proof.
  induction properties as [|p properties [IHdom IHval]] using rev_ind.
  - split; [|done]. unfold getObjectFromExpression. simpl. rewrite lookup_empty.
    split; [by intros [? ?]|done].
  - rewrite getObjectFromExpression_snoc, map_app, in_app_iff. simpl.
    destruct (decide (property_key p = Some k)) as [Hkey|Hkey].
    + destruct (add_property_key (getObjectFromExpression properties) p k Hkey)
        as (value & -> & Hlookup).
      rewrite Hlookup. split.
      * split; [intros _; right; by left|by eexists].
      * intros v [= Hv]. destruct value as [|lit| |]; try done. simpl in Hv.
        destruct (truthy lit) eqn:Hlit; [|done]. injection Hv as ->.
        split; [done|]. apply in_or_app. right. by left.
    + rewrite add_property_other by done. split.
      * rewrite IHdom. split; [by left|]. by intros [?|[?|[]]].
      * intros v Hv. destruct (IHval v Hv) as [? ?]. split; [done|].
        apply in_or_app. by left.
Qed.

(** *** Splitting *)

Lemma split_step_nonempty (predicate : Content -> bool) (trees : list Root)
    (node : Content) :
  trees <> [] ->
  split_step predicate trees node <> [] /\
  length (split_step predicate trees node)
  = (length trees + if predicate node then 1 else 0)%nat.
Proof.
  intros Hne. unfold split_step.
  destruct (last trees) as [lastTree|] eqn:Hlast.
  - destruct (predicate node).
    + rewrite length_app. simpl. split; [|done]. by destruct trees.
    + rewrite length_alter. split; [|lia].
      intros Hnil. apply (f_equal length) in Hnil. rewrite length_alter in Hnil.
      by destruct trees.
  - apply last_None in Hlast. done.
Qed.

Lemma foldl_split_step_length (predicate : Content -> bool) (nodes : list Content) :
  forall trees, trees <> [] ->
    length (foldl (split_step predicate) trees nodes)
    = (length trees + length (List.filter predicate nodes))%nat.
Proof.
  induction nodes as [|node nodes IH]; intros trees Hne; simpl; [lia|].
  destruct (split_step_nonempty predicate trees node Hne) as [Hne' Hlen].
  rewrite IH, Hlen by done. destruct (predicate node); simpl; lia.
Qed.

(** X6. [splitTreeBy] gives no tree for a tree without children, and
    otherwise one tree for the first child and one more for every later
    child the predicate holds of. *)
Theorem splitTreeBy_length (tree : Root) (predicate : Content -> bool) :
  length (splitTreeBy tree predicate) =
  match root_children tree with
  | [] => 0%nat
  | _ :: rest => S (length (List.filter predicate rest))
  end.
Proof.
  unfold splitTreeBy. destruct (root_children tree) as [|x rest]; [done|].
  simpl. rewrite split_step_first. by rewrite foldl_split_step_length.
Qed.

(** *** Sections and slugs *)

Section ProcessMore.
Variable sha256_base64 : string -> string.
Variable fromMarkdown : string -> option Root.
Variable filter : Root -> (Content -> bool) -> option Root.
Variable toMarkdown : Root -> string.
Variable toString : Content -> string.
Variable Slugger : Type.
Variable new_slugger : Slugger.
Variable slugger_slug : Slugger -> string -> string * Slugger.

Local Abbreviation map_sections :=
  (Segmenter.map_sections toMarkdown toString Slugger slugger_slug).
Local Abbreviation processMdxForSearch :=
  (Segmenter.processMdxForSearch sha256_base64 fromMarkdown filter toMarkdown toString
     Slugger new_slugger slugger_slug).

Lemma map_sections_cons (slugger : Slugger) (tree : Root) (rest : list Root) :
  root_children tree <> [] ->
  map_sections slugger (tree :: rest) =
  let heading := heading_of toString tree in
  let '(slug, slugger') :=
    match heading with
    | Some h =>
        if String.eqb h "" then (None, slugger)
        else let '(s, sl) := slugger_slug slugger h in (Some s, sl)
    | None => (None, slugger)
    end in
  match map_sections slugger' rest with
  | Some sections => Some (mkSection (toMarkdown tree) heading slug :: sections)
  | None => None
  end.
Proof. simpl. by destruct (root_children tree). Qed.

Lemma map_sections_slugs (trees : list Root) :
  Forall (fun t => root_children t <> []) trees ->
  forall slugger,
  exists sections,
    map_sections slugger trees = Some sections /\
    length sections = length trees /\
    Forall (fun s => slug s = None <-> heading s = None \/ heading s = Some "") sections.
Proof.
  induction 1 as [|t trees Ht _ IH]; intros slugger.
  - exists []. by repeat split.
  - rewrite map_sections_cons by done. simpl.
    destruct (heading_of toString t) as [h|] eqn:Hh.
    + destruct (String.eqb h "") eqn:Hempty.
      * destruct (IH slugger) as (sections & -> & Hlen & Hall).
        eexists. split; [done|]. split; [simpl; by rewrite Hlen|].
        constructor; [|done]. simpl. apply String.eqb_eq in Hempty as ->.
        split; [by right|done].
      * destruct (slugger_slug slugger h) as [s slugger'].
        destruct (IH slugger') as (sections & -> & Hlen & Hall).
        eexists. split; [done|]. split; [simpl; by rewrite Hlen|].
        constructor; [|done]. simpl. apply String.eqb_neq in Hempty.
        split; [done|]. by intros [?|[= ?]].
    + destruct (IH slugger) as (sections & -> & Hlen & Hall).
      eexists. split; [done|]. split; [simpl; by rewrite Hlen|].
      constructor; [|done]. simpl. split; [by left|done].
Qed.

Lemma splitTreeBy_nonempty (mdTree : Root) :
  Forall (fun t => root_children t <> []) (splitTreeBy mdTree is_heading).
Proof.
  destruct (splitTreeBy_well_split is_heading mdTree) as (_ & Hne & _).
  eapply Forall_impl; [exact Hne|]. by intros t (n & rest & -> & _).
Qed.

(** X7. [processMdxForSearch] throws only when the parser does. On a
    text that parses it returns the hash of the text, the metadata of the
    tree as parsed, and one section for every tree of the split (none when
    the filter leaves nothing); a section has a slug exactly when it has a
    heading whose text is not empty. *)
Theorem processMdxForSearch_total (text : string) :
  match fromMarkdown text with
  | None => processMdxForSearch text = None
  | Some mdxTree =>
      exists sections,
        processMdxForSearch text
        = Some (mkProcessed (sha256_base64 text) (extractMetaExport mdxTree) sections) /\
        length sections =
        match filter mdxTree not_mdx with
        | None => 0%nat
        | Some mdTree => length (splitTreeBy mdTree is_heading)
        end /\
        Forall (fun s => slug s = None <-> heading s = None \/ heading s = Some "")
               sections
  end.
Proof.
  unfold Segmenter.processMdxForSearch.
  destruct (fromMarkdown text) as [mdxTree|]; [|done].
  destruct (filter mdxTree not_mdx) as [mdTree|].
  - destruct (map_sections_slugs (splitTreeBy mdTree is_heading)
                (splitTreeBy_nonempty mdTree) new_slugger)
      as (sections & -> & Hlen & Hall).
    by exists sections.
  - by exists [].
Qed.

(** The slugs given from a state on are distinct and new, for a slugger
    whose slugs are. *)
Section Distinct.
Variable given : Slugger -> list string.
Hypothesis slug_new :
  forall slugger h,
    ~ In (fst (slugger_slug slugger h)) (given slugger) /\
    given (snd (slugger_slug slugger h))
    = fst (slugger_slug slugger h) :: given slugger.

Lemma map_sections_distinct (trees : list Root) :
  forall slugger sections,
    map_sections slugger trees = Some sections ->
    NoDup (omap slug sections) /\
    Forall (fun s => ~ In s (given slugger)) (omap slug sections).
Proof.
  induction trees as [|t trees IH]; intros slugger sections.
  - intros [= <-]. split; constructor.
  - destruct (root_children t) as [|n ns] eqn:Hn; [by simpl; rewrite Hn|].
    rewrite map_sections_cons by by rewrite Hn. simpl.
    assert (Hsame : forall sections',
              map_sections slugger trees = Some sections' ->
              NoDup (omap slug (mkSection (toMarkdown t) (heading_of toString t) None
                                  :: sections')) /\
              Forall (fun s => ~ In s (given slugger))
                     (omap slug (mkSection (toMarkdown t) (heading_of toString t) None
                                   :: sections'))).
    { intros sections' Hrest. simpl. by apply IH. }
    destruct (heading_of toString t) as [h|].
    + destruct (String.eqb h "").
      * destruct (map_sections slugger trees) as [sections'|]; [|done].
        intros [= <-]. by apply Hsame.
      * pose proof (slug_new slugger h) as [Hnew Hgiven].
        destruct (slugger_slug slugger h) as [s slugger']. simpl in *.
        destruct (map_sections slugger' trees) as [sections'|] eqn:Hrest; [|done].
        intros [= <-]. simpl. destruct (IH slugger' sections' Hrest) as [Hnd Hall].
        rewrite Hgiven in Hall. rewrite Forall_forall in Hall. split.
        -- apply NoDup_cons. split; [|done]. intros Hin.
           apply (Hall s Hin). by left.
        -- constructor; [done|]. apply Forall_forall. intros s' Hs' Hin.
           apply (Hall s' Hs'). by right.
    + destruct (map_sections slugger trees) as [sections'|]; [|done].
      intros [= <-]. by apply Hsame.
Qed.

(** X8. With a slugger that never gives a slug it has given before, the
    slugs of the sections of one document are pairwise distinct: two
    sections with the same heading get different slugs. *)
Theorem slugs_distinct (text : string) (processed : ProcessedMdx) :
  processMdxForSearch text = Some processed ->
  NoDup (omap slug (sections processed)).
Proof.
  unfold Segmenter.processMdxForSearch.
  destruct (fromMarkdown text) as [mdxTree|]; [|done].
  destruct (filter mdxTree not_mdx) as [mdTree|].
  - destruct (map_sections _ _) as [sections|] eqn:Hmap; [|done].
    intros [= <-]. simpl. by apply (map_sections_distinct _ _ _ Hmap).
  - intros [= <-]. constructor.
Qed.

End Distinct.
End ProcessMore.

Lemma length_dashes (n : nat) : String.length (dashes n) = n.
Proof. induction n as [|n IH]; simpl; [done|]. by rewrite IH. Qed.

Lemma padded_slug_new (given : list string) (h : string) :
  ~ In (fst (padded_slug given h)) given /\
  snd (padded_slug given h) = fst (padded_slug given h) :: given.
Proof.
  split; [|done]. unfold padded_slug. simpl. intros Hin.
  apply (in_map String.length) in Hin.
  pose proof (proj1 (list_max_le (map String.length given)
                       (list_max (map String.length given))) (Nat.le_refl _)) as Hmax.
  rewrite List.Forall_forall in Hmax. apply Hmax in Hin.
  rewrite length_append in Hin.
  change (dashes (S ?n)) with (String "-"%char (dashes n)) in Hin.
  simpl in Hin. rewrite length_dashes in Hin. lia.
Qed.

Lemma slugs_distinct_sample :
  exists processed,
    processMdxForSearch sample_sha256 sample_fromMarkdown unist_util_filter
      sample_toMarkdown sample_toString (list string) [] padded_slug "guide"
    = Some processed /\
    NoDup (omap slug (sections processed)).
Proof.
  eexists. split; [reflexivity|].
  apply (slugs_distinct sample_sha256 sample_fromMarkdown unist_util_filter
           sample_toMarkdown sample_toString (list string) [] padded_slug
           (fun given => given) padded_slug_new "guide").
  reflexivity.
Defined.

End SegmenterMore.

(** ** Further properties of the provider and of the search route *)

Module ProviderMore.
Import Store Effects Provider EffectsFacts.

Lemma replace_newlines_length (s : string) :
  String.length (replace_newlines s) = String.length s.
Proof. induction s as [|a s IH]; simpl; [done|]. by rewrite IH. Qed.

Lemma replace_newlines_get (s : string) (i : nat) :
  String.get i (replace_newlines s)
  = option_map (fun a => if Ascii.eqb a newline then " "%char else a) (String.get i s).
Proof.
  revert i. induction s as [|a s IH]; intros i; simpl; [done|].
  destruct i as [|i]; [done|]. apply IH.
Qed.

Section GenerateMore.
Variable fails : nat -> Call -> bool.
Variable embeddings_create : string -> EmbeddingResponse.

Local Abbreviation generateEmbedding := (generateEmbedding fails embeddings_create).

(** X9. [generateEmbedding] makes one call, to the provider, and leaves
    the store and the console as they are. The text it sends is its
    argument with a space in the place of every newline: it has the same
    length, the same characters elsewhere, and no newline. The result is
    the first vector of the answer with its token count; the call throws
    when the provider fails or answers with no vector. *)
Theorem generateEmbedding_spec (input : string) (w : World) :
  let sent := replace_newlines input in
  let response := embeddings_create sent in
  snd (generateEmbedding input w) = ticked w (EmbeddingsCreate sent) (db w) /\
  fst (generateEmbedding input w)
  = (if fails (clock w) (EmbeddingsCreate sent)
     then Throw (CallFailed (EmbeddingsCreate sent))
     else match data response with
          | v :: _ => Return (mkEmbedding v (total_tokens response))
          | [] => Throw EmptyResponse
          end) /\
  String.length sent = String.length input /\
  (forall i a, String.get i input = Some a ->
     String.get i sent = Some (if Ascii.eqb a newline then " "%char else a)) /\
  (forall i, String.get i sent <> Some newline) /\
  replace_newlines sent = sent.
Proof.
  simpl. split_and!.
  - unfold Provider.generateEmbedding, bind, call.
    destruct (fails _ _); [done|]. simpl. by destruct (data _).
  - unfold Provider.generateEmbedding, bind, call.
    destruct (fails _ _); [done|]. simpl. by destruct (data _).
  - apply replace_newlines_length.
  - intros i a Hget. by rewrite replace_newlines_get, Hget.
  - intros i. rewrite replace_newlines_get.
    destruct (String.get i input) as [a|]; [|done]. simpl.
    destruct (Ascii.eqb a newline) eqn:Ha; [done|].
    apply Ascii.eqb_neq in Ha. congruence.
  - induction input as [|a s IH]; simpl; [done|]. rewrite IH. f_equal.
    destruct (Ascii.eqb a newline) eqn:Ha; [done|]. by rewrite Ha.
Qed.

End GenerateMore.
End ProviderMore.

Module QueryMore.
Import Store Effects Provider Query EffectsFacts.

Section RouteMore.
Variable fails : nat -> Call -> bool.
Variable embeddings_create : string -> EmbeddingResponse.
Variable cosine_distance : vector -> vector -> Q.

Local Abbreviation similar_sections := (similar_sections cosine_distance).
Local Abbreviation GET := (GET fails embeddings_create cosine_distance).

Lemma GET_nonempty (q : string) :
  q <> "" ->
  GET (Some q)
  = try_catch
      (let! embedding := generateEmbedding fails embeddings_create q in
       let! context := queryRaw fails cosine_distance (vectors embedding) in
       ret (json (Rows context) 200))%js
      (fun error =>
         run! console_error (show_error error) in
         ret (json (ErrorBody "Something went wrong") 500))%js.
Proof. by destruct q. Qed.

(** X10. [GET] never throws and never changes the store. It answers
    400 to a query that is absent or empty, making no call; 200 with the
    rows of the search for the first vector of the provider's answer,
    when the provider and the store both answer; and 500 with one line on
    the console when the provider fails or gives no vector (the store is
    then not asked) or the store fails. *)
Theorem GET_answers (query : option string) (w : World) :
  exists response,
    fst (GET query w) = Return response /\
    db (snd (GET query w)) = db w /\
    ((status response = 400%Z /\ (query = None \/ query = Some "") /\
      body response = ErrorBody "No query provided" /\ snd (GET query w) = w) \/
     (exists q sent,
        query = Some q /\ q <> "" /\ sent = replace_newlines q /\
        ((status response = 200%Z /\
          fails (clock w) (EmbeddingsCreate sent) = false /\
          fails (S (clock w)) QueryRaw = false /\
          (exists v rest,
             data (embeddings_create sent) = v :: rest /\
             body response = Rows (similar_sections v (db w))) /\
          trace (snd (GET query w)) = trace w ++ [EmbeddingsCreate sent; QueryRaw] /\
          console (snd (GET query w)) = console w) \/
         (status response = 500%Z /\
          body response = ErrorBody "Something went wrong" /\
          (exists line, console (snd (GET query w)) = console w ++ [line]) /\
          ((trace (snd (GET query w)) = trace w ++ [EmbeddingsCreate sent] /\
            (fails (clock w) (EmbeddingsCreate sent) = true \/
             data (embeddings_create sent) = [])) \/
           (trace (snd (GET query w)) = trace w ++ [EmbeddingsCreate sent; QueryRaw] /\
            fails (clock w) (EmbeddingsCreate sent) = false /\
            fails (S (clock w)) QueryRaw = true)))))).
Proof.
  destruct query as [[|a q]|].
  1, 3: eexists; split; [reflexivity|]; split; [done|]; left; split_and!; auto.
  set (q' := String a q).
  assert (Hq : q' <> "") by done.
  clearbody q'. rewrite (GET_nonempty q' Hq).
  unfold try_catch, bind, Provider.generateEmbedding, queryRaw, call, bind. simpl.
  destruct (fails (clock w) (EmbeddingsCreate (replace_newlines q'))) eqn:Hprovider.
  { simpl. eexists. split; [done|]. split; [done|]. right.
    exists q', (replace_newlines q'). split_and!; [done..|]. right.
    split_and!; [done..|by eexists|]. left. split; [done|by left]. }
  simpl. destruct (data (embeddings_create (replace_newlines q'))) as [|v rest] eqn:Hdata.
  { simpl. eexists. split; [done|]. split; [done|]. right.
    exists q', (replace_newlines q'). split_and!; [done..|]. right.
    split_and!; [done..|by eexists|]. left. split; [done|by right]. }
  simpl. destruct (fails (S (clock w)) QueryRaw) eqn:Hstore.
  { simpl. eexists. split; [done|]. split; [done|]. right.
    exists q', (replace_newlines q'). split_and!; [done..|]. right.
    split_and!; [done..|by eexists|]. right. by rewrite <- app_assoc. }
  simpl. eexists. split; [done|]. split; [done|]. right.
  exists q', (replace_newlines q'). split_and!; [done..|]. left.
  split_and!; [done..| | |done].
  - by exists v, rest.
  - by rewrite <- app_assoc.
Qed.

End RouteMore.
End QueryMore.

(** ** Further properties of the indexing engine *)

Module IndexerMore.
Import Path Walker Segmenter Store Effects Provider Indexer IndexerSpec.
Import EffectsFacts ProviderFacts StoreFacts IndexerFacts.
Import Samples EngineSamples WalkerSpec.

Lemma filter_filter_same {A} (f : A -> bool) (l : list A) :
  List.filter f (List.filter f l) = List.filter f l.
Proof.
  induction l as [|x l IH]; simpl; [done|].
  destruct (f x) eqn:Hx; simpl; [|done]. by rewrite Hx, IH.
Qed.

Lemma filter_none {A} (f : A -> bool) (l : list A) :
  Forall (fun x => f x = false) l -> List.filter f l = [].
Proof.
  induction 1 as [|x l Hx _ IH]; simpl; [done|]. by rewrite Hx.
Qed.

Lemma filter_all {A} (f : A -> bool) (l : list A) :
  Forall (fun x => f x = true) l -> List.filter f l = l.
Proof.
  induction 1 as [|x l Hx _ IH]; simpl; [done|]. by rewrite Hx, IH.
Qed.

Lemma set_embedding_keyed (v : vector) (d : Db) :
  keyed d ->
  map (set_embedding (page_section_id_seq d) v) (page_sections d) = page_sections d.
Proof.
  unfold keyed. induction 1 as [|s l Hs _ IH]; simpl; [done|].
  rewrite IH. f_equal. unfold set_embedding.
  destruct (Z.eqb_spec (PageSection.id s) (page_section_id_seq d)); [lia|done].
Qed.

Section RowsFacts.
Variable embeddings_create : string -> EmbeddingResponse.
Local Abbreviation section_rows := (section_rows embeddings_create).

Lemma section_rows_of_page (pid next_id : Z) (sections : list DocSection) :
  Forall (fun r => of_page pid r = true) (section_rows pid next_id sections).
Proof.
  revert next_id. induction sections as [|s rest IH]; intros next_id; simpl; [done|].
  constructor; [|apply IH]. unfold of_page. simpl. apply Z.eqb_refl.
Qed.

Lemma section_rows_app (pid next_id : Z) (l1 l2 : list DocSection) :
  section_rows pid next_id (l1 ++ l2)
  = section_rows pid next_id l1
    ++ section_rows pid (next_id + Z.of_nat (length l1)) l2.
Proof.
  revert next_id. induction l1 as [|s l1 IH]; intros next_id; simpl.
  - by rewrite Z.add_0_r.
  - rewrite IH. do 3 f_equal. lia.
Qed.

Lemma section_rows_ids (pid next_id : Z) (sections : list DocSection) :
  Forall (fun r => (next_id <= PageSection.id r < next_id + Z.of_nat (length sections))%Z)
         (section_rows pid next_id sections).
Proof.
  revert next_id. induction sections as [|s rest IH]; intros next_id; [done|].
  cbn [section_rows length]. constructor; [simpl; lia|].
  eapply Forall_impl; [apply IH|]. simpl. intros r Hr. lia.
Qed.

Lemma section_rows_embedded (pid next_id : Z) (sections : list DocSection) :
  Forall (fun s => data (embeddings_create (replace_newlines (concattedContent s))) <> [])
         sections ->
  Forall (fun r => PageSection.embedding r <> None) (section_rows pid next_id sections).
Proof.
  intros Hdata. revert next_id.
  induction Hdata as [|s rest Hs _ IH]; intros next_id; simpl; [done|].
  constructor; [|apply IH]. simpl. by destruct (data _).
Qed.

End RowsFacts.

Section EngineMore.
Variable fails : nat -> Call -> bool.
Variable readFile : string -> option string.
Variable processMdxForSearch : string -> option ProcessedMdx.
Variable embeddings_create : string -> EmbeddingResponse.

Local Abbreviation section_rows := (section_rows embeddings_create).
Local Abbreviation store_section := (store_section fails embeddings_create).
Local Abbreviation reindex := (reindex fails embeddings_create).
Local Abbreviation try_block := (try_block fails readFile processMdxForSearch embeddings_create).
Local Abbreviation index_source :=
  (index_source fails readFile processMdxForSearch embeddings_create).

(** *** A run in which no call fails *)

Section NoFailure.
Hypothesis fails_never : forall n c, fails n c = false.

Lemma wp_call_ok {A} (c : Call) (run : Db -> Outcome A * Db)
    (Q : Outcome A -> World -> Prop) (w : World) :
  Q (fst (run (db w))) (ticked w c (snd (run (db w)))) ->
  wp (call fails c run) Q w.
Proof.
  intros HQ. apply wp_call; [|done]. intros Hf. by rewrite fails_never in Hf.
Qed.

Lemma store_section_row (path : string) (page : Page.t) (s : DocSection) (w : World) :
  data (embeddings_create (replace_newlines (concattedContent s))) <> [] ->
  keyed (db w) ->
  wp (store_section path page s)
     (fun r w' =>
        r = Return tt /\
        db w' = mkDb (pages (db w))
                  (page_sections (db w)
                   ++ section_rows (Page.id page) (page_section_id_seq (db w)) [s])
                  (page_id_seq (db w)) (page_section_id_seq (db w) + 1)) w.
Proof.
  intros Hdata Hkeyed. unfold Indexer.store_section.
  apply wp_try_catch, wp_bind. unfold generateEmbedding.
  apply wp_bind, wp_call_ok. simpl.
  destruct (data _) as [|v rest] eqn:Hv; [done|].
  apply wp_ret. simpl. apply wp_bind. unfold pageSection_create.
  apply wp_call_ok. simpl. unfold executeRaw_set_embedding.
  apply wp_call_ok. simpl. split; [done|].
  unfold with_sections. simpl. f_equal. rewrite map_app.
  rewrite set_embedding_keyed by done. simpl.
  unfold set_embedding. simpl. by rewrite Z.eqb_refl.
Qed.

Lemma store_sections_rows (path : string) (page : Page.t) (sections : list DocSection) :
  Forall (fun s => data (embeddings_create (replace_newlines (concattedContent s))) <> [])
         sections ->
  forall w,
    (sections <> [] -> keyed (db w)) ->
    wp (for_of sections (store_section path page))
       (fun r w' =>
          r = Return tt /\
          db w' = mkDb (pages (db w))
                    (page_sections (db w)
                     ++ section_rows (Page.id page) (page_section_id_seq (db w)) sections)
                    (page_id_seq (db w))
                    (page_section_id_seq (db w) + Z.of_nat (length sections))) w.
Proof.
  induction 1 as [|s sections Hs _ IH]; intros w Hkeyed.
  - apply wp_ret. split; [done|]. simpl. rewrite app_nil_r, Z.add_0_r. by destruct (db w).
  - specialize (Hkeyed ltac:(done)). cbn [for_of]. apply wp_bind.
    eapply wp_mono; [by apply store_section_row|].
    intros r w1 [-> Hdb1].
    assert (Hkeyed1 : keyed (db w1)).
    { rewrite Hdb1. unfold keyed. simpl. apply Forall_app. split.
      - eapply Forall_impl; [exact Hkeyed|]. simpl. intros. lia.
      - constructor; [simpl; lia|done]. }
    eapply wp_mono; [by apply IH|].
    intros r w2 [-> Hdb2]. split; [done|].
    rewrite Hdb2, Hdb1. cbn [pages page_sections page_id_seq page_section_id_seq].
    rewrite <- app_assoc.
    change (?l ++ section_rows ?p ?n [s] ++ section_rows ?p ?m sections)
      with (l ++ section_rows p n (s :: sections)).
    f_equal. cbn [length]. lia.
Qed.

(** The rows and the calls of the loop over the sections. *)
Lemma store_sections_done (path : string) (page : Page.t) (sections : list DocSection)
    (w : World) :
  Forall (fun s => data (embeddings_create (replace_newlines (concattedContent s))) <> [])
         sections ->
  (sections <> [] -> keyed (db w)) ->
  wp (for_of sections (store_section path page))
     (fun r w' =>
        r = Return tt /\
        db w' = mkDb (pages (db w))
                  (page_sections (db w)
                   ++ section_rows (Page.id page) (page_section_id_seq (db w)) sections)
                  (page_id_seq (db w))
                  (page_section_id_seq (db w) + Z.of_nat (length sections)) /\
        trace w' = trace w
                   ++ section_calls (Page.id page) (page_section_id_seq (db w)) sections) w.
Proof.
  intros Hdata Hkeyed.
  pose proof (store_sections_rows path page sections Hdata w Hkeyed) as Hrows.
  pose proof (store_sections_calls fails embeddings_create path page sections w) as Hcalls.
  unfold wp in *. destruct (for_of _ _ w) as [r w']. simpl in *.
  destruct Hrows as [-> Hdb]. destruct Hcalls as (t & Ht & _ & Hret).
  by rewrite Ht, (Hret eq_refl).
Qed.

(** A document that has a parent path and is new, changed or refreshed,
    when no call fails. *)
Lemma document_stored (shouldRefresh : option bool) (es : EmbeddingSource)
    (w : World) (contents : string) (processed : ProcessedMdx) (parent : string) :
  readFile (filePath es) = Some contents ->
  processMdxForSearch contents = Some processed ->
  Forall (fun s => data (embeddings_create (replace_newlines (concattedContent s))) <> [])
         (sections processed) ->
  parentPath es = Some parent ->
  consistent (db w) ->
  (sections processed <> [] -> keyed (db w)) ->
  (forall existing,
     find_page_by_path (path es) (db w) = Some existing ->
     not_refresh shouldRefresh = true ->
     Page.checksum existing <> Some (checksum processed)) ->
  let w' := snd (index_source shouldRefresh es w) in
  fst (index_source shouldRefresh es w) = Return tt /\
  exists p,
    stored embeddings_create es processed parent (db w) (db w') p /\
    trace w' = trace w ++ indexing_calls es processed parent (db w) (Page.id p)
               ++ [Disconnect].
Proof.
  intros Hread Hprocess Hdata Hparent Hcons Hkeyed Hstale. simpl.
  destruct (index_source_unfold fails readFile processMdxForSearch embeddings_create
              shouldRefresh es w) as (Hdb & Htrace & ->).
  rewrite fails_never. split; [done|].
  rewrite Hdb, Htrace.
  cut (wp (try_block shouldRefresh es)
         (fun _ w1 =>
            exists p,
              stored embeddings_create es processed parent (db w) (db w1) p /\
              trace w1 = trace w ++ indexing_calls es processed parent (db w) (Page.id p)) w).
  { unfold wp. intros (p & Hstored & ->). exists p. split; [done|].
    by rewrite <- app_assoc. }
  unfold Indexer.try_block, load.
  apply wp_bind, wp_bind, wp_call_ok. simpl. rewrite Hread. simpl. rewrite Hprocess.
  apply wp_ret. simpl. apply wp_bind. unfold page_findUnique_with_parent.
  apply wp_call_ok. simpl.
  match goal with
  | |- wp _ ?Q ?W =>
      assert (Hre : forall existingPage,
                option_map fst existingPage = find_page_by_path (path es) (db w) ->
                wp (reindex es processed existingPage) Q W)
  end.
  2: { destruct (find_page_by_path (path es) (db w)) as [existing|] eqn:Hfind; simpl.
       2: { by apply (Hre None). }
       destruct (not_refresh shouldRefresh) eqn:Hrefresh; simpl.
       2: { by apply (Hre (Some (existing, parent_of existing (db w)))). }
       rewrite bool_decide_eq_false_2 by by apply Hstale.
       by apply (Hre (Some (existing, parent_of existing (db w)))). }
  intros existingPage Hexisting. unfold Indexer.reindex. apply wp_bind.
  match goal with
  | |- wp _ _ ?W =>
      assert (Hdel : forall Q : Outcome unit -> World -> Prop,
                (forall w1,
                   pages (db w1) = pages (db w) ->
                   page_id_seq (db w1) = page_id_seq (db w) ->
                   page_section_id_seq (db w1) = page_section_id_seq (db w) ->
                   page_sections (db w1)
                   = match find_page_by_path (path es) (db w) with
                     | Some existing =>
                         List.filter (fun s => negb (of_page (Page.id existing) s))
                           (page_sections (db w))
                     | None => page_sections (db w)
                     end ->
                   trace w1
                   = trace w
                     ++ [ReadFile (filePath es); PageFindUnique (Some (path es))]
                     ++ match find_page_by_path (path es) (db w) with
                        | Some existing => [PageSectionDeleteMany (Page.id existing)]
                        | None => []
                        end ->
                   Q (Return tt) w1) ->
                wp match existingPage with
                   | Some (existing, _) =>
                       (run! console_log
                               ("[" +:+ path es +:+
                                "] Refresh flag set, removing old page sections and their embeddings")
                        in pageSection_deleteMany fails (Page.id existing))%js
                   | None => ret tt
                   end Q W)
  end.
  { intros Q Hret. destruct existingPage as [[existing parent0]|]; simpl in Hexisting.
    - apply wp_bind, wp_console_log. unfold pageSection_deleteMany.
      apply wp_call_ok. simpl. apply Hret; simpl; [done..| |].
      + by rewrite <- Hexisting.
      + rewrite <- Hexisting. by rewrite <- !app_assoc.
    - apply wp_ret, Hret; simpl; [done..| |].
      + by rewrite <- Hexisting.
      + rewrite <- Hexisting. by rewrite <- !app_assoc. }
  apply Hdel; clear Hdel. intros w1 Hpages1 Hseq1 Hsseq1 Hsections1 Htrace1.
  assert (Hfind1 : forall pth, find_page_by_path pth (db w1) = find_page_by_path pth (db w)).
  { intros pth. unfold find_page_by_path. by rewrite Hpages1. }
  assert (Hcons1 : consistent (db w1)).
  { destruct (find_page_by_path (path es) (db w)) as [existing|].
    - pose proof (consistent_delete_sections (Page.id existing) (db w) Hcons) as H.
      unfold consistent in *. rewrite Hpages1, Hseq1, Hsections1. exact H.
    - unfold consistent in *. by rewrite Hpages1, Hseq1, Hsections1. }
  assert (Hkeyed1 : sections processed <> [] -> keyed (db w1)).
  { intros Hne. specialize (Hkeyed Hne). unfold keyed in *. rewrite Hsseq1, Hsections1.
    destruct (find_page_by_path (path es) (db w)); [|done].
    apply List.Forall_forall. intros s Hs. apply filter_In in Hs as [Hs _].
    rewrite List.Forall_forall in Hkeyed. by apply Hkeyed. }
  assert (Hnone1 : forall existing,
            find_page_by_path (path es) (db w1) = Some existing ->
            Forall (fun s => PageSection.pageId s <> Page.id existing)
                   (page_sections (db w1))).
  { intros existing Hfind. rewrite Hfind1 in Hfind. rewrite Hsections1, Hfind.
    apply (delete_sections_none (Page.id existing) (db w)). }
  apply wp_bind. rewrite Hparent. unfold page_findUnique. apply wp_call_ok. simpl.
  apply wp_bind. unfold page_upsert. apply wp_call_ok. simpl.
  destruct (upsert_page _ _ _ _ _ (db w1)) as [page d2] eqn:Hupsert. simpl.
  assert (Hfields : Page.type page = Some (type es) /\ Page.source page = Some (source es) /\
                    page_section_id_seq d2 = page_section_id_seq (db w1) /\
                    Page.id page = match find_page_by_path (path es) (db w1) with
                                   | Some existing => Page.id existing
                                   | None => page_id_seq (db w1)
                                   end /\
                    Page.parentPageId page
                    = match find_page_by_path parent (db w1),
                            find_page_by_path (path es) (db w1) with
                      | Some q, _ => Some (Page.id q)
                      | None, Some existing => Page.parentPageId existing
                      | None, None => None
                      end).
  { unfold upsert_page in Hupsert.
    destruct (find_page_by_path (path es) (db w1)) as [existing|] eqn:Hfind;
      injection Hupsert as <- <-; simpl.
    - apply find_page_by_path_In in Hfind as [_ Hpath].
      unfold reset_page. apply page_has_path_true in Hpath. rewrite Hpath. simpl.
      split_and!; [done..|]. by destruct (find_page_by_path parent (db w1)).
    - split_and!; [done..|]. by destruct (find_page_by_path parent (db w1)). }
  destruct Hfields as (Htype & Hsource & Hsseq2 & Hid & Hlink).
  pose proof Hupsert as Hupsert'.
  apply upsert_page_find in Hupsert as (Hfind2 & Hsum2 & Hsec2 & _).
  apply upsert_page_no_sections in Hupsert' as (Hnone2 & Hin2); [|done..].
  apply wp_bind, wp_console_log, wp_bind.
  eapply wp_mono.
  { apply store_sections_done; [done|]. simpl. intros Hne. unfold keyed.
    rewrite Hsseq2, Hsec2. by apply Hkeyed1. }
  intros r w3 (-> & Hdb3 & Htrace3). simpl in Hdb3, Htrace3.
  unfold page_update_checksum. apply wp_call_ok.
  assert (Hin3 : In page (pages (db w3))) by by rewrite Hdb3.
  destruct (find_page_by_id_In (db w3) page Hin3) as (q & ->). simpl.
  set (p' := set_checksum (Page.id page) (checksum processed) page).
  assert (Hself : page_has_id (Page.id page) page = true) by by apply page_has_id_true.
  assert (Hp' : Page.id p' = Page.id page /\ Page.checksum p' = Some (checksum processed) /\
                Page.type p' = Page.type page /\ Page.source p' = Page.source page /\
                Page.parentPageId p' = Page.parentPageId page).
  { unfold p', set_checksum. by rewrite Hself. }
  destruct Hp' as (Hp'id & Hp'sum & Hp'type & Hp'source & Hp'link).
  exists p'. unfold stored, indexing_calls.
  rewrite Hp'id, Hp'sum, Hp'type, Hp'source, Hp'link.
  rewrite Htrace3, Htrace1, Hdb3. simpl. rewrite Hsec2, Hsseq2, Hsseq1, !List.filter_app.
  rewrite !Hfind1 in *.
  split; [split_and!; [|done..| | | | |]|].
  - unfold find_page_by_path in *. simpl.
    rewrite find_map by (intros; apply set_checksum_has_path). by rewrite Hfind2.
  - by rewrite Hid, Hseq1.
  - done.
  - rewrite filter_none, filter_all; [done|apply section_rows_of_page|].
    rewrite <- Hsec2. eapply Forall_impl; [exact Hnone2|]. simpl. intros s Hs.
    unfold of_page. by apply Z.eqb_neq.
  - rewrite filter_none, filter_all; [|apply section_rows_of_page|].
    + by apply section_rows_embedded.
    + rewrite <- Hsec2. eapply Forall_impl; [exact Hnone2|]. simpl. intros s Hs.
      unfold of_page. by apply Z.eqb_neq.
  - rewrite (filter_none _ (section_rows _ _ _)), app_nil_r.
    2: { eapply Forall_impl; [apply section_rows_of_page|]. simpl. by intros s ->. }
    rewrite Hsections1, Hid.
    destruct (find_page_by_path (path es) (db w)); [|done].
    apply filter_filter_same.
  - destruct (find_page_by_path (path es) (db w));
      repeat (rewrite <- app_assoc; simpl); done.
Qed.

(** X11. When no call fails and the provider gives a vector for every
    section, a document that has a parent path and is new, changed or
    refreshed ends with its page holding the checksum of the text, linked
    to the page of the parent path if there is one, and with exactly one
    section row for each of its sections, in the order of the document,
    each with its content, heading, slug, token count and embedding; the
    rows the page had before are gone and the rows of the other pages are
    as they were. *)
Theorem document_reindexed (shouldRefresh : option bool) (es : EmbeddingSource)
    (w : World) (contents : string) (processed : ProcessedMdx) (parent : string) :
  readFile (filePath es) = Some contents ->
  processMdxForSearch contents = Some processed ->
  Forall (fun s => data (embeddings_create (replace_newlines (concattedContent s))) <> [])
         (sections processed) ->
  parentPath es = Some parent ->
  consistent (db w) ->
  keyed (db w) ->
  (forall existing,
     find_page_by_path (path es) (db w) = Some existing ->
     not_refresh shouldRefresh = true ->
     Page.checksum existing <> Some (checksum processed)) ->
  let w' := snd (index_source shouldRefresh es w) in
  fst (index_source shouldRefresh es w) = Return tt /\
  exists p,
    find_page_by_path (path es) (db w') = Some p /\
    Page.checksum p = Some (checksum processed) /\
    Page.type p = Some (type es) /\
    Page.source p = Some (source es) /\
    Page.id p = match find_page_by_path (path es) (db w) with
                | Some existing => Page.id existing
                | None => page_id_seq (db w)
                end /\
    (forall q, find_page_by_path parent (db w) = Some q ->
               Page.parentPageId p = Some (Page.id q)) /\
    List.filter (of_page (Page.id p)) (page_sections (db w'))
    = section_rows (Page.id p) (page_section_id_seq (db w)) (sections processed) /\
    Forall (fun r => PageSection.embedding r <> None)
           (List.filter (of_page (Page.id p)) (page_sections (db w'))) /\
    List.filter (fun s => negb (of_page (Page.id p) s)) (page_sections (db w'))
    = List.filter (fun s => negb (of_page (Page.id p) s)) (page_sections (db w)).
Proof.
  intros Hread Hprocess Hdata Hparent Hcons Hkeyed Hstale.
  destruct (document_stored shouldRefresh es w contents processed parent)
    as (Hret & p & Hstored & _); [done..|by intros _|done|].
  split; [exact Hret|]. exists p.
  destruct Hstored as (Hfind & Hsum & Htype & Hsource & Hid & Hlink & Hrows & Hemb & Hrest).
  split_and!; [done..| |done|done|done].
  intros q Hq. by rewrite Hlink, Hq.
Qed.

End NoFailure.
End EngineMore.

Lemma document_reindexed_sample :
  let w' := snd (sample_index_source None sample_intro sample_world) in
  exists p,
    find_page_by_path "docs/intro" (db w') = Some p /\
    Page.checksum p = Some "sha256:guide" /\
    map PageSection.heading (List.filter (of_page (Page.id p)) (page_sections (db w')))
    = [None; Some "Install"; Some "Use"].
Proof.
  edestruct (document_reindexed no_failures sample_readFile sample_processMdxForSearch
               sample_embeddings_create (fun _ _ => eq_refl) None sample_intro
               sample_world "guide")
    as (_ & p & Hfind & Hsum & _ & _ & _ & _ & Hrows & _).
  - reflexivity.
  - vm_compute. reflexivity.
  - repeat constructor; done.
  - reflexivity.
  - split_and!; constructor.
  - constructor.
  - intros existing Hfind. done.
  - exists p. split; [exact Hfind|]. split; [exact Hsum|].
    unfold sample_index_source. rewrite Hrows. reflexivity.
Defined.

(** *** What a turn leaves alone *)

Lemma same_elsewhere_refl (pth : string) (d : Db) : same_elsewhere pth d d.
Proof. by intros q Hq Hpath. Qed.

Lemma same_elsewhere_trans (pth : string) (a b c : Db) :
  same_elsewhere pth a b -> same_elsewhere pth b c -> same_elsewhere pth a c.
Proof.
  intros Hab Hbc q Hq Hpath. destruct (Hab q Hq Hpath) as [Hqb Hsb].
  destruct (Hbc q Hqb Hpath) as [Hqc Hsc]. split; [done|]. by rewrite Hsc.
Qed.

Lemma find_owns (pth : string) (d : Db) (existing : Page.t) :
  consistent d -> find_page_by_path pth d = Some existing ->
  owns pth (Page.id existing) d.
Proof.
  intros (Hnodup & _) Hfind q Hq Hid.
  apply find_page_by_path_In in Hfind as [Hin Hpath].
  by rewrite (NoDup_id_eq d q existing Hnodup Hq Hin Hid).
Qed.

Lemma set_parent_other (id : Z) (x : option Z) (p : Page.t) :
  Page.id p <> id -> set_parent id x p = p.
Proof.
  intros Hid. unfold set_parent.
  destruct (page_has_id id p) eqn:Hp; [|done]. by apply page_has_id_true in Hp.
Qed.

Lemma set_checksum_other (id : Z) (c : string) (p : Page.t) :
  Page.id p <> id -> set_checksum id c p = p.
Proof.
  intros Hid. unfold set_checksum.
  destruct (page_has_id id p) eqn:Hp; [|done]. by apply page_has_id_true in Hp.
Qed.

Lemma set_checksum_path (id : Z) (c : string) (p : Page.t) :
  Page.path (set_checksum id c p) = Page.path p.
Proof. unfold set_checksum. by destruct (page_has_id id p). Qed.

Lemma writing_map_pages (f : Page.t -> Page.t) (pth : string) (pid : Z) (d0 d : Db) :
  (forall p, Page.id (f p) = Page.id p) ->
  (forall p, Page.path (f p) = Page.path p) ->
  (forall p, Page.id p <> pid -> f p = p) ->
  writing pth pid d0 d -> writing pth pid d0 (with_pages (map f (pages d)) d).
Proof.
  intros Hid Hpath Hother (Hkeyed & Howns & Hsame). split_and!.
  - exact Hkeyed.
  - intros q' Hq' Hq'id. simpl in Hq'. apply in_map_iff in Hq' as (q & <- & Hq).
    rewrite Hpath. apply Howns; [done|]. by rewrite <- Hid.
  - eapply same_elsewhere_trans; [exact Hsame|].
    intros q Hq Hqpath. split; [|done]. simpl. apply in_map_iff. exists q.
    split; [|done]. apply Hother. intros Hqid. by apply Hqpath, Howns.
Qed.

Lemma filter_filter_implied {A} (f g : A -> bool) (l : list A) :
  (forall x, f x = true -> g x = true) ->
  List.filter f (List.filter g l) = List.filter f l.
Proof.
  intros Himp. induction l as [|x l IH]; simpl; [done|].
  destruct (g x) eqn:Hg; simpl; rewrite IH; [done|].
  destruct (f x) eqn:Hf; [|done]. apply Himp in Hf. congruence.
Qed.

Lemma writing_other (pth : string) (pid : Z) (d0 d : Db) (q : Page.t) :
  writing pth pid d0 d -> In q (pages d0) -> Page.path q <> pth -> Page.id q <> pid.
Proof.
  intros (_ & Howns & Hsame) Hq Hpath Hid.
  destruct (Hsame q Hq Hpath) as [Hqd _]. by apply Hpath, Howns.
Qed.

Lemma writing_sections (pth : string) (pid : Z) (d0 d : Db) (ss : list PageSection.t)
    (next : Z) :
  writing pth pid d0 d ->
  Forall (fun s => (PageSection.id s < next)%Z) ss ->
  (forall i, i <> pid ->
     List.filter (of_page i) ss = List.filter (of_page i) (page_sections d)) ->
  writing pth pid d0 (mkDb (pages d) ss (page_id_seq d) next).
Proof.
  intros Hw Hkeyed Hss. pose proof Hw as (_ & Howns & Hsame). split_and!.
  - exact Hkeyed.
  - exact Howns.
  - intros q Hq Hpath. destruct (Hsame q Hq Hpath) as [Hqd Hsd].
    split; [done|]. simpl. rewrite <- Hsd. apply Hss.
    by eapply writing_other.
Qed.

Lemma writing_delete (pth : string) (pid : Z) (d0 d : Db) :
  writing pth pid d0 d -> writing pth pid d0 (delete_sections pid d).
Proof.
  intros Hw. apply (writing_sections pth pid d0 d); [done| |].
  - destruct Hw as (Hkeyed & _). unfold keyed in Hkeyed.
    apply List.Forall_forall. intros s Hs. apply filter_In in Hs as [Hs _].
    rewrite List.Forall_forall in Hkeyed. by apply Hkeyed.
  - intros i Hi. apply filter_filter_implied. intros s Hs.
    unfold of_page in Hs. apply Z.eqb_eq in Hs. apply negb_true_iff, Z.eqb_neq. lia.
Qed.

Lemma writing_create (pth : string) (pid : Z) (d0 d : Db) slug heading content tokenCount :
  writing pth pid d0 d ->
  writing pth pid d0 (snd (create_section pid slug heading content tokenCount d)).
Proof.
  intros Hw. apply (writing_sections pth pid d0 d); [done| |].
  - destruct Hw as (Hkeyed & _). apply Forall_app. split.
    + eapply Forall_impl; [exact Hkeyed|]. simpl. intros. lia.
    + constructor; [simpl; lia|done].
  - intros i Hi. rewrite List.filter_app. simpl. unfold of_page at 2. simpl.
    destruct (Z.eqb_spec pid i); [done|]. apply app_nil_r.
Qed.

Lemma writing_embed (pth : string) (pid : Z) (d0 d : Db) slug heading content tokenCount
    (v : vector) :
  writing pth pid d0 d ->
  let d' := snd (create_section pid slug heading content tokenCount d) in
  writing pth pid d0
    (with_sections (map (set_embedding (page_section_id_seq d) v) (page_sections d')) d').
Proof.
  intros Hw. simpl. rewrite map_app.
  rewrite set_embedding_keyed by apply Hw.
  apply (writing_sections pth pid d0 d); [done| |].
  - destruct Hw as (Hkeyed & _). apply Forall_app. split.
    + eapply Forall_impl; [exact Hkeyed|]. simpl. intros. lia.
    + constructor; [|done]. unfold set_embedding. simpl. rewrite Z.eqb_refl. simpl. lia.
  - intros i Hi. rewrite List.filter_app. simpl. unfold of_page at 2.
    rewrite set_embedding_pageId. simpl.
    destruct (Z.eqb_spec pid i); [done|]. apply app_nil_r.
Qed.

Lemma upsert_writing (pth : string) type source meta parent (d d' : Db) (page : Page.t) :
  consistent d -> keyed d ->
  upsert_page pth type source meta parent d = (page, d') ->
  writing pth (Page.id page) d d'.
Proof.
  intros Hcons Hkeyed Hupsert. unfold upsert_page in Hupsert.
  destruct (find_page_by_path pth d) as [existing|] eqn:Hfind;
    injection Hupsert as <- <-.
  - pose proof (find_owns pth d existing Hcons Hfind) as Howns.
    rewrite reset_page_id. split_and!.
    + exact Hkeyed.
    + intros q' Hq' Hid. simpl in Hq'. apply in_map_iff in Hq' as (q & <- & Hq).
      rewrite reset_page_id in Hid. pose proof (Howns q Hq Hid) as Hpath.
      unfold reset_page. apply page_has_path_true in Hpath. by rewrite Hpath.
    + intros q Hq Hpath. split; [|done]. simpl. apply in_map_iff. exists q.
      split; [|done]. unfold reset_page.
      destruct (page_has_path pth q) eqn:Hq'; [|done].
      by apply page_has_path_true in Hq'.
  - destruct Hcons as (_ & Hbehind & _). split_and!.
    + exact Hkeyed.
    + intros q Hq Hid. simpl in *. apply in_app_or in Hq as [Hq|[<-|[]]]; [|done].
      rewrite List.Forall_forall in Hbehind. apply Hbehind in Hq. lia.
    + intros q Hq Hpath. split; [|done]. simpl. apply in_or_app. by left.
Qed.

Section Frame.
Variable fails : nat -> Call -> bool.
Variable readFile : string -> option string.
Variable processMdxForSearch : string -> option ProcessedMdx.
Variable embeddings_create : string -> EmbeddingResponse.

Local Abbreviation store_section := (store_section fails embeddings_create).
Local Abbreviation reindex := (reindex fails embeddings_create).
Local Abbreviation try_block := (try_block fails readFile processMdxForSearch embeddings_create).
Local Abbreviation index_source :=
  (index_source fails readFile processMdxForSearch embeddings_create).

Lemma store_section_writing (pth path0 : string) (page : Page.t) (s : DocSection)
    (d0 : Db) (w : World) :
  writing pth (Page.id page) d0 (db w) ->
  wp (store_section path0 page s)
     (fun _ w' => writing pth (Page.id page) d0 (db w')) w.
Proof.
  intros Hw. unfold Indexer.store_section.
  apply wp_try_catch, wp_bind, wp_generateEmbedding.
  { intros e. simpl. by apply wp_bind, wp_console_log, wp_throw. }
  intros embedding _. simpl. apply wp_bind. unfold pageSection_create.
  apply wp_call; intros _; simpl.
  { by apply wp_bind, wp_console_log, wp_throw. }
  unfold executeRaw_set_embedding. apply wp_call; intros _; simpl.
  - apply wp_bind, wp_console_log, wp_throw. simpl.
    by apply (writing_create pth (Page.id page) d0 (db w)).
  - by apply (writing_embed pth (Page.id page) d0 (db w)).
Qed.

Lemma reindex_frame (es : EmbeddingSource) (processed : ProcessedMdx)
    (existingPage : option (Page.t * option Page.t)) (w : World) :
  consistent (db w) -> keyed (db w) ->
  option_map fst existingPage = find_page_by_path (path es) (db w) ->
  wp (reindex es processed existingPage)
     (fun _ w' => keyed (db w') /\ same_elsewhere (path es) (db w) (db w')) w.
Proof.
  intros Hcons Hkeyed Hexisting. unfold Indexer.reindex. apply wp_bind.
  set (d0 := db w).
  set (Q := fun (_ : Outcome unit) w' => keyed (db w') /\ same_elsewhere (path es) d0 (db w')).
  assert (Hkeep : forall pid d, writing (path es) pid d0 d ->
                    keyed d /\ same_elsewhere (path es) d0 d).
  { by intros pid d (? & _ & ?). }
  match goal with
  | |- wp ?m _ _ =>
      assert (Hdel : wp m (fun r w1 =>
                             consistent (db w1) /\ keyed (db w1) /\
                             same_elsewhere (path es) d0 (db w1)) w)
  end.
  { destruct existingPage as [[existing parent]|]; simpl in Hexisting.
    - apply wp_bind, wp_console_log. unfold pageSection_deleteMany.
      apply wp_call; intros _; simpl.
      { split_and!; [done..|apply same_elsewhere_refl]. }
      split; [by apply consistent_delete_sections|].
      apply (Hkeep (Page.id existing)), writing_delete.
      split_and!; [done| |apply same_elsewhere_refl].
      by apply find_owns.
    - apply wp_ret. split_and!; [done..|apply same_elsewhere_refl]. }
  eapply wp_mono; [exact Hdel|]. clear Hdel.
  intros [[]|e] w1 (Hcons1 & Hkeyed1 & Hsame1); [|done].
  apply wp_bind. apply wp_page_findUnique; [intros ?; simpl; done|intros parentPath0 HparentPath0; simpl].
  apply wp_bind. unfold page_upsert. apply wp_call; intros _; simpl; [done|].
  destruct (upsert_page _ _ _ _ _ (db w1)) as [page d2] eqn:Hupsert. simpl.
  apply upsert_writing in Hupsert; [|done..].
  assert (Hw2 : writing (path es) (Page.id page) d0 d2).
  { destruct Hupsert as (? & ? & ?). split_and!; [done..|].
    by eapply same_elsewhere_trans. }
  apply wp_bind, wp_console_log, wp_bind.
  apply (wp_for_of _ (fun w' => writing (path es) (Page.id page) d0 (db w'))).
  - intros s w3 _ Hw3. eapply wp_mono; [by apply store_section_writing|].
    intros [[]|e] w4 Hw4; [done|]. by apply (Hkeep (Page.id page)).
  - intros w3 Hw3. unfold page_update_checksum.
    apply wp_call; intros _; simpl; [by apply (Hkeep (Page.id page))|].
    destruct (find_page_by_id _ _); simpl; [|by apply (Hkeep (Page.id page))].
    apply (Hkeep (Page.id page)), writing_map_pages; [| | |done].
    + intros. apply set_checksum_id.
    + intros. apply set_checksum_path.
    + intros. by apply set_checksum_other.
  - done.
Qed.

Lemma try_block_frame (shouldRefresh : option bool) (es : EmbeddingSource) (w : World) :
  consistent (db w) -> keyed (db w) ->
  wp (try_block shouldRefresh es)
     (fun _ w' => keyed (db w') /\ same_elsewhere (path es) (db w) (db w')) w.
Proof.
  intros Hcons Hkeyed. unfold Indexer.try_block, load.
  assert (Hrefl : keyed (db w) /\ same_elsewhere (path es) (db w) (db w)).
  { split; [done|apply same_elsewhere_refl]. }
  apply wp_bind, wp_bind, wp_call; intros _; simpl; [done|].
  destruct (readFile (filePath es)) as [contents|]; simpl; [|done].
  destruct (processMdxForSearch contents) as [processed|]; [|by apply wp_throw].
  apply wp_ret. simpl. apply wp_bind. unfold page_findUnique_with_parent.
  apply wp_call; intros _; simpl; [done|].
  match goal with
  | |- wp _ ?Q ?W =>
      assert (Hre : forall existingPage,
                option_map fst existingPage = find_page_by_path (path es) (db w) ->
                wp (reindex es processed existingPage) Q W)
  end.
  { intros existingPage Hexisting.
    match goal with
    | |- wp _ _ ?W => by apply (reindex_frame es processed existingPage W)
    end. }
  destruct (find_page_by_path (path es) (db w)) as [existing|] eqn:Hfind; simpl.
  2: { by apply (Hre None). }
  destruct (_ && _).
  2: { by apply (Hre (Some (existing, parent_of existing (db w)))). }
  clear Hre. destruct (bool_decide _); [by apply wp_ret|].
  apply wp_bind, wp_console_log, wp_bind.
  apply wp_page_findUnique; [intros ?; simpl; done|intros parentPath0 HparentPath0; simpl].
  unfold page_update_parent. apply wp_call; intros _; simpl; [done|].
  destruct (find_page_by_id _ _); simpl; [|done].
  assert (Hw : writing (path es) (Page.id existing) (db w) (db w)).
  { split_and!; [done|by apply find_owns|apply same_elsewhere_refl]. }
  eapply (writing_map_pages (set_parent (Page.id existing) _)) in Hw.
  - destruct Hw as (? & _ & ?). split; done.
  - intros. apply set_parent_id.
  - intros. apply set_parent_path.
  - intros. by apply set_parent_other.
Qed.

Lemma index_source_frame (shouldRefresh : option bool) (es : EmbeddingSource) (w : World) :
  consistent (db w) -> keyed (db w) ->
  let w' := snd (index_source shouldRefresh es w) in
  keyed (db w') /\ same_elsewhere (path es) (db w) (db w').
Proof.
  intros Hcons Hkeyed. simpl.
  destruct (index_source_unfold fails readFile processMdxForSearch embeddings_create
              shouldRefresh es w) as (-> & _).
  by apply try_block_frame.
Qed.

(** X12. Whatever calls fail, a run over a sequence of documents leaves
    alone every page whose path is not the path of one of them: the page
    row is as it was, and so are the section rows of the page. *)
Theorem other_pages_untouched (shouldRefresh : option bool)
    (sources : list EmbeddingSource) (w : World) (q : Page.t) :
  valid (db w) -> keyed (db w) ->
  In q (pages (db w)) ->
  Forall (fun es => Page.path q <> path es) sources ->
  let w' := snd (for_of sources (index_source shouldRefresh) w) in
  In q (pages (db w')) /\
  List.filter (of_page (Page.id q)) (page_sections (db w'))
  = List.filter (of_page (Page.id q)) (page_sections (db w)).
Proof.
  intros Hvalid Hkeyed Hq Hpaths. simpl. revert w Hvalid Hkeyed Hq.
  induction Hpaths as [|es sources Hes _ IH]; intros w Hvalid Hkeyed Hq; [done|].
  cbn [for_of]. unfold bind.
  pose proof (index_source_valid fails readFile processMdxForSearch embeddings_create
                shouldRefresh es w Hvalid) as Hvalid1.
  destruct (index_source_frame shouldRefresh es w (proj1 Hvalid) Hkeyed)
    as [Hkeyed1 Hsame1].
  unfold wp in Hvalid1.
  destruct (index_source shouldRefresh es w) as [[[]|e] w1]; simpl in *.
  - destruct (Hsame1 q Hq Hes) as [Hq1 Hs1].
    destruct (IH w1 Hvalid1 Hkeyed1 Hq1) as [Hq2 Hs2]. split; [done|].
    by rewrite Hs2.
  - by apply Hsame1.
Qed.

End Frame.

Lemma valid_indexed_world : valid (db indexed_world).
Proof.
  split; [split_and!|].
  - simpl. apply NoDup_cons. split; [by intros ?%elem_of_nil|constructor].
  - by repeat constructor.
  - repeat constructor. eexists. split; [by left|done].
  - repeat constructor. intros _. by repeat constructor.
Qed.

Lemma keyed_indexed_world : keyed (db indexed_world).
Proof. repeat constructor. Qed.

Lemma other_pages_untouched_sample :
  let w' := snd (for_of [sample_index; sample_intro]
                   (index_source eighth_call_fails sample_readFile
                      sample_processMdxForSearch sample_embeddings_create None)
                   indexed_world) in
  exists q,
    find_page_by_path "docs/broken" (db indexed_world) = Some q /\
    In q (pages (db w')) /\
    List.filter (of_page (Page.id q)) (page_sections (db w'))
    = [PageSection.mk 1 1 (Some "# Old") (Some 2%Z) (Some [1; 0]%Q) None (Some "Old")].
Proof.
  eexists. split; [reflexivity|].
  apply (other_pages_untouched eighth_call_fails sample_readFile
           sample_processMdxForSearch sample_embeddings_create None
           [sample_index; sample_intro] indexed_world).
  - apply valid_indexed_world.
  - apply keyed_indexed_world.
  - simpl. by left.
  - by repeat constructor.
Defined.

(** *** The files a run reads *)

Lemma extends_refl (w : World) : extends w w.
Proof. split; exists []; by rewrite app_nil_r. Qed.

Lemma extends_ticked (w0 w : World) (c : Call) (d : Db) :
  outer_call c = false -> extends w0 w -> extends w0 (ticked w c d).
Proof.
  intros Hc [(t & Ht & Hquiet) Hconsole]. split; [|done].
  exists (t ++ [c]). simpl. rewrite Ht, <- app_assoc. split; [done|].
  apply Forall_app. split; [done|]. by constructor.
Qed.

Lemma extends_logged (w0 w : World) (msg : string) :
  extends w0 w -> extends w0 (mkWorld (db w) (clock w) (trace w) (console w ++ [msg])).
Proof.
  intros [Htrace (l & Hl)]. split; [done|].
  exists (l ++ [msg]). simpl. by rewrite Hl, <- app_assoc.
Qed.

Section Reads.
Variable fails : nat -> Call -> bool.
Variable readFile : string -> option string.
Variable processMdxForSearch : string -> option ProcessedMdx.
Variable embeddings_create : string -> EmbeddingResponse.

Local Abbreviation store_section := (store_section fails embeddings_create).
Local Abbreviation reindex := (reindex fails embeddings_create).
Local Abbreviation try_block := (try_block fails readFile processMdxForSearch embeddings_create).
Local Abbreviation index_source :=
  (index_source fails readFile processMdxForSearch embeddings_create).

Lemma wp_call_any {A} (c : Call) (run : Db -> Outcome A * Db)
    (Q : Outcome A -> World -> Prop) (w : World) :
  (forall r d, Q r (ticked w c d)) -> wp (call fails c run) Q w.
Proof. intros HQ. apply wp_call; intros _; apply HQ. Qed.

Lemma store_section_extends (path0 : string) (page : Page.t) (s : DocSection)
    (w0 w : World) :
  extends w0 w -> wp (store_section path0 page s) (fun _ w' => extends w0 w') w.
Proof.
  intros Hw. unfold Indexer.store_section.
  apply wp_try_catch, wp_bind, wp_generateEmbedding.
  { intros e. simpl. apply wp_bind, wp_console_log, wp_throw.
    by apply extends_logged, extends_ticked. }
  intros embedding _. simpl. apply wp_bind. unfold pageSection_create.
  apply wp_call_any. intros [pageSection|e] d1.
  2: { apply wp_bind, wp_console_log, wp_throw.
       by apply extends_logged, extends_ticked; [|apply extends_ticked]. }
  unfold executeRaw_set_embedding. apply wp_call_any. intros [[]|e] d2.
  - by repeat (apply extends_ticked; [done|]).
  - apply wp_bind, wp_console_log, wp_throw. apply extends_logged.
    by repeat (apply extends_ticked; [done|]).
Qed.

Lemma reindex_extends (es : EmbeddingSource) (processed : ProcessedMdx)
    (existingPage : option (Page.t * option Page.t)) (w0 w : World) :
  extends w0 w -> wp (reindex es processed existingPage) (fun _ w' => extends w0 w') w.
Proof.
  intros Hw. unfold Indexer.reindex. apply wp_bind.
  match goal with
  | |- wp ?m _ _ => assert (Hdel : wp m (fun _ w1 => extends w0 w1) w)
  end.
  { destruct existingPage as [[existing parent]|].
    - apply wp_bind, wp_console_log. unfold pageSection_deleteMany.
      apply wp_call_any. intros r d. by apply extends_ticked; [|apply extends_logged].
    - by apply wp_ret. }
  eapply wp_mono; [exact Hdel|]. clear Hdel. intros [[]|e] w1 Hw1; [|done].
  apply wp_bind. unfold page_findUnique. apply wp_call_any. intros [parentPage|e] d1.
  2: { by apply extends_ticked. }
  apply wp_bind. unfold page_upsert. apply wp_call_any. intros [page|e] d2.
  2: { by repeat (apply extends_ticked; [done|]). }
  apply wp_bind, wp_console_log, wp_bind.
  apply (wp_for_of _ (fun w' => extends w0 w')).
  - intros s w3 _ Hw3. eapply wp_mono; [by apply store_section_extends|].
    by intros [[]|e] w4 Hw4.
  - intros w3 Hw3. unfold page_update_checksum. apply wp_call_any.
    intros r d3. by apply extends_ticked.
  - apply extends_logged. by repeat (apply extends_ticked; [done|]).
Qed.

Lemma try_block_extends (shouldRefresh : option bool) (es : EmbeddingSource) (w : World) :
  wp (try_block shouldRefresh es)
     (fun _ w' => exists d, extends (ticked w (ReadFile (filePath es)) d) w') w.
Proof.
  unfold Indexer.try_block, load.
  apply wp_bind, wp_bind, wp_call_any. intros [contents|e] d.
  2: { exists d. apply extends_refl. }
  set (w0 := ticked w (ReadFile (filePath es)) d).
  assert (Hw0 : extends w0 w0) by apply extends_refl.
  destruct (processMdxForSearch contents) as [processed|].
  2: { apply wp_throw. by exists d. }
  apply wp_ret. apply wp_bind. unfold page_findUnique_with_parent.
  apply wp_call_any. intros [existingPage|e] d1.
  2: { exists d. by apply extends_ticked. }
  assert (Hw1 : extends w0 (ticked w0 (PageFindUnique (Some (path es))) d1))
    by by apply extends_ticked.
  assert (Hre : wp (reindex es processed existingPage)
                  (fun _ w' => exists d, extends (ticked w (ReadFile (filePath es)) d) w')
                  (ticked w0 (PageFindUnique (Some (path es))) d1)).
  { eapply wp_mono; [by apply (reindex_extends es processed existingPage w0)|].
    intros r w' Hw'. by exists d. }
  destruct existingPage as [[existing existingParent]|]; [|exact Hre].
  destruct (_ && _); [|exact Hre]. clear Hre.
  destruct (bool_decide _); [apply wp_ret; by exists d|].
  apply wp_bind, wp_console_log, wp_bind.
  unfold page_findUnique. apply wp_call_any. intros [parentPage|e] d2.
  2: { exists d. by apply extends_ticked; [|apply extends_logged]. }
  unfold page_update_parent. apply wp_call_any. intros r d3. exists d.
  by apply extends_ticked; [|apply extends_ticked; [|apply extends_logged]].
Qed.

Lemma index_source_reads (shouldRefresh : option bool) (es : EmbeddingSource) (w : World) :
  wp (index_source shouldRefresh es)
     (fun _ w' =>
        exists t l,
          trace w' = trace w ++ ReadFile (filePath es) :: t ++ [Disconnect] /\
          Forall (fun c => outer_call c = false) t /\
          console w' = console w ++ l) w.
Proof.
  unfold Indexer.index_source. apply wp_finally, wp_try_catch.
  eapply wp_mono; [apply try_block_extends|].
  assert (Hend : forall w1 d,
            extends (ticked w (ReadFile (filePath es)) d) w1 ->
            wp (disconnect fails)
               (fun r' w2 =>
                  match r' with
                  | Return _ | Throw _ =>
                      exists t l,
                        trace w2 = trace w ++ ReadFile (filePath es) :: t ++ [Disconnect] /\
                        Forall (fun c => outer_call c = false) t /\
                        console w2 = console w ++ l
                  end) w1).
  { intros w1 d [(t & Ht & Hquiet) (l & Hl)]. unfold disconnect.
    apply wp_call_any. intros r d'. simpl in *.
    assert (exists t0 l0,
              trace w1 ++ [Disconnect]
              = trace w ++ ReadFile (filePath es) :: t0 ++ [Disconnect] /\
              Forall (fun c => outer_call c = false) t0 /\
              console w1 = console w ++ l0) as Hgoal.
    { exists t, l. rewrite Ht, Hl, <- !app_assoc. by split_and!. }
    by destruct r. }
  intros [[]|e] w1 [d Hw1].
  - eapply wp_mono; [by apply (Hend w1 d)|]. by intros [[]|e] w2.
  - apply wp_bind, wp_console_log, wp_console_log.
    eapply wp_mono; [apply (Hend _ d); by do 2 apply extends_logged|].
    by intros [[]|e'] w2.
Qed.

Lemma index_sources_reads (shouldRefresh : option bool) (sources : list EmbeddingSource) :
  (forall n, fails n Disconnect = false) ->
  forall w,
    let w' := snd (for_of sources (index_source shouldRefresh) w) in
    fst (for_of sources (index_source shouldRefresh) w) = Return tt /\
    exists t l,
      trace w' = trace w ++ t /\
      List.filter outer_call t
      = flat_map (fun es => [ReadFile (filePath es); Disconnect]) sources /\
      console w' = console w ++ l.
Proof.
  intros Hfails. induction sources as [|es sources IH]; intros w.
  - split; [done|]. exists [], []. simpl. by rewrite !app_nil_r.
  - cbn [for_of]. unfold bind.
    destruct (index_source_unfold fails readFile processMdxForSearch embeddings_create
                shouldRefresh es w) as (_ & _ & Hret).
    rewrite Hfails in Hret.
    pose proof (index_source_reads shouldRefresh es w) as Hreads. unfold wp in Hreads.
    destruct (index_source shouldRefresh es w) as [r w1]. simpl in Hret, Hreads.
    subst r. destruct Hreads as (t1 & l1 & Ht1 & Hquiet1 & Hl1).
    destruct (IH w1) as (Hret2 & t2 & l2 & Ht2 & Hfilter2 & Hl2).
    split; [done|]. exists ((ReadFile (filePath es) :: t1 ++ [Disconnect]) ++ t2), (l1 ++ l2).
    split_and!.
    + by rewrite Ht2, Ht1, <- !app_assoc.
    + rewrite !List.filter_app. cbn [List.filter outer_call flat_map app].
      rewrite List.filter_app, (filter_none outer_call t1) by done.
      simpl. by rewrite Hfilter2.
    + by rewrite Hl2, Hl1, <- app_assoc.
Qed.

Lemma embeddingSources_filePath (entries : list WalkEntry) :
  map filePath (embeddingSources entries)
  = map Walker.path
      (List.filter (fun entry => is_markdown_path (Walker.path entry)) entries).
Proof.
  unfold embeddingSources. rewrite map_map. simpl.
  rewrite filter_all; [done|]. by apply List.Forall_forall.
Qed.

Section DiscoveryMore.
Variable join : string -> string -> string.
Variable localeCompare : string -> string -> Z.

Local Abbreviation indexFiles :=
  (indexFiles fails readFile processMdxForSearch embeddings_create join localeCompare).

(** X13. Without an API key, or when the directory cannot be walked,
    [indexFiles] throws before it reads a file, makes a call or prints a
    line. Otherwise, unless [$disconnect] fails, it returns after reading
    the files the walker found that end in [.md] or [.mdx], each once and
    in the walker's order, with one [$disconnect] after each; the console
    begins with the number of these files and ends with the line that
    reports completion. *)
Theorem indexFiles_reads (argv_refresh : option bool) (OPENAI_API_KEY : option string)
    (docs : fsnode) (w : World) :
  let run := indexFiles argv_refresh OPENAI_API_KEY docs w in
  match OPENAI_API_KEY, walk join localeCompare docs "docs" None with
  | None, _ | Some "", _ => run = (Throw MissingApiKey, w)
  | Some _, None => run = (Throw WalkFailed, w)
  | Some _, Some entries =>
      let files :=
        map Walker.path
          (List.filter (fun entry => is_markdown_path (Walker.path entry)) entries) in
      (forall n, fails n Disconnect = false) ->
      fst run = Return tt /\
      exists t lines,
        trace (snd run) = trace w ++ t /\
        List.filter outer_call t = flat_map (fun f => [ReadFile f; Disconnect]) files /\
        console (snd run)
        = console w
          ++ ("Discovered " +:+ pretty (length files) +:+ " pages") :: lines
          ++ ["Embedding generation complete"]
  end.
Proof.
  simpl. unfold Indexer.indexFiles.
  destruct OPENAI_API_KEY as [[|a key]|]; [done| |done].
  destruct (walk join localeCompare docs "docs" None) as [entries|]; [|done].
  intros Hfails.
  set (sources := embeddingSources entries).
  assert (Hfiles : map filePath sources
                   = map Walker.path
                       (List.filter (fun entry => is_markdown_path (Walker.path entry))
                          entries)) by apply embeddingSources_filePath.
  rewrite <- Hfiles, length_map.
  assert (Hflat : forall l : list EmbeddingSource,
            flat_map (fun f => [ReadFile f; Disconnect]) (map filePath l)
            = flat_map (fun es => [ReadFile (filePath es); Disconnect]) l).
  { induction l as [|x l IH]; simpl; [done|]. by rewrite IH. }
  rewrite Hflat. clear Hflat Hfiles. unfold bind, console_log at 1. simpl.
  set (w1 := mkWorld _ _ _ _).
  assert (exists line, forall k : M unit,
            (if not_refresh argv_refresh
             then console_log "Checking which pages are new or have changed"
             else console_log "Refresh flag set, re-generating all pages") w1
            = (Return tt, mkWorld (db w) (clock w) (trace w)
                            ((console w ++ ["Discovered " +:+ pretty (length sources)
                                            +:+ " pages"]) ++ [line])))
    as (line & Hline).
  { destruct (not_refresh argv_refresh); eexists; intros _; reflexivity. }
  rewrite (Hline (ret tt)). clear Hline. set (w2 := mkWorld _ _ _ _).
  destruct (index_sources_reads argv_refresh sources Hfails w2)
    as (Hret & t & l & Ht & Hfilter & Hl).
  destruct (for_of sources (index_source argv_refresh) w2) as [r w3].
  simpl in Hret, Ht, Hl. subst r. simpl. split; [done|].
  exists t, (line :: l). split_and!; [done..|].
  rewrite Hl. simpl. by rewrite <- !app_assoc.
Qed.

End DiscoveryMore.
End Reads.

Lemma two_pages_walk :
  walk posix_join compare_lengths two_pages "docs" None
  = Some [mkEntry "docs/logo.png" (Some "docs/index.mdx");
          mkEntry "docs/index.mdx" (Some "docs/index.mdx");
          mkEntry "docs/intro.mdx" (Some "docs/index.mdx")].
Proof. vm_compute. reflexivity. Qed.

Lemma indexFiles_reads_sample :
  let run :=
    indexFiles no_failures sample_readFile sample_processMdxForSearch
      sample_embeddings_create posix_join compare_lengths None (Some "sk-sample") two_pages
      sample_world in
  fst run = Return tt /\
  List.filter outer_call (trace (snd run))
  = [ReadFile "docs/index.mdx"; Disconnect; ReadFile "docs/intro.mdx"; Disconnect].
Proof.
  pose proof (indexFiles_reads no_failures sample_readFile sample_processMdxForSearch
                sample_embeddings_create posix_join compare_lengths None (Some "sk-sample")
                two_pages sample_world) as H.
  rewrite two_pages_walk in H. cbv zeta in H.
  destruct (H (fun _ => eq_refl)) as (Hret & t & lines & Ht & Hfilter & _).
  cbv zeta. split; [exact Hret|]. rewrite Ht.
  change (trace sample_world ++ t) with t. rewrite Hfilter.
  vm_compute. reflexivity.
Defined.

End IndexerMore.

(** ** The seed script *)

Module SeedFacts.
Import Seed.

Lemma has_In (name : string) (names : list string) :
  has name names = true <-> In name names.
Proof.
  unfold has. rewrite existsb_exists. split.
  - intros (x & Hx & Heq). by apply String.eqb_eq in Heq as ->.
  - intros Hin. exists name. split; [done|]. apply String.eqb_refl.
Qed.

Lemma has_app (name : string) (l1 l2 : list string) :
  has name (l1 ++ l2) = has name l1 || has name l2.
Proof. apply existsb_app. Qed.

Section ScriptFacts.
Variable refused : Statement -> bool.
Variable end_refused : bool.

Local Abbreviation sql_query := (sql_query refused).
Local Abbreviation seed := (seed refused end_refused).

(** What a statement that succeeds leaves. *)
Lemma sql_query_grows (s : Statement) (c c' : Catalog) :
  sql_query s c = inr c' ->
  available c' = available c /\
  (forall e, In e (extensions c) -> In e (extensions c')) /\
  (forall t, In t (tables c) -> In t (tables c')) /\
  match s with
  | CreateExtension name => ~ In name (extensions c) /\ In name (extensions c')
  | CreateTableIfNotExists name _ _ => In name (tables c')
  end.
Proof.
  unfold Seed.sql_query. destruct (refused s); [done|].
  destruct s as [name|name needs_tables needs_extensions].
  - destruct (has name (extensions c)) eqn:Hhas; [done|].
    destruct (has name (available c)); [|done]. intros [= <-]. simpl.
    split_and!; [done| |done| |].
    + intros e He. apply in_or_app. by left.
    + intros Hin. apply has_In in Hin. congruence.
    + apply in_or_app. right. by left.
  - destruct (has name (tables c)) eqn:Hhas.
    + intros [= <-]. split_and!; [done..|]. by apply has_In.
    + destruct (List.find _ needs_tables); [done|].
      destruct (List.find _ needs_extensions); [done|]. intros [= <-]. simpl.
      split_and!; [done..| |].
      * intros t Ht. apply in_or_app. by left.
      * apply in_or_app. right. by left.
Qed.

(** X14. [seed] can run to its end once only. When the extension
    [vector] is installed already, the first statement is an error: the
    script prints the banner and the error, calls [process.exit(1)] and
    leaves the database as it is, the tables not created if they were
    missing. A run that completes found the extension not installed and
    leaves it installed together with both tables, so the run after it
    exits with 1. Whenever the script exits through [process.exit], the
    pool has not been ended. *)
Theorem seed_runs_once (c : Catalog) :
  (In "vector" (extensions c) ->
   exit (seed c) = Exited 1 /\ catalog (seed c) = c /\
   exists error, console (seed c) = ["------------- Seeding -------------"; error]) /\
  (exit (seed c) = Completed ->
   ~ In "vector" (extensions c) /\
   In "vector" (extensions (catalog (seed c))) /\
   In "page" (tables (catalog (seed c))) /\
   In "page_section" (tables (catalog (seed c))) /\
   pool_ended (seed c) = true /\
   last (console (seed c)) = Some "------------- Seeding Complete -------------" /\
   exit (seed (catalog (seed c))) = Exited 1) /\
  (forall code, exit (seed c) = Exited code -> code = 1%Z /\ pool_ended (seed c) = false).
Proof.
  assert (Hinstalled : forall c0,
            In "vector" (extensions c0) ->
            exit (seed c0) = Exited 1 /\ catalog (seed c0) = c0 /\
            exists error,
              console (seed c0) = ["------------- Seeding -------------"; error]).
  { intros c0 Hin. unfold Seed.seed, Seed.sql_query, create_extension_vector.
    destruct (refused _); [by split_and!; [..|eexists]|].
    apply has_In in Hin. rewrite Hin. by split_and!; [..|eexists]. }
  split_and!.
  - apply Hinstalled.
  - intros Hexit.
    assert (In "vector" (extensions (catalog (seed c))) /\ ~ In "vector" (extensions c) /\
            In "page" (tables (catalog (seed c))) /\
            In "page_section" (tables (catalog (seed c))) /\
            pool_ended (seed c) = true /\
            last (console (seed c)) = Some "------------- Seeding Complete -------------")
      as (Hvector & Hnot & Hpage & Hsection & Hended & Hlast).
    { revert Hexit. unfold Seed.seed.
      destruct (sql_query create_extension_vector c) as [e1|c1] eqn:H1; [done|].
      destruct (sql_query create_table_page c1) as [e2|c2] eqn:H2; [done|].
      destruct (sql_query create_table_page_section c2) as [e3|c3] eqn:H3; [done|].
      unfold sql_end. destruct end_refused; [done|]. intros _. simpl.
      apply sql_query_grows in H1 as (_ & _ & _ & Hnot & Hvector).
      apply sql_query_grows in H2 as (_ & He2 & _ & Hpage).
      apply sql_query_grows in H3 as (_ & He3 & Ht3 & Hsection).
      split_and!; auto. }
    split_and!; [done..|]. by apply Hinstalled.
  - intros code. unfold Seed.seed.
    destruct (sql_query create_extension_vector c) as [e1|c1]; [by intros [= <-]|].
    destruct (sql_query create_table_page c1) as [e2|c2]; [by intros [= <-]|].
    destruct (sql_query create_table_page_section c2) as [e3|c3]; [by intros [= <-]|].
    unfold sql_end. by destruct end_refused.
Qed.

End ScriptFacts.

Lemma seed_runs_once_sample :
  exit (seed nothing_refused false fresh_catalog) = Completed /\
  exit (seed nothing_refused false (catalog (seed nothing_refused false fresh_catalog)))
  = Exited 1.
Proof.
  split; [reflexivity|].
  by apply (proj1 (proj2 (seed_runs_once nothing_refused false fresh_catalog))).
Defined.

End SeedFacts.

(** ** Failures *)

Module FailureFacts.
Import Path Walker Segmenter Store Effects Provider Indexer IndexerSpec.
Import EffectsFacts ProviderFacts StoreFacts IndexerFacts IndexerMore.
Import Samples EngineSamples.

Lemma wp_conj {A} (m : M A) (Q1 Q2 : Outcome A -> World -> Prop) (w : World) :
  wp m Q1 w -> wp m Q2 w -> wp m (fun r w' => Q1 r w' /\ Q2 r w') w.
Proof. by split. Qed.

Lemma stopped_after_delete_snoc (pre : list Call) (i : Z) (mid : list Call) (c : Call) :
  match c with PageFindUnique _ | PageUpsert _ _ => True | _ => False end ->
  stopped_after_delete (pre ++ PageSectionDeleteMany i :: mid ++ [c]) = true.
Proof.
  intros Hc. unfold stopped_after_delete.
  rewrite existsb_app. simpl. rewrite orb_true_r. simpl.
  replace (pre ++ PageSectionDeleteMany i :: mid ++ [c])
    with ((pre ++ PageSectionDeleteMany i :: mid) ++ [c])
    by by rewrite <- app_assoc.
  rewrite last_snoc. by destruct c.
Qed.

Section Failures.
Variable fails : nat -> Call -> bool.
Variable readFile : string -> option string.
Variable processMdxForSearch : string -> option ProcessedMdx.
Variable embeddings_create : string -> EmbeddingResponse.

Local Abbreviation store_section := (store_section fails embeddings_create).
Local Abbreviation reindex := (reindex fails embeddings_create).
Local Abbreviation try_block := (try_block fails readFile processMdxForSearch embeddings_create).
Local Abbreviation index_source :=
  (index_source fails readFile processMdxForSearch embeddings_create).

Lemma left_by_failure_unchanged (es : EmbeddingSource) (w0 w' : World) (t : list Call)
    (o : Outcome unit) :
  trace w' = trace w0 ++ t -> db w' = db w0 -> left_by_failure es w0 o w'.
Proof. intros Ht Hdb e _. exists t. split; [done|]. by left. Qed.

Lemma left_by_failure_null (es : EmbeddingSource) (w0 w w' : World) (ta : list Call)
    (p : Page.t) (o : Outcome unit) :
  trace w = trace w0 ++ ta -> extends w w' ->
  find_page_by_path (path es) (db w') = Some p ->
  Page.checksum p = None -> left_by_failure es w0 o w'.
Proof.
  intros Ha [(t & Ht & _) _] Hfind Hsum e _. exists (ta ++ t).
  split; [by rewrite Ht, Ha, <- app_assoc|]. right. by exists p.
Qed.

(** Before the upsert is made, a failure leaves the store as it was
    unless the old sections were deleted. *)
Lemma left_by_failure_before_upsert (es : EmbeddingSource) (w0 w' : World)
    (mid post : list Call) (c : Call) (o : Outcome unit) :
  match c with PageFindUnique _ | PageUpsert _ _ => True | _ => False end ->
  (mid = [] \/ exists i, mid = [PageSectionDeleteMany i]) ->
  trace w' = trace w0
             ++ ReadFile (filePath es) :: PageFindUnique (Some (path es))
             :: mid ++ post ++ [c] ->
  (mid = [] -> db w' = db w0) ->
  left_by_failure es w0 o w'.
Proof.
  intros Hc Hmid Ht Hdb e _. eexists. split; [exact Ht|].
  destruct Hmid as [->|[i ->]].
  - intros _. left. by apply Hdb.
  - intros Hfalse.
    change (stopped_after_delete
              ([ReadFile (filePath es); PageFindUnique (Some (path es))]
               ++ PageSectionDeleteMany i :: post ++ [c]) = false) in Hfalse.
    by rewrite stopped_after_delete_snoc in Hfalse.
Qed.

(** After the upsert, a failure finds the page with a null checksum. *)
Lemma sections_throw (es : EmbeddingSource) (processed : ProcessedMdx)
    (page : Page.t) (w0 w : World) (ta : list Call) :
  trace w = trace w0 ++ ta ->
  find_page_by_path (path es) (db w) = Some page -> Page.checksum page = None ->
  wp (bind (for_of (sections processed) (store_section (path es) page))
        (fun _ => page_update_checksum fails (Page.id page) (checksum processed)))
     (left_by_failure es w0) w.
Proof.
  intros Ha Hfind Hsum. apply wp_bind.
  apply (wp_for_of _ (fun w' => pages (db w') = pages (db w) /\ extends w w')).
  - intros s w1 _ [Hpages1 Hw1].
    eapply wp_mono;
      [apply wp_conj;
       [apply store_section_pages
       |by apply (store_section_extends fails embeddings_create (path es) page s w)]|].
    simpl. intros [[]|e] w2 [Hpages2 Hw2].
    + split; [congruence|done].
    + apply (left_by_failure_null es w0 w w2 ta page); [done..| |done].
      unfold find_page_by_path in *. by rewrite Hpages2, Hpages1.
  - intros w1 [Hpages1 Hw1]. unfold page_update_checksum.
    assert (Hnull : forall c d o,
              pages d = pages (db w1) ->
              left_by_failure es w0 o (ticked w1 c d)).
    { intros c d o Hd e _. destruct Hw1 as [(t & Ht & _) _].
      exists (ta ++ t ++ [c]). simpl. rewrite Ht, Ha, <- !app_assoc. split; [done|].
      intros _. right. exists page. split; [|done].
      unfold find_page_by_path in *. by rewrite Hd, Hpages1. }
    apply wp_call; intros _; simpl; [by apply Hnull|].
    destruct (find_page_by_id _ _); simpl; [by intros e [=]|by apply Hnull].
  - split; [done|apply extends_refl].
Qed.

Lemma reindex_throws (es : EmbeddingSource) (processed : ProcessedMdx)
    (existingPage : option (Page.t * option Page.t)) (w0 w : World) :
  trace w = trace w0 ++ [ReadFile (filePath es); PageFindUnique (Some (path es))] ->
  db w = db w0 ->
  wp (reindex es processed existingPage) (left_by_failure es w0) w.
Proof.
  intros Ht Hdb. unfold Indexer.reindex. apply wp_bind.
  assert (Hdel : forall Q : Outcome unit -> World -> Prop,
            (forall w1 i c,
               trace w1 = trace w ++ [PageSectionDeleteMany i] -> db w1 = db w0 ->
               Q (Throw c) w1) ->
            (forall w1 mid,
               trace w1 = trace w ++ mid ->
               (mid = [] \/ exists i, mid = [PageSectionDeleteMany i]) ->
               (mid = [] -> db w1 = db w0) ->
               Q (Return tt) w1) ->
            wp match existingPage with
               | Some (existing, _) =>
                   (run! console_log
                           ("[" +:+ path es +:+
                            "] Refresh flag set, removing old page sections and their embeddings")
                    in pageSection_deleteMany fails (Page.id existing))%js
               | None => ret tt
               end Q w).
  { intros Q Hthrow Hret. destruct existingPage as [[existing parent]|].
    - apply wp_bind, wp_console_log. unfold pageSection_deleteMany.
      apply wp_call; intros _; simpl; [by eapply Hthrow|].
      apply (Hret _ [PageSectionDeleteMany (Page.id existing)]); [done| |done].
      right. by eexists.
    - apply wp_ret. apply (Hret w []); [by rewrite app_nil_r|by left|done]. }
  apply Hdel; clear Hdel.
  { intros w1 i c Ht1 Hdb1.
    apply (left_by_failure_unchanged es w0 w1
             [ReadFile (filePath es); PageFindUnique (Some (path es));
              PageSectionDeleteMany i]); [|done].
    rewrite Ht1, Ht. by rewrite <- app_assoc. }
  intros w1 mid Ht1 Hmid Hdb1.
  assert (Ht1' : trace w1 = trace w0 ++ ReadFile (filePath es)
                            :: PageFindUnique (Some (path es)) :: mid).
  { rewrite Ht1, Ht. by rewrite <- app_assoc. }
  apply wp_bind. apply wp_page_findUnique.
  { intros e. simpl.
    apply (left_by_failure_before_upsert es w0 _ mid [] (PageFindUnique (parentPath es)));
      [done..| |done].
    simpl. rewrite Ht1'. by repeat (rewrite <- app_assoc; simpl). }
  intros parent Hparent. simpl.
  apply wp_bind. unfold page_upsert. apply wp_call; intros _.
  { apply (left_by_failure_before_upsert es w0 _ mid [PageFindUnique (parentPath es)]
             (PageUpsert (path es) None)); [done..| |done].
    simpl. rewrite Ht1'. by repeat (rewrite <- app_assoc; simpl). }
  simpl. destruct (upsert_page _ _ _ _ _ _) as [page d2] eqn:Hupsert. simpl.
  apply upsert_page_find in Hupsert as (Hfind & Hsum & _).
  apply wp_bind, wp_console_log.
  apply (sections_throw es processed page w0 _
           (ReadFile (filePath es) :: PageFindUnique (Some (path es))
            :: mid ++ [PageFindUnique (parentPath es); PageUpsert (path es) None]));
    [|done..].
  simpl. rewrite Ht1'. by repeat (rewrite <- app_assoc; simpl).
Qed.

Lemma try_block_throws (shouldRefresh : option bool) (es : EmbeddingSource) (w : World) :
  wp (try_block shouldRefresh es) (left_by_failure es w) w.
Proof.
  unfold Indexer.try_block, load.
  assert (Hsame : forall o w',
            (exists t, trace w' = trace w ++ t) -> db w' = db w ->
            left_by_failure es w o w').
  { intros o w' [t Ht] Hdb. by apply (left_by_failure_unchanged es w w' t). }
  apply wp_bind, wp_bind, wp_call; intros _; simpl; [apply Hsame; [by eexists|done]|].
  destruct (readFile _); simpl; [|apply Hsame; [by eexists|done]].
  destruct (processMdxForSearch _) as [processed|];
    [apply wp_ret|apply wp_throw, Hsame; [by eexists|done]].
  simpl. apply wp_bind. unfold page_findUnique_with_parent.
  apply wp_call; intros _; simpl.
  { apply Hsame; [|done]. eexists. simpl. by rewrite <- app_assoc. }
  match goal with
  | |- wp _ ?Q ?W =>
      assert (Hre : forall existingPage, wp (reindex es processed existingPage) Q W)
  end.
  { intros existingPage. apply reindex_throws; [|done]. simpl. by rewrite <- app_assoc. }
  destruct (find_page_by_path (path es) (db w)) as [existing|]; simpl; [|apply Hre].
  destruct (_ && _); [|apply Hre].
  destruct (bool_decide _); [apply wp_ret; by intros e [=]|].
  apply wp_bind, wp_console_log, wp_bind.
  apply wp_page_findUnique.
  { intros e. simpl. apply Hsame; [|done]. eexists. simpl.
    by repeat (rewrite <- app_assoc; simpl). }
  intros parent Hparent. simpl.
  unfold page_update_parent. apply wp_call; intros _; simpl.
  { apply Hsame; [|done]. eexists. simpl. by repeat (rewrite <- app_assoc; simpl). }
  destruct (find_page_by_id _ _); simpl; [by intros e [=]|].
  apply Hsame; [|done]. eexists. simpl. by repeat (rewrite <- app_assoc; simpl).
Qed.

(** C3, as amended. A failure raised in the [try] block of a document
    is caught there. When it comes before anything is written, the store
    is left as it was, and a page indexed before keeps its checksum and
    its sections; when it comes after the upsert, the page of the
    document has a null checksum. (Nothing is said of a failure that
    comes after the old sections were deleted and before the upsert is
    made.) Unless [$disconnect] itself fails in a [finally] block, the
    loop returns normally and has read every document of the sequence. *)
Theorem failure_stays_in_its_document :
  (forall (shouldRefresh : option bool) (es : EmbeddingSource) (w : World) (e : Error),
     fst (try_block shouldRefresh es w) = Throw e ->
     let w' := snd (index_source shouldRefresh es w) in
     exists t,
       trace (snd (try_block shouldRefresh es w)) = trace w ++ t /\
       (stopped_after_delete t = false ->
        db w' = db w \/
        exists p, find_page_by_path (path es) (db w') = Some p /\
                  Page.checksum p = None)) /\
  ((forall n, fails n Disconnect = false) ->
   forall (shouldRefresh : option bool) (sources : list EmbeddingSource) (w : World),
     fst (for_of sources (index_source shouldRefresh) w) = Return tt /\
     exists t,
       trace (snd (for_of sources (index_source shouldRefresh) w)) = trace w ++ t /\
       Forall (fun es => In (ReadFile (filePath es)) t) sources).
Proof.
  split.
  - intros shouldRefresh es w e Hthrow. simpl.
    destruct (index_source_unfold fails readFile processMdxForSearch embeddings_create
                shouldRefresh es w) as (Hdb & _).
    rewrite !Hdb. by apply (try_block_throws shouldRefresh es w e).
  - intros Hdisconnect shouldRefresh sources w.
    by apply (index_sources_continue fails readFile processMdxForSearch embeddings_create).
Qed.

End Failures.

Lemma failure_stays_in_its_document_sample :
  let w' := snd (index_source eighth_call_fails sample_readFile
                   sample_processMdxForSearch sample_embeddings_create None
                   sample_intro sample_world) in
  exists e p,
    fst (try_block eighth_call_fails sample_readFile sample_processMdxForSearch
           sample_embeddings_create None sample_intro sample_world) = Throw e /\
    find_page_by_path "docs/intro" (db w') = Some p /\ Page.checksum p = None.
Proof.
  eexists.
  edestruct (proj1 (failure_stays_in_its_document eighth_call_fails sample_readFile
                      sample_processMdxForSearch sample_embeddings_create)
               None sample_intro sample_world) as (t & Ht & Hleft).
  { vm_compute. reflexivity. }
  vm_compute in Ht. subst t.
  destruct (Hleft eq_refl) as [Hsame|(p & Hfind & Hsum)].
  - by vm_compute in Hsame.
  - exists p. split; [vm_compute; reflexivity|]. by split.
Defined.

End FailureFacts.

(** ** Documents without sections, and documents without a parent *)

Module DocumentFacts.
Import Path Walker Estree Mdast Segmenter Store Effects Provider Indexer IndexerSpec.
Import EffectsFacts ProviderFacts StoreFacts IndexerFacts PipelineFacts IndexerMore.
Import Samples EngineSamples.

Section Documents.
Variable fails : nat -> Call -> bool.
Variable readFile : string -> option string.
Variable embeddings_create : string -> EmbeddingResponse.
Variable sha256_base64 : string -> string.
Variable fromMarkdown : string -> option Root.
Variable filter : Root -> (Content -> bool) -> option Root.
Variable toMarkdown : Root -> string.
Variable toString : Content -> string.
Variable Slugger : Type.
Variable new_slugger : Slugger.
Variable slugger_slug : Slugger -> string -> string * Slugger.

Local Abbreviation processMdxForSearch :=
  (processMdxForSearch sha256_base64 fromMarkdown filter toMarkdown toString
     Slugger new_slugger slugger_slug).
Local Abbreviation index_source :=
  (index_source fails readFile processMdxForSearch embeddings_create).

(** C10, as amended. A document that the segmenter turns into no
    section at all, that has a parent path and is new, changed or
    refreshed, is indexed all the same when no call fails: the turn of the
    loop ends normally; the page of the document is there, made or reset
    by the upsert, with the freshly computed checksum; it has no section
    row; and the calls of the turn are the reads, the deletion of the old
    sections if there was a page, the upsert and the update of the
    checksum, without a call to the embedding provider. *)
Theorem document_without_sections_indexed (shouldRefresh : option bool)
    (es : EmbeddingSource) (w : World) (contents : string) (processed : ProcessedMdx)
    (parent : string) :
  (forall n c, fails n c = false) ->
  readFile (filePath es) = Some contents ->
  processMdxForSearch contents = Some processed ->
  sections processed = [] ->
  parentPath es = Some parent ->
  consistent (db w) ->
  (forall existing,
     find_page_by_path (path es) (db w) = Some existing ->
     not_refresh shouldRefresh = true ->
     Page.checksum existing <> Some (sha256_base64 contents)) ->
  let w' := snd (index_source shouldRefresh es w) in
  fst (index_source shouldRefresh es w) = Return tt /\
  exists p,
    find_page_by_path (path es) (db w') = Some p /\
    Page.checksum p = Some (sha256_base64 contents) /\
    Page.type p = Some (type es) /\
    Page.source p = Some (source es) /\
    Page.id p = match find_page_by_path (path es) (db w) with
                | Some existing => Page.id existing
                | None => page_id_seq (db w)
                end /\
    List.filter (of_page (Page.id p)) (page_sections (db w')) = [] /\
    trace w'
    = trace w
      ++ [ReadFile (filePath es); PageFindUnique (Some (path es))]
      ++ match find_page_by_path (path es) (db w) with
         | Some existing => [PageSectionDeleteMany (Page.id existing)]
         | None => []
         end
      ++ [PageFindUnique (Some parent); PageUpsert (path es) None;
          PageUpdateChecksum (Page.id p) (sha256_base64 contents); Disconnect].
Proof.
  intros Hfails Hread Hprocess Hempty Hparent Hcons Hstale.
  pose proof (processMdxForSearch_checksum sha256_base64 fromMarkdown filter toMarkdown
                toString Slugger new_slugger slugger_slug contents processed Hprocess)
    as Hsum.
  destruct (document_stored fails readFile processMdxForSearch embeddings_create Hfails
              shouldRefresh es w contents processed parent)
    as (Hret & p & Hstored & Htrace); [done|done|by rewrite Hempty|done|done| | |].
  { intros Hne. by rewrite Hempty in Hne. }
  { by rewrite Hsum. }
  split; [exact Hret|]. exists p.
  destruct Hstored as (Hfind & Hsump & Htype & Hsource & Hid & _ & Hrows & _).
  rewrite Hempty in Hrows. rewrite <- Hsum.
  split_and!; [done..|].
  rewrite Htrace. unfold indexing_calls. rewrite Hempty. simpl.
  destruct (find_page_by_path (path es) (db w)); by repeat (rewrite <- app_assoc; simpl).
Qed.

(** X16. A document without a parent path is never written. The lookup
    of its parent is made with an undefined path and throws, before the
    upsert: the page table stays as it is and no upsert is called,
    whatever calls fail; and unless the document is unchanged, has no
    parent stored either and is skipped, its turn ends in an error that
    is caught and printed. *)
Theorem parentless_document_fails (shouldRefresh : option bool) (es : EmbeddingSource)
    (w : World) :
  parentPath es = None ->
  let w' := snd (try_block fails readFile processMdxForSearch embeddings_create
                   shouldRefresh es w) in
  let o := fst (try_block fails readFile processMdxForSearch embeddings_create
                  shouldRefresh es w) in
  pages (db w') = pages (db w) /\
  (exists t, trace w' = trace w ++ t /\ Forall (fun c => writes_checksum c = false) t) /\
  (o = Return tt ->
   exists contents processed existing,
     readFile (filePath es) = Some contents /\
     processMdxForSearch contents = Some processed /\
     find_page_by_path (path es) (db w) = Some existing /\
     not_refresh shouldRefresh = true /\
     Page.checksum existing = Some (checksum processed) /\
     parent_of existing (db w) = None /\
     db w' = db w).
Proof.
  intros Hparent. simpl.
  change (wp (try_block fails readFile processMdxForSearch embeddings_create
                shouldRefresh es)
            (fun o w' =>
               pages (db w') = pages (db w) /\
               (exists t, trace w' = trace w ++ t /\
                          Forall (fun c => writes_checksum c = false) t) /\
               (o = Return tt ->
                exists contents processed existing,
                  readFile (filePath es) = Some contents /\
                  processMdxForSearch contents = Some processed /\
                  find_page_by_path (path es) (db w) = Some existing /\
                  not_refresh shouldRefresh = true /\
                  Page.checksum existing = Some (checksum processed) /\
                  parent_of existing (db w) = None /\
                  db w' = db w)) w).
  unfold Indexer.try_block, load.
  apply wp_bind, wp_bind, wp_call; intros _; simpl.
  { split_and!; [done|eexists; split; [done|by repeat constructor]|done]. }
  destruct (readFile (filePath es)) as [contents|] eqn:Hread; simpl.
  2: { split_and!; [done|eexists; split; [done|by repeat constructor]|done]. }
  destruct (processMdxForSearch contents) as [processed|] eqn:Hprocess.
  2: { apply wp_throw. split_and!; [done|eexists; split; [done|by repeat constructor]|done]. }
  apply wp_ret. simpl. apply wp_bind. unfold page_findUnique_with_parent.
  apply wp_call; intros _; trace_norm.
  { split_and!; [done|eexists; split; [done|by repeat constructor]|done]. }
  match goal with
  | |- wp _ ?Q ?W =>
      assert (Hre : forall existingPage, wp (reindex fails embeddings_create es processed
                                               existingPage) Q W)
  end.
  { intros existingPage. unfold Indexer.reindex. rewrite Hparent. apply wp_bind.
    destruct existingPage as [[existing existingParent]|].
    - apply wp_bind, wp_console_log. unfold pageSection_deleteMany.
      apply wp_call; intros _; trace_norm.
      { split_and!; [done|eexists; split; [done|by repeat constructor]|done]. }
      apply wp_bind, wp_page_findUnique; [|done]. intros e. trace_norm.
      split_and!; [done|eexists; split; [done|by repeat constructor]|done].
    - apply wp_ret. apply wp_bind, wp_page_findUnique; [|done]. intros e. trace_norm.
      split_and!; [done|eexists; split; [done|by repeat constructor]|done]. }
  destruct (find_page_by_path (path es) (db w)) as [existing|] eqn:Hfind; simpl;
    [|apply Hre].
  destruct (not_refresh shouldRefresh) eqn:Hrefresh; simpl; [|apply Hre].
  destruct (bool_decide (Page.checksum existing = Some (checksum processed))) eqn:Hsame;
    [|apply Hre].
  apply bool_decide_eq_true in Hsame. clear Hre. rewrite Hparent.
  destruct (bool_decide _) eqn:Hlink.
  { apply bool_decide_eq_true in Hlink. apply wp_ret. split; [done|]. split.
    { trace_norm. eexists. split; [done|by repeat constructor]. }
    intros _. exists contents, processed, existing. split_and!; [done..| |done].
    by destruct (parent_of existing (db w)). }
  apply wp_bind, wp_console_log, wp_bind, wp_page_findUnique; [|done]. intros e.
  trace_norm.
  split_and!; [done|eexists; split; [done|by repeat constructor]|done].
Qed.

End Documents.

Lemma document_without_sections_indexed_sample :
  option_map sections (sample_processMdxForSearch "only mdx") = Some [] /\
  fst (sample_index_source None sample_index sample_world) = Return tt /\
  exists p,
    find_page_by_path "docs/index" (db (snd (sample_index_source None sample_index sample_world)))
    = Some p /\
    Page.checksum p = Some "sha256:only mdx" /\
    List.filter (of_page (Page.id p))
      (page_sections (db (snd (sample_index_source None sample_index sample_world)))) = [].
Proof.
  split; [reflexivity|].
  destruct (document_without_sections_indexed no_failures sample_readFile
              sample_embeddings_create sample_sha256 sample_fromMarkdown
              unist_util_filter sample_toMarkdown sample_toString (list string) []
              sample_slug None sample_index sample_world "only mdx"
              (mkProcessed "sha256:only mdx" (extractMetaExport sample_mdx_only_tree) [])
              "docs/index")
    as (Hret & p & Hfind & Hsum & _ & _ & _ & Hrows & _);
    [done|reflexivity..|split_and!; constructor|done|].
  split; [exact Hret|]. by exists p.
Defined.

(** A document without sections that is unchanged is skipped: its page
    is not upserted and its checksum is not written again. *)
Lemma unchanged_document_not_upserted :
  let run := sample_index_source None sample_index indexed_once in
  option_map sections (sample_processMdxForSearch "only mdx") = Some [] /\
  fst run = Return tt /\
  drop (length (trace indexed_once)) (trace (snd run))
  = [ReadFile "docs/index.mdx"; PageFindUnique (Some "docs/index");
     PageFindUnique (Some "docs/index"); PageUpdateParent 1 (Some 1%Z); Disconnect].
Proof. vm_compute. by split_and!. Qed.

Lemma parentless_document_fails_sample :
  let run := try_block no_failures sample_readFile sample_processMdxForSearch
               sample_embeddings_create None
               (MarkdownEmbeddingSource "guide" "docs/intro.mdx" None) sample_world in
  fst run = Throw ValidationError /\ pages (db (snd run)) = [].
Proof.
  split; [vm_compute; reflexivity|].
  by apply (parentless_document_fails no_failures sample_readFile sample_embeddings_create
              sample_sha256 sample_fromMarkdown unist_util_filter sample_toMarkdown
              sample_toString (list string) [] sample_slug None
              (MarkdownEmbeddingSource "guide" "docs/intro.mdx" None) sample_world).
Defined.

End DocumentFacts.

(** ** Parents *)

Module ParentFacts.
Import Path Chars Walker WalkerSpec Indexer.
Import PathFacts WalkerFacts PathMore WalkerMore PipelineFacts.
Import Samples EngineSamples.

(** *** Paths that [formatPath] leaves but for the extension *)

Lemma no_ordering_prefix_cons (a : ascii) (t : string) :
  no_ordering_prefix (String a t) =
  match t with
  | String b (String c _) => negb (is_digit a && is_digit b && is_dash c)
  | _ => true
  end && no_ordering_prefix t.
Proof. reflexivity. Qed.

Lemma remove_two_digits_dash_none (s : string) :
  no_ordering_prefix s = true -> remove_two_digits_dash s = s.
Proof.
  induction s as [|a t IH]; [done|]. rewrite no_ordering_prefix_cons. intros H.
  apply andb_true_iff in H as [Hhead Htail]. specialize (IH Htail).
  rewrite remove_two_digits_dash_cons.
  destruct t as [|b [|c rest]]; [by rewrite IH..|].
  apply negb_true_iff in Hhead. by rewrite Hhead, IH.
Qed.

Lemma no_backslash_index (s : string) :
  all_chars (fun c => negb (is_backslash c)) s = true ->
  ends_with backslash_index s = false.
Proof.
  intros Hs. destruct (ends_with backslash_index s) eqn:Hend; [|done].
  apply ends_with_split in Hend as [pre ->].
  rewrite all_chars_app in Hs. apply andb_true_iff in Hs as [_ Hs]. done.
Qed.

Lemma formatPath_unmarked_mdx (g : string) :
  unmarked (g +:+ ".mdx") = true -> formatPath (g +:+ ".mdx") = g.
Proof.
  unfold unmarked. intros H. apply andb_true_iff in H as [Hb Hn].
  unfold formatPath. rewrite replace_double_backslash_plain by done.
  rewrite remove_two_digits_dash_none by done. rewrite remove_at_end_app.
  apply remove_at_end_absent, no_backslash_index.
  rewrite all_chars_app in Hb. by apply andb_true_iff in Hb as [? _].
Qed.

Lemma formatPath_unmarked_other (s : string) :
  unmarked s = true -> ends_with ".mdx" s = false -> formatPath s = s.
Proof.
  unfold unmarked. intros H Hend. apply andb_true_iff in H as [Hb Hn].
  unfold formatPath. rewrite replace_double_backslash_plain by done.
  rewrite remove_two_digits_dash_none by done.
  rewrite (remove_at_end_absent ".mdx") by done.
  by apply remove_at_end_absent, no_backslash_index.
Qed.

Lemma md_is_not_index (s pre : string) : s +:+ ".md" <> pre +:+ "index".
Proof.
  revert pre. induction s as [|a s IH]; intros pre H.
  - by destruct pre as [|? [|? [|? [|? ?]]]].
  - destruct pre as [|b pre].
    + simpl in H. injection H as _ H.
      by destruct s as [|? [|? [|? [|? [|? ?]]]]].
    + simpl in H. injection H as _ H. by eapply IH.
Qed.

Lemma forallb_take {A} (f : A -> bool) (k : nat) (l : list A) :
  forallb f l = true -> forallb f (take k l) = true.
Proof.
  revert k. induction l as [|x l IH]; intros [|k]; simpl; try done.
  intros H. apply andb_true_iff in H as [-> H]. by apply IH.
Qed.

(** A discovered document comes from an entry whose path ends in [.md]
    or [.mdx]. *)
Lemma embeddingSources_entry (entries : list WalkEntry) (es : EmbeddingSource) :
  In es (embeddingSources entries) ->
  exists entry,
    In entry entries /\ is_markdown_path (Walker.path entry) = true /\
    es = MarkdownEmbeddingSource "guide" (Walker.path entry) (Walker.parentPath entry).
Proof.
  unfold embeddingSources. intros Hin.
  apply in_map_iff in Hin as (entry & <- & Hin).
  apply filter_In in Hin as [Hin _]. apply filter_In in Hin as [Hin Hmd].
  by exists entry.
Qed.

Section Parents.
Variable join : string -> string -> string.
Variable localeCompare : string -> string -> Z.

Local Abbreviation walk := (Walker.walk join localeCompare).
Local Abbreviation along := (WalkerSpec.along join).
Local Abbreviation nearest_index := (WalkerSpec.nearest_index join).

(** The index of a directory has itself as parent. *)
Lemma own_index (n : fsnode) (dir : string) (parent : option string) ds chs
    (p : option string) :
  way n ds chs "index.mdx" -> nearest_index dir parent ds chs p ->
  p = Some (along dir (ds ++ ["index.mdx"])).
Proof.
  intros Hway Hnear. destruct (way_last _ _ _ _ Hway) as (es & Hlast & Hin).
  assert (Hes : has_index es = true).
  { apply includes_In. by apply (in_map fst) in Hin. }
  pose proof (way_length _ _ _ _ Hway) as Hlen.
  destruct Hnear as [[Hnone _]|(k & esk & Hk & Hidx & Hdeeper & ->)].
  - pose proof (proj1 (Forall_lookup _ _) Hnone _ _ Hlast). congruence.
  - pose proof (lookup_lt_Some _ _ _ Hk) as Hlt.
    destruct (decide (k = length ds)) as [->|Hne].
    + rewrite take_ge by lia. by rewrite (along_snoc join).
    + assert (Hdeep : (k < length ds)%nat) by lia.
      pose proof (Hdeeper _ _ Hdeep Hlast). congruence.
Qed.

(** What [join] is asked for: from [docs], different ways give
    different paths, and a path ends in the name joined last. *)
Hypothesis join_inj :
  forall ns ms,
    forallb proper_name ns = true -> forallb proper_name ms = true ->
    along "docs" ns = along "docs" ms -> ns = ms.
Hypothesis join_ends :
  forall d f, proper_name f = true -> ends_with f (join d f) = true.

(** C5, as amended. In a directory [docs] whose names are file names,
    the parent the walker gives a document is the [index.mdx] of the
    nearest directory, on the way from [docs] down to the directory of the
    document, that holds an entry of this name, and none when there is no
    such directory. So a document has its own path as parent path exactly
    when it is an [index.mdx]; this holds of the paths of the pages too
    when the file paths have no backslash and no ordering prefix. And the
    parent of a parent is that parent itself: the links lead in one step
    to an index document, which is linked to itself, and there is no
    cycle but these. *)
Theorem parent_is_nearest_index (docs : fsnode) (entries : list WalkEntry) :
  proper_tree docs = true ->
  walk docs "docs" None = Some entries ->
  (forall e, In e entries ->
     exists ds chs name,
       way docs ds chs name /\
       Walker.path e = along "docs" (ds ++ [name]) /\
       nearest_index "docs" None ds chs (Walker.parentPath e) /\
       (Walker.parentPath e = Some (Walker.path e) <-> name = "index.mdx")) /\
  (forall e e', In e entries -> In e' entries ->
     Walker.parentPath e = Some (Walker.path e') ->
     Walker.parentPath e' = Some (Walker.path e')) /\
  (forall es, In es (embeddingSources entries) ->
     unmarked (filePath es) = true ->
     (forall pf, parentFilePath es = Some pf -> unmarked pf = true) ->
     parentPath es = Some (path es) ->
     parentFilePath es = Some (filePath es)).
Proof.
  intros Hproper Hwalk.
  assert (Hindex : proper_name "index.mdx" = true) by reflexivity.
  assert (Hsnoc : forall ds name,
            forallb proper_name ds = true -> proper_name name = true ->
            forallb proper_name (ds ++ [name]) = true).
  { intros ds name Hds Hname. rewrite forallb_app, Hds. simpl. by rewrite Hname. }
  assert (Hself : forall ds chs name p,
            way docs ds chs name -> nearest_index "docs" None ds chs p ->
            p = Some (along "docs" (ds ++ [name])) -> name = "index.mdx").
  { intros ds chs name p Hway Hnear ->.
    destruct (way_proper _ _ _ _ Hway Hproper) as [Hds Hname].
    destruct Hnear as [[_ [=]]|(k & esk & _ & _ & _ & [= Heq])].
    rewrite <- (along_snoc join) in Heq. apply join_inj in Heq.
    - by apply app_inj_tail in Heq as [_ ->].
    - by apply Hsnoc.
    - apply Hsnoc; [by apply forallb_take|done]. }
  split_and!.
  - intros e He.
    destruct (walk_way_1 join localeCompare docs "docs" None entries e Hwalk He)
      as (ds & chs & name & Hway & Hpath & Hnear).
    exists ds, chs, name. split_and!; [done..|]. rewrite Hpath. split.
    + by apply (Hself ds chs).
    + intros ->. by eapply own_index.
  - intros e e' He He' Hparent.
    destruct (walk_way_1 join localeCompare docs "docs" None entries e Hwalk He)
      as (ds & chs & name & Hway & Hpath & Hnear).
    destruct (walk_way_1 join localeCompare docs "docs" None entries e' Hwalk He')
      as (ds' & chs' & name' & Hway' & Hpath' & Hnear').
    destruct (way_proper _ _ _ _ Hway Hproper) as [Hds Hname].
    destruct (way_proper _ _ _ _ Hway' Hproper) as [Hds' Hname'].
    rewrite Hparent in Hnear.
    destruct Hnear as [[_ [=]]|(k & esk & _ & _ & _ & [= Heq])].
    rewrite Hpath', <- (along_snoc join) in Heq. apply join_inj in Heq.
    + apply app_inj_tail in Heq as [_ ->]. rewrite Hpath'. by eapply own_index.
    + by apply Hsnoc.
    + apply Hsnoc; [by apply forallb_take|done].
  - intros es Hes Hfile Hparentfile Hself'.
    apply embeddingSources_entry in Hes as (entry & Hentry & Hmd & ->).
    simpl in *.
    destruct (Walker.parentPath entry) as [pf|] eqn:Hpf; [|done].
    destruct (String.eqb pf ""); [done|]. injection Hself' as Hformat.
    specialize (Hparentfile pf eq_refl).
    destruct (walk_way_1 join localeCompare docs "docs" None entries entry Hwalk Hentry)
      as (ds & chs & name & Hway & Hpath & Hnear).
    rewrite Hpf in Hnear.
    destruct Hnear as [[_ [=]]|(k & esk & _ & _ & _ & [= Hpf'])].
    pose proof (join_ends (along "docs" (take k ds)) "index.mdx" Hindex) as Hend.
    rewrite <- Hpf' in Hend. apply ends_with_split in Hend as [X HX].
    assert (HX' : pf = (X +:+ "index") +:+ ".mdx") by by rewrite append_assoc.
    rewrite HX' in Hformat, Hparentfile.
    rewrite formatPath_unmarked_mdx in Hformat by done.
    f_equal. rewrite HX'.
    destruct (ends_with ".mdx" (Walker.path entry)) eqn:Hmdx.
    + apply ends_with_split in Hmdx as [g Hg]. rewrite Hg in Hformat, Hfile |- *.
      rewrite formatPath_unmarked_mdx in Hformat by done. by rewrite Hformat.
    + rewrite formatPath_unmarked_other in Hformat by done.
      unfold is_markdown_path in Hmd. rewrite Hmdx, orb_false_r in Hmd.
      apply ends_with_split in Hmd as [h Hh]. rewrite Hh in Hformat.
      symmetry in Hformat. by apply md_is_not_index in Hformat.
Qed.

End Parents.

(** *** The join of POSIX on names *)

Lemma no_slash_proper (f : string) :
  proper_name f = true -> all_chars (fun c => negb (Ascii.eqb c "/")) f = true.
Proof. unfold proper_name. intros H. by apply andb_true_iff in H as [_ ?]. Qed.

Lemma slash_inside (X m : string) :
  all_chars (fun c => negb (Ascii.eqb c "/")) (X +:+ "/" +:+ m) = false.
Proof.
  rewrite all_chars_app.
  change (all_chars _ ("/" +:+ m)) with
    (false && all_chars (fun c => negb (Ascii.eqb c "/")) m).
  apply andb_false_r.
Qed.

Lemma split_last_slash (X Y n m : string) :
  all_chars (fun c => negb (Ascii.eqb c "/")) n = true ->
  all_chars (fun c => negb (Ascii.eqb c "/")) m = true ->
  X +:+ "/" +:+ n = Y +:+ "/" +:+ m -> X = Y /\ n = m.
Proof.
  intros Hn Hm. revert Y. induction X as [|x X IH]; intros [|y Y] H.
  - change (String "/" n = String "/" m) in H. by injection H as ->.
  - change (String "/" n = String y (Y +:+ "/" +:+ m)) in H. injection H as _ H.
    rewrite H, slash_inside in Hn. done.
  - change (String x (X +:+ "/" +:+ n) = String "/" m) in H. injection H as _ H.
    rewrite <- H, slash_inside in Hm. done.
  - change (String x (X +:+ "/" +:+ n) = String y (Y +:+ "/" +:+ m)) in H.
    injection H as -> H. destruct (IH Y H) as [-> ->]. done.
Qed.

Lemma posix_along_snoc (dir : string) (ns : list string) (n : string) :
  along posix_join dir (ns ++ [n]) = along posix_join dir ns +:+ "/" +:+ n.
Proof. by rewrite along_snoc. Qed.

Lemma posix_join_inj (ns ms : list string) :
  forallb proper_name ns = true -> forallb proper_name ms = true ->
  along posix_join "docs" ns = along posix_join "docs" ms -> ns = ms.
Proof.
  revert ms. induction ns as [|n ns IH] using rev_ind;
    intros ms; destruct ms as [|m ms _] using rev_ind; intros Hns Hms H.
  - done.
  - rewrite posix_along_snoc in H.
    apply (f_equal (all_chars (fun c => negb (Ascii.eqb c "/")))) in H.
    by rewrite slash_inside in H.
  - rewrite posix_along_snoc in H.
    apply (f_equal (all_chars (fun c => negb (Ascii.eqb c "/")))) in H.
    by rewrite slash_inside in H.
  - rewrite forallb_app in Hns, Hms. simpl in Hns, Hms.
    apply andb_true_iff in Hns as [Hns Hn]. apply andb_true_iff in Hms as [Hms Hm].
    rewrite andb_true_r in Hn, Hm.
    rewrite !posix_along_snoc in H.
    apply split_last_slash in H as [H ->]; [|by apply no_slash_proper..].
    by rewrite (IH ms Hns Hms H).
Qed.

Lemma posix_join_ends (d f : string) :
  proper_name f = true -> ends_with f (posix_join d f) = true.
Proof.
  intros _. unfold posix_join. rewrite <- append_assoc. apply ends_with_app.
Qed.

Lemma parent_is_nearest_index_sample :
  exists entries,
    walk posix_join compare_lengths nested_docs "docs" None = Some entries /\
    forall e e', In e entries -> In e' entries ->
      Walker.parentPath e = Some (Walker.path e') ->
      Walker.parentPath e' = Some (Walker.path e').
Proof.
  eexists. split; [apply nested_docs_walk|].
  apply (parent_is_nearest_index posix_join compare_lengths posix_join_inj
           posix_join_ends nested_docs _ eq_refl nested_docs_walk).
Defined.

End ParentFacts.
